(** * The Marketo -> Alfresco incremental sync engine, embedded in Rocq

    A shallow embedding of [src/sync.ts], of the two REST clients it drives
    ([src/marketo/client.ts], [src/alfresco/client.ts]) and of the helpers
    of [src/utils/date.ts], followed by the theorems that settle the
    properties claimed about the engine.

    Asynchronous code is sequential here: every [await] is a bind of the
    monad [M], which threads the state of the outside world (the wall
    clock, the two remote systems, the log of requests sent) and
    propagates thrown errors.  Calls to [logger] are left out, except
    where building their argument can throw. *)

From Stdlib Require Import ZArith List String Ascii Bool Lia Arith.
From Stdlib Require Import DecimalString Decimal DecimalPos DecimalZ.
Import ListNotations.

Local Open Scope string_scope.
Local Open Scope list_scope.
Local Open Scope Z_scope.

Set Implicit Arguments.

(* ================================================================== *)
(** * JavaScript values used by the engine *)
(* ================================================================== *)

Module Js.

(** Strings are sequences of code units; every character the engine
    inspects is in the 7-bit range, where a code unit is an [ascii]. *)

Definition slash : ascii := ascii_of_nat 47.
Definition backslash : ascii := ascii_of_nat 92.
Definition colon : ascii := ascii_of_nat 58.
Definition star : ascii := ascii_of_nat 42.
Definition question : ascii := ascii_of_nat 63.
Definition dquote : ascii := ascii_of_nat 34.
Definition less : ascii := ascii_of_nat 60.
Definition greater : ascii := ascii_of_nat 62.
Definition pipe : ascii := ascii_of_nat 124.
Definition dash : ascii := ascii_of_nat 45.
Definition zero_digit : ascii := ascii_of_nat 48.

(** The character class of the regular expression that [processEmail]
    applies to folder and email names: slash, backslash, colon, star,
    question mark, double quote, less-than, greater-than and pipe. *)
Definition reserved_chars : list ascii :=
  [slash; backslash; colon; star; question; dquote; less; greater; pipe].

Definition is_reserved (c : ascii) : bool :=
  existsb (Ascii.eqb c) reserved_chars.

(** [s.replace(/[...]/g, r)] for a one-character class and a
    one-character replacement: every match is replaced. *)
Fixpoint replace_class (cls : ascii -> bool) (r : ascii) (s : string) : string :=
  match s with
  | EmptyString => EmptyString
  | String c rest =>
      String (if cls c then r else c) (replace_class cls r rest)
  end.

Fixpoint chars (s : string) : list ascii :=
  match s with
  | EmptyString => []
  | String c rest => c :: chars rest
  end.

(** Truthiness of a string: only the empty string is falsy. *)
Definition truthy (s : string) : bool :=
  match s with EmptyString => false | String _ _ => true end.

(** [a || b] on optional strings ([undefined] and the empty string
    are falsy). *)
Definition or_else (a b : option string) : option string :=
  match a with
  | Some s => if truthy s then a else b
  | None => b
  end.

(** [s.split(sep)] for a one-character separator. *)
Fixpoint split (sep : ascii) (s : string) : list string :=
  match s with
  | EmptyString => [EmptyString]
  | String c rest =>
      if Ascii.eqb c sep then EmptyString :: split sep rest
      else match split sep rest with
           | [] => [String c EmptyString]
           | h :: t => String c h :: t
           end
  end.

(** [path.split('/').filter(p => p.length > 0)] *)
Definition path_parts (path : string) : list string :=
  filter truthy (split slash path).

(** [String(n)] for an integer [n]. *)
Definition string_of_Z (z : Z) : string :=
  NilZero.string_of_int (Z.to_int z).

(** [s.padStart(n, '0')] *)
Fixpoint zeros (n : nat) : string :=
  match n with O => EmptyString | S k => String zero_digit (zeros k) end.

Definition padStart0 (n : nat) (s : string) : string :=
  (zeros (n - String.length s) ++ s)%string.

(** [arr.slice(start, end)] with the clamping of negative and
    oversized indices that [Array.prototype.slice] performs. *)
Definition clamp_index (len i : Z) : Z :=
  if i <? 0 then Z.max (len + i) 0 else Z.min i len.

Definition slice {A : Type} (l : list A) (s e : Z) : list A :=
  let len := Z.of_nat (List.length l) in
  let k := clamp_index len s in
  let final := clamp_index len e in
  firstn (Z.to_nat (final - k)) (skipn (Z.to_nat k) l).

(** Property bags ([Record<string, unknown>]) *)
Inductive value : Type :=
| VString (s : string)
| VNumber (n : Z)
| VUndefined.

Definition Props := list (string * value).

Fixpoint get (key : string) (p : Props) : value :=
  match p with
  | [] => VUndefined
  | (k, v) :: rest => if String.eqb k key then v else get key rest
  end.

Definition value_truthy (v : value) : bool :=
  match v with
  | VString s => truthy s
  | VNumber n => negb (n =? 0)
  | VUndefined => false
  end.

Definition of_option (o : option string) : value :=
  match o with Some s => VString s | None => VUndefined end.

(** Values that can be thrown. *)
Inductive error : Type :=
| AxiosError (status : option Z) (message : string)
| Error (message : string)
| RangeError (message : string).

(** A [Date]: [None] is the Invalid Date, [Some t] the instant [t] in
    milliseconds since the epoch. *)
Definition Date := option Z.

(** [a >= b] on dates compares their time values; a comparison with
    NaN is false. *)
Definition date_ge (a b : Date) : bool :=
  match a, b with
  | Some x, Some y => y <=? x
  | _, _ => false
  end.

End Js.

(** The parts of the JavaScript platform and of date-fns that the engine
    calls and that depend on the host (string parsing of dates, the
    local calendar). *)
Class Platform : Type := {
  (** [new Date(s).getTime()], [None] when [s] does not parse *)
  Date_parse : string -> option Z;
  (** [d.toISOString()] of a valid date *)
  Date_toISOString : Z -> string;
  (** [d.getFullYear()] and [d.getMonth()] (0 for January) *)
  Date_getFullYear : Z -> Z;
  Date_getMonth : Z -> Z;
  (** date-fns [subDays(d, n)] *)
  subDays : Z -> Z -> Z
}.

(* ================================================================== *)
(** * Data model ([marketo/types.ts], [alfresco/types.ts], [config.ts]) *)
(* ================================================================== *)

Record TypedValue : Type := { tv_type : string; tv_value : string }.

Record MarketoFolder : Type := {
  folder_type : string;
  folder_value : Z;
  folderName : string
}.

Record MarketoEmail : Type := {
  email_id : Z;
  email_name : string;
  createdAt : string;
  updatedAt : string;
  email_subject : option TypedValue;
  email_fromName : option TypedValue;
  email_fromEmail : option TypedValue;
  email_folder : option MarketoFolder
}.

(** The element of the [content.json] answer. *)
Record ContentBody : Type := {
  body_htmlContent : option string;
  body_textContent : option string
}.

Record MarketoEmailContent : Type := {
  content_id : Z;
  htmlContent : option string;
  textContent : option string;
  content_subject : option string;
  content_fromName : option string;
  content_fromEmail : option string
}.

Record MarketoListResponse (T : Type) : Type := {
  list_success : bool;
  list_result : option (list T);
  moreResult : option bool
}.

Record MarketoSingleResponse (T : Type) : Type := {
  single_success : bool;
  single_result : option (list T)
}.

Record AlfrescoNode : Type := {
  node_id : string;
  node_name : string;
  node_isFolder : bool;
  node_parentId : option string;
  node_properties : option Js.Props
}.

Record AlfrescoUploadOptions : Type := {
  opt_name : string;
  opt_properties : Js.Props
}.

(** What [uploadFile] is given as file content.  The two JSON documents
    are kept as the objects handed to [JSON.stringify]. *)
Inductive FileContent : Type :=
| HtmlContent (html : string)
| MetadataJson (email : MarketoEmail) (subject fromName fromEmail : option string)
| SyncStateJson (lastSyncTimestamp : string).

Record Config : Type := {
  basePath : string;
  lookbackDays : Z;
  batchSize : Z
}.

Record SyncState : Type := { lastSyncTimestamp : option Js.value }.

Record ProcessResult : Type := {
  success : bool;
  node : option AlfrescoNode
}.

Record BatchResult : Type := {
  processed : Z;
  failed : Z;
  skipped : Z;
  failedIds : list Z
}.

Record SyncResult : Type := {
  totalEmails : Z;
  processedEmails : Z;
  failedEmails : Z;
  skippedEmails : Z;
  failedEmailIds : list Z;
  startTime : Z;
  endTime : Z;
  duration : Z
}.

(* ================================================================== *)
(** * The outside world and the monad of the engine *)
(* ================================================================== *)

(** Requests that leave the process.  Each constructor is one use of
    the private [request] method of a client (or of [uploadFile], which
    posts by itself); retries and re-authentication happen below this
    level. *)
Inductive Call : Type :=
| GetEmails (offset maxReturn : Z)
| GetEmail (id : Z)
| GetContent (id : Z)
| GetRelativePath (path : string)
| PostFolder (parentId name : string)
| PostFile (parentId fileName name : string) (content : FileContent)
           (properties : Js.Props)
| GetChildren (parentId name : string)
| PutProperties (nodeId : string) (properties : Js.Props).

(** The answer of a remote system: a rejection or a value, the state the
    system is left in, and the time the exchange took. *)
Definition Reply (E A : Type) : Type := ((Js.error + A) * E * N)%type.

Class Remote (E : Type) : Type := {
  marketo_emails : Z -> Z -> E -> Reply E (MarketoListResponse MarketoEmail);
  marketo_email : Z -> E -> Reply E (MarketoSingleResponse MarketoEmail);
  marketo_content : Z -> E -> Reply E (MarketoSingleResponse ContentBody);
  alfresco_relativePath : string -> E -> Reply E AlfrescoNode;
  alfresco_postFolder : string -> string -> E -> Reply E AlfrescoNode;
  alfresco_postFile :
    string -> string -> string -> FileContent -> Js.Props -> E ->
    Reply E AlfrescoNode;
  alfresco_children : string -> string -> E -> Reply E (list AlfrescoNode);
  alfresco_putProperties : string -> Js.Props -> E -> Reply E AlfrescoNode;
  (** by how much a timer fires late *)
  timer_lag : E -> E * N
}.

Record World (E : Type) : Type := {
  clock : Z;
  sent : list Call;
  remote : E
}.

Inductive outcome (A : Type) : Type :=
| Returned (a : A)
| Thrown (e : Js.error)
| Diverged.

Arguments Thrown {A} e.
Arguments Diverged {A}.

Definition M (E A : Type) : Type := World E -> outcome A * World E.

Definition ret {E A : Type} (a : A) : M E A := fun w => (Returned a, w).

Definition throw {E A : Type} (e : Js.error) : M E A := fun w => (Thrown e, w).

Definition diverge {E A : Type} : M E A := fun w => (Diverged, w).

Definition bind {E A B : Type} (m : M E A) (k : A -> M E B) : M E B :=
  fun w =>
    match m w with
    | (Returned a, w') => k a w'
    | (Thrown e, w') => (Thrown e, w')
    | (Diverged, w') => (Diverged, w')
    end.

(** [try { m } catch (error) { handler(error) }] *)
Definition try_catch {E A : Type} (m : M E A) (handler : Js.error -> M E A)
  : M E A :=
  fun w =>
    match m w with
    | (Thrown e, w') => handler e w'
    | other => other
    end.

Notation "x <- m ;; k" := (bind m (fun x => k))
  (at level 61, m at next level, right associativity).
Notation "m ;;; k" := (bind m (fun _ => k))
  (at level 61, right associativity).

(** One request: the remote system answers, time passes, the request is
    logged. *)
Definition perform {E A : Type} (c : Call) (p : E -> Reply E A) : M E A :=
  fun w =>
    let '(r, e, dt) := p (remote w) in
    let w' := {| clock := clock w + Z.of_N dt;
                 sent := sent w ++ [c];
                 remote := e |} in
    (match r with inl err => Thrown err | inr a => Returned a end, w').

(** [now()] of [utils/date.ts] *)
Definition now {E : Type} : M E Z := fun w => (Returned (clock w), w).

(** [await new Promise(resolve => setTimeout(resolve, ms))] *)
Definition setTimeout {E : Type} `{Remote E} (ms : Z) : M E unit :=
  fun w =>
    let '(e, lag) := timer_lag (remote w) in
    (Returned tt,
     {| clock := clock w + ms + Z.of_N lag; sent := sent w; remote := e |}).

(* ================================================================== *)
(** * [utils/date.ts] and the date-fns formatters it uses *)
(* ================================================================== *)

Section DateUtils.
Context {P : Platform}.

(** [new Date(v)] for a property value *)
Definition Date_of_value (v : Js.value) : Js.Date :=
  match v with
  | Js.VString s => Date_parse s
  | Js.VNumber n => Some n
  | Js.VUndefined => None
  end.

(** date-fns [addLeadingZeros(number, targetLength)] *)
Definition addLeadingZeros (number : Z) (targetLength : nat) : string :=
  let sign := if number <? 0 then String Js.dash EmptyString else EmptyString in
  (sign ++ Js.padStart0 targetLength (Js.string_of_Z (Z.abs number)))%string.

(** date-fns [format(date, 'yyyy')]: the year of the era, four digits
    at least. *)
Definition format_yyyy (t : Z) : string :=
  let signedYear := Date_getFullYear t in
  let year := if signedYear >? 0 then signedYear else 1 - signedYear in
  addLeadingZeros year 4.

(** date-fns [format(date, 'MM')] *)
Definition format_MM (t : Z) : string :=
  addLeadingZeros (Date_getMonth t + 1) 2.

(** [toPathFormat(date)]; [format] throws a [RangeError] on the
    Invalid Date, which is [None] here. *)
Definition toPathFormat (date : Js.Date) : option (string * string) :=
  match date with
  | Some t => Some (format_yyyy t, format_MM t)
  | None => None
  end.

(** [toISOString(date)], which throws on the Invalid Date. *)
Definition toISOString {E : Type} (date : Js.Date) : M E string :=
  match date with
  | Some t => ret (Date_toISOString t)
  | None => throw (Js.RangeError "Invalid time value")
  end.

(** [getDaysAgo(days)] *)
Definition getDaysAgo {E : Type} (days : Z) : M E Js.Date :=
  t <- now ;; ret (Some (subDays t days)).

End DateUtils.

(* ================================================================== *)
(** * [marketo/client.ts] *)
(* ================================================================== *)

Section MarketoClient.
Context {P : Platform} {E : Type} {R : Remote E}.

Definition getEmails (offset maxReturn : Z)
  : M E (MarketoListResponse MarketoEmail) :=
  perform (GetEmails offset maxReturn) (marketo_emails offset maxReturn).

(** [response.result?.[0]] *)
Definition first_result {T : Type} (r : MarketoSingleResponse T) : option T :=
  match single_result r with
  | Some (x :: _) => Some x
  | _ => None
  end.

Definition getEmailById (id : Z) : M E (option MarketoEmail) :=
  response <- perform (GetEmail id) (marketo_email id) ;;
  ret (first_result response).

Definition typed_value (v : option TypedValue) : option string :=
  option_map tv_value v.

Definition getEmailContent (id : Z) : M E (option MarketoEmailContent) :=
  try_catch
    (response <- perform (GetContent id) (marketo_content id) ;;
     match first_result response with
     | None => ret None
     | Some content =>
         email <- getEmailById id ;;
         ret (Some {| content_id := id;
                      htmlContent := body_htmlContent content;
                      textContent := body_textContent content;
                      content_subject :=
                        match email with
                        | Some e => typed_value (email_subject e)
                        | None => None
                        end;
                      content_fromName :=
                        match email with
                        | Some e => typed_value (email_fromName e)
                        | None => None
                        end;
                      content_fromEmail :=
                        match email with
                        | Some e => typed_value (email_fromEmail e)
                        | None => None
                        end |})
     end)
    (fun _ => ret None).

Definition maxReturn : Z := 200.

(** The filter of [getEmailsSince]:
    [new Date(email.updatedAt) >= since] *)
Definition modifiedSince (since : Js.Date) (email : MarketoEmail) : bool :=
  Js.date_ge (Date_parse (updatedAt email)) since.

(** [moreResult === true] *)
Definition strictly_true (b : option bool) : bool :=
  match b with Some true => true | _ => false end.

(** The [while (hasMore)] loop of [getEmailsSince]; one unit of fuel
    per request. *)
Fixpoint getEmailsSince_loop (fuel : nat) (since : Js.Date) (offset : Z)
         (allEmails : list MarketoEmail) : M E (list MarketoEmail) :=
  match fuel with
  | O => diverge
  | S fuel' =>
      response <- getEmails offset maxReturn ;;
      match list_success response, list_result response with
      | true, Some result =>
          let recentEmails := filter (modifiedSince since) result in
          let allEmails' := allEmails ++ recentEmails in
          if strictly_true (moreResult response)
          then getEmailsSince_loop fuel' since (offset + maxReturn) allEmails'
          else ret allEmails'
      | _, _ => ret allEmails
      end
  end.

Definition getEmailsSince (fuel : nat) (since : Js.Date)
  : M E (list MarketoEmail) :=
  toISOString since ;;;
  getEmailsSince_loop fuel since 0 [].

End MarketoClient.

(* ================================================================== *)
(** * [alfresco/client.ts] *)
(* ================================================================== *)

Section AlfrescoClient.
Context {E : Type} {R : Remote E}.
Variable config : Config.

(** [isNotFoundError(error)] *)
Definition isNotFoundError (error : Js.error) : bool :=
  match error with
  | Js.AxiosError (Some status) _ => status =? 404
  | _ => false
  end.

Definition getNodeByPath (path : string) : M E (option AlfrescoNode) :=
  try_catch
    (entry <- perform (GetRelativePath path) (alfresco_relativePath path) ;;
     ret (Some entry))
    (fun error => if isNotFoundError error then ret None else throw error).

Definition createFolder (parentId name : string) : M E AlfrescoNode :=
  perform (PostFolder parentId name) (alfresco_postFolder parentId name).

(** The [for (const part of pathParts)] loop of [ensureFolderPath]. *)
Fixpoint ensureFolderPath_loop (pathParts : list string)
         (currentPath : string) (currentNode : AlfrescoNode)
  : M E AlfrescoNode :=
  match pathParts with
  | [] => ret currentNode
  | part :: rest =>
      let currentPath' := (currentPath ++ "/" ++ part)%string in
      found <- getNodeByPath currentPath' ;;
      node <- match found with
              | Some n => ret n
              | None => createFolder (node_id currentNode) part
              end ;;
      ensureFolderPath_loop rest currentPath' node
  end.

Definition ensureFolderPath (path : string) : M E AlfrescoNode :=
  let currentPath := basePath config in
  currentNode <- getNodeByPath currentPath ;;
  match currentNode with
  | None =>
      throw (Js.Error ("Base path does not exist: " ++ basePath config))
  | Some root =>
      ensureFolderPath_loop (Js.path_parts path) currentPath root
  end.

(** The form posted by [uploadFile] has the fields [filedata] (the
    content, under [fileName]), [name] ([options.name || fileName]),
    [nodeType] and [properties]. *)
Definition uploadFile (parentId fileName : string) (content : FileContent)
           (options : AlfrescoUploadOptions) : M E AlfrescoNode :=
  let name :=
    if Js.truthy (opt_name options) then opt_name options else fileName in
  perform (PostFile parentId fileName name content (opt_properties options))
          (alfresco_postFile parentId fileName name content
                             (opt_properties options)).

Definition nodeExists (parentId name : string) : M E (option AlfrescoNode) :=
  try_catch
    (entries <- perform (GetChildren parentId name)
                        (alfresco_children parentId name) ;;
     match entries with
     | entry :: _ => ret (Some entry)
     | [] => ret None
     end)
    (fun _ => ret None).

Definition updateNodeProperties (nodeId : string) (properties : Js.Props)
  : M E AlfrescoNode :=
  perform (PutProperties nodeId properties)
          (alfresco_putProperties nodeId properties).

Definition getRootNodeId : M E string :=
  found <- getNodeByPath (basePath config) ;;
  match found with
  | None => throw (Js.Error ("Base path not found: " ++ basePath config))
  | Some n => ret (node_id n)
  end.

End AlfrescoClient.

(* ================================================================== *)
(** * [sync.ts] *)
(* ================================================================== *)

Section Sync.
Context {P : Platform} {E : Type} {R : Remote E}.
Variable config : Config.

Definition stateFileName : string := ".sync-state.json".
Definition stateProperty : string := "mkto:lastSyncTimestamp".

Definition noSyncState : SyncState := {| lastSyncTimestamp := None |}.

Definition loadSyncState : M E SyncState :=
  try_catch
    (rootNode <- getRootNodeId config ;;
     stateNode <- nodeExists rootNode stateFileName ;;
     match stateNode with
     | Some n =>
         match node_properties n with
         | Some properties =>
             let lastSync := Js.get stateProperty properties in
             if Js.value_truthy lastSync
             then ret {| lastSyncTimestamp := Some lastSync |}
             else ret noSyncState
         | None => ret noSyncState
         end
     | None => ret noSyncState
     end)
    (fun _ => ret noSyncState).

Definition saveSyncState (timestamp : string) : M E unit :=
  try_catch
    (rootNode <- getRootNodeId config ;;
     stateNode <- nodeExists rootNode stateFileName ;;
     let properties := [(stateProperty, Js.VString timestamp)] in
     match stateNode with
     | Some n =>
         updateNodeProperties (node_id n) properties ;;; ret tt
     | None =>
         uploadFile rootNode stateFileName (SyncStateJson timestamp)
                    {| opt_name := stateFileName;
                       opt_properties := properties |} ;;;
         ret tt
     end)
    (fun _ => ret tt).

(** The replacement of every reserved character by a dash that
    [processEmail] applies to the folder name and to the email name. *)
Definition sanitize (s : string) : string :=
  Js.replace_class Js.is_reserved Js.dash s.

(** [email.folder?.folderName || 'Uncategorized'] *)
Definition campaignName (email : MarketoEmail) : string :=
  match email_folder email with
  | Some f => if Js.truthy (folderName f) then folderName f else "Uncategorized"
  | None => "Uncategorized"
  end.

Definition sanitizedCampaignName (email : MarketoEmail) : string :=
  sanitize (campaignName email).

Definition folderPath (year month : string) (email : MarketoEmail) : string :=
  (year ++ "/" ++ month ++ "/" ++ sanitizedCampaignName email)%string.

Definition emailFileName (email : MarketoEmail) : string :=
  (Js.string_of_Z (email_id email) ++ "-" ++ sanitize (email_name email)
     ++ ".html")%string.

Definition metadataFileName (email : MarketoEmail) : string :=
  (Js.string_of_Z (email_id email) ++ "-" ++ sanitize (email_name email)
     ++ "-metadata.json")%string.

Definition emailMetadata (email : MarketoEmail) (content : MarketoEmailContent)
           (lastSyncedAt : string) : Js.Props :=
  [ ("mkto:emailId", Js.VNumber (email_id email));
    ("mkto:emailName", Js.VString (email_name email));
    ("mkto:campaignName", Js.VString (sanitizedCampaignName email));
    ("mkto:subject",
      Js.of_option (Js.or_else (content_subject content)
                               (typed_value (email_subject email))));
    ("mkto:fromName",
      Js.of_option (Js.or_else (content_fromName content)
                               (typed_value (email_fromName email))));
    ("mkto:fromEmail",
      Js.of_option (Js.or_else (content_fromEmail content)
                               (typed_value (email_fromEmail email))));
    ("mkto:createdAt", Js.VString (createdAt email));
    ("mkto:updatedAt", Js.VString (updatedAt email));
    ("mkto:lastSyncedAt", Js.VString lastSyncedAt) ].

Definition failure : ProcessResult := {| success := false; node := None |}.

(** The usable HTML body of a fetched content, when there is one:
    [!content || !content.htmlContent] is the negation. *)
Definition usableHtml (content : option MarketoEmailContent) : option string :=
  match content with
  | Some c =>
      match htmlContent c with
      | Some html => if Js.truthy html then Some html else None
      | None => None
      end
  | None => None
  end.

Definition processEmail (email : MarketoEmail) : M E ProcessResult :=
  try_catch
    (content <- getEmailContent (email_id email) ;;
     match content, usableHtml content with
     | Some content, Some html =>
         let emailDate := Date_parse (createdAt email) in
         match toPathFormat emailDate with
         | None => throw (Js.RangeError "Invalid time value")
         | Some (year, month) =>
             folderNode <- ensureFolderPath config (folderPath year month email) ;;
             existingNode <- nodeExists (node_id folderNode) (emailFileName email) ;;
             match existingNode with
             | Some existing =>
                 ret {| success := true; node := Some existing |}
             | None =>
                 syncedAt <- now ;;
                 let metadata :=
                   emailMetadata email content (Date_toISOString syncedAt) in
                 htmlNode <-
                   uploadFile (node_id folderNode) (emailFileName email)
                              (HtmlContent html)
                              {| opt_name := emailFileName email;
                                 opt_properties := metadata |} ;;
                 uploadFile (node_id folderNode) (metadataFileName email)
                            (MetadataJson email (content_subject content)
                                          (content_fromName content)
                                          (content_fromEmail content))
                            {| opt_name := metadataFileName email;
                               opt_properties :=
                                 [ ("mkto:emailId", Js.VNumber (email_id email));
                                   ("mkto:emailName",
                                     Js.VString (email_name email)) ] |} ;;;
                 ret {| success := true; node := Some htmlNode |}
             end
         end
     | _, _ => ret failure
     end)
    (fun _ => ret failure).

Definition emptyBatch : BatchResult :=
  {| processed := 0; failed := 0; skipped := 0; failedIds := [] |}.

(** The classification inside the batch loop. *)
Definition classify (acc : BatchResult) (email : MarketoEmail)
           (result : ProcessResult) : BatchResult :=
  if success result then
    match node result with
    | Some _ =>
        {| processed := processed acc + 1; failed := failed acc;
           skipped := skipped acc; failedIds := failedIds acc |}
    | None =>
        {| processed := processed acc; failed := failed acc;
           skipped := skipped acc + 1; failedIds := failedIds acc |}
    end
  else
    {| processed := processed acc; failed := failed acc + 1;
       skipped := skipped acc;
       failedIds := failedIds acc ++ [email_id email] |}.

(** [for (const email of batch)] *)
Fixpoint processItems (batch : list MarketoEmail) (acc : BatchResult)
  : M E BatchResult :=
  match batch with
  | [] => ret acc
  | email :: rest =>
      result <- processEmail email ;;
      let acc' := classify acc email result in
      setTimeout 100 ;;;
      processItems rest acc'
  end.

(** [for (let i = 0; i < emails.length; i += batchSize)]; one unit of
    fuel per turn of the loop. *)
Fixpoint processBatch_loop (fuel : nat) (emails : list MarketoEmail)
         (batchSize : Z) (i : Z) (acc : BatchResult) : M E BatchResult :=
  if i <? Z.of_nat (List.length emails) then
    match fuel with
    | O => diverge
    | S fuel' =>
        let batch := Js.slice emails i (i + batchSize) in
        acc' <- processItems batch acc ;;
        processBatch_loop fuel' emails batchSize (i + batchSize) acc'
    end
  else ret acc.

(** With a positive [batchSize] the loop makes at most
    [emails.length] turns, so that much fuel is never used up; with a
    zero or negative one it never ends, and the fuel runs out. *)
Definition processBatch (emails : list MarketoEmail) (batchSize : Z)
  : M E BatchResult :=
  processBatch_loop (List.length emails) emails batchSize 0 emptyBatch.

(** Lines 282-300 of [sync]: load the marker, choose the lower bound,
    fetch the candidates. *)
Definition sinceDateOf (syncState : SyncState) : M E Js.Date :=
  match lastSyncTimestamp syncState with
  | Some v =>
      let sinceDate := Date_of_value v in
      toISOString sinceDate ;;; ret sinceDate
  | None =>
      sinceDate <- getDaysAgo (lookbackDays config) ;;
      toISOString sinceDate ;;; ret sinceDate
  end.

Definition fetchCandidates (fuel : nat) : M E (list MarketoEmail) :=
  syncState <- loadSyncState ;;
  sinceDate <- sinceDateOf syncState ;;
  getEmailsSince fuel sinceDate.

Definition sync (fuel : nat) : M E SyncResult :=
  start <- now ;;
  try_catch
    (emails <- fetchCandidates fuel ;;
     let total := Z.of_nat (List.length emails) in
     match emails with
     | [] =>
         finish <- now ;;
         ret {| totalEmails := total; processedEmails := 0;
                failedEmails := 0; skippedEmails := 0;
                failedEmailIds := [];
                startTime := start; endTime := finish;
                duration := finish - start |}
     | _ :: _ =>
         batchResult <- processBatch emails (batchSize config) ;;
         syncTimestamp <- toISOString (Some start) ;;
         saveSyncState syncTimestamp ;;;
         finish <- now ;;
         ret {| totalEmails := total;
                processedEmails := processed batchResult;
                failedEmails := failed batchResult;
                skippedEmails := skipped batchResult;
                failedEmailIds := failedIds batchResult;
                startTime := start; endTime := finish;
                duration := finish - start |}
     end)
    (fun error => now ;;; throw error).

End Sync.

(* ================================================================== *)
(** * [utils/retry.ts] *)
(* ================================================================== *)

Module Retry.

(** [interface RetryOptions].  The numbers the engine configures are
    whole (attempt counts and milliseconds), so the fields are
    integers; nothing confines [maxRetries] to positive values. *)
Record RetryOptions : Type := {
  maxRetries : Z;
  initialDelayMs : Z;
  maxDelayMs : Z;
  backoffMultiplier : Z
}.

(** [Partial<RetryOptions>]: each field may be left out. *)
Record PartialOptions : Type := {
  maxRetries_opt : option Z;
  initialDelayMs_opt : option Z;
  maxDelayMs_opt : option Z;
  backoffMultiplier_opt : option Z
}.

Definition DEFAULT_RETRY_OPTIONS : RetryOptions :=
  {| maxRetries := 3; initialDelayMs := 1000;
     maxDelayMs := 30000; backoffMultiplier := 2 |}.

(** The default of the parameter [options], [{}]. *)
Definition noOptions : PartialOptions :=
  {| maxRetries_opt := None; initialDelayMs_opt := None;
     maxDelayMs_opt := None; backoffMultiplier_opt := None |}.

(** [{ ...DEFAULT_RETRY_OPTIONS, ...options }]: a field that is given
    replaces the default. *)
Definition spread (options : PartialOptions) : RetryOptions :=
  {| maxRetries :=
       match maxRetries_opt options with
       | Some n => n
       | None => maxRetries DEFAULT_RETRY_OPTIONS
       end;
     initialDelayMs :=
       match initialDelayMs_opt options with
       | Some n => n
       | None => initialDelayMs DEFAULT_RETRY_OPTIONS
       end;
     maxDelayMs :=
       match maxDelayMs_opt options with
       | Some n => n
       | None => maxDelayMs DEFAULT_RETRY_OPTIONS
       end;
     backoffMultiplier :=
       match backoffMultiplier_opt options with
       | Some n => n
       | None => backoffMultiplier DEFAULT_RETRY_OPTIONS
       end |}.

(** [calculateDelay(attempt, options)]; [retry] calls it with
    [attempt] from 1 on, so the exponent is never negative. *)
Definition calculateDelay (attempt : nat) (options : RetryOptions) : Z :=
  let delay :=
    initialDelayMs options
    * backoffMultiplier options ^ (Z.of_nat attempt - 1) in
  Z.min delay (maxDelayMs options).

(** How the promise of [retry] settles.  [lastError] is declared
    without a value, so what [throw lastError] raises when no attempt
    was made is [undefined]: [Rejected None]. *)
Inductive Settled (A : Type) : Type :=
| Resolved (value : A)
| Rejected (error : option Js.error)
| Pending.
Arguments Rejected {A} error.
Arguments Pending {A}.

(** What a run of the executor leaves behind: how its promise
    settles, how many times [fn] was called, and the delays slept, in
    order. *)
Record Run (A : Type) : Type := {
  seen : Settled A;
  calls : nat;
  slept : list Z
}.

Section Executor.
Variable A : Type.
(** [fn]: what its [k]-th call (from 1) does, a rejection or a
    value. *)
Variable fn : nat -> Js.error + A.
Variable opts : RetryOptions.

(** The [for] loop of [retry] from the test
    [attempt <= opts.maxRetries] on, and the [throw lastError] after
    it.  [turns] bounds the iterations; [retry] provides
    [maxRetries] of them, which the loop never exceeds. *)
Fixpoint retry_loop (turns attempt : nat) (lastError : option Js.error)
    (sleeps : list Z) : Run A :=
  if Z.of_nat attempt <=? maxRetries opts then
    match turns with
    | O => {| seen := Pending; calls := Nat.pred attempt; slept := sleeps |}
    | S turns' =>
        match fn attempt with
        | inr value =>
            {| seen := Resolved value; calls := attempt; slept := sleeps |}
        | inl error =>
            if Z.of_nat attempt =? maxRetries opts then
              {| seen := Rejected (Some error); calls := attempt;
                 slept := sleeps |}
            else
              let delay := calculateDelay attempt opts in
              retry_loop turns' (S attempt) (Some error) (sleeps ++ [delay])
        end
    end
  else
    {| seen := Rejected lastError; calls := Nat.pred attempt;
       slept := sleeps |}.

End Executor.

(** [retry(fn, options)]. *)
Definition retry (A : Type) (fn : nat -> Js.error + A)
    (options : PartialOptions) : Run A :=
  let opts := spread options in
  retry_loop fn opts (Z.to_nat (maxRetries opts)) 1 None [].

(** The options both clients pass, [{ maxRetries: 3 }]. *)
Definition clientOptions : PartialOptions :=
  {| maxRetries_opt := Some 3; initialDelayMs_opt := None;
     maxDelayMs_opt := None; backoffMultiplier_opt := None |}.

End Retry.

(* ================================================================== *)
(** * A reference pair of remote systems *)
(* ================================================================== *)

(** A Marketo instance whose listing is a fixed sequence of pages and an
    Alfresco repository that stores what it is sent and answers from
    what it stores.  The repository checks nothing about names: it
    would store two children of the same name if asked to. *)
Module Bench.

Record Store : Type := {
  (** the answers of the listing endpoint, by page *)
  pages : list (MarketoListResponse MarketoEmail);
  (** the content endpoint, by email id *)
  contents : list (Z * ContentBody);
  (** the nodes of the repository, in creation order *)
  nodes : list AlfrescoNode;
  (** whether the repository accepts writes *)
  writable : bool;
  (** how long a request takes *)
  latency : N
}.

Definition with_nodes (s : Store) (l : list AlfrescoNode) : Store :=
  {| pages := pages s; contents := contents s; nodes := l;
     writable := writable s; latency := latency s |}.

Definition answer {A : Type} (s : Store) (r : Js.error + A) : Reply Store A :=
  (r, s, latency s).

(** ** The source *)

Definition emptyPage : MarketoListResponse MarketoEmail :=
  {| list_success := true; list_result := None; moreResult := None |}.

Definition page_at (s : Store) (offset maxReturn : Z)
  : MarketoListResponse MarketoEmail :=
  if (0 <=? offset) && (0 <? maxReturn)
  then nth (Z.to_nat (offset / maxReturn)) (pages s) emptyPage
  else emptyPage.

Definition page_emails (p : MarketoListResponse MarketoEmail)
  : list MarketoEmail :=
  match list_result p with Some l => l | None => [] end.

Definition all_emails (s : Store) : list MarketoEmail :=
  flat_map page_emails (pages s).

Definition email_by_id (s : Store) (id : Z) : list MarketoEmail :=
  match find (fun e => email_id e =? id) (all_emails s) with
  | Some e => [e]
  | None => []
  end.

Fixpoint content_by_id (l : list (Z * ContentBody)) (id : Z)
  : option (list ContentBody) :=
  match l with
  | [] => None
  | (k, body) :: rest => if k =? id then Some [body] else content_by_id rest id
  end.

(** ** The repository *)

Definition rootNode : AlfrescoNode :=
  {| node_id := "-root-"; node_name := ""; node_isFolder := true;
     node_parentId := None; node_properties := None |}.

Definition child_of (parentId name : string) (n : AlfrescoNode) : bool :=
  match node_parentId n with
  | Some p => String.eqb p parentId && String.eqb (node_name n) name
  | None => false
  end.

(** Resolution of a relative path: from the root, segment by segment,
    to the oldest child of that name. *)
Fixpoint walk (l : list AlfrescoNode) (segments : list string)
         (current : AlfrescoNode) : option AlfrescoNode :=
  match segments with
  | [] => Some current
  | seg :: rest =>
      match find (child_of (node_id current) seg) l with
      | Some n => walk l rest n
      | None => None
      end
  end.

Definition resolve (l : list AlfrescoNode) (path : string)
  : option AlfrescoNode :=
  walk l (Js.path_parts path) rootNode.

Definition fresh_id (l : list AlfrescoNode) : string :=
  ("node-" ++ Js.string_of_Z (Z.of_nat (List.length l)))%string.

Definition refused {A : Type} (s : Store) : Reply Store A :=
  answer s (inl (Js.AxiosError (Some 403) "Request failed with status code 403")).

Definition create (s : Store) (n : AlfrescoNode) : Reply Store AlfrescoNode :=
  if writable s
  then answer (with_nodes s (nodes s ++ [n])) (inr n)
  else refused s.

Definition set_properties (nodeId : string) (properties : Js.Props)
           (n : AlfrescoNode) : AlfrescoNode :=
  if String.eqb (node_id n) nodeId then
    {| node_id := node_id n; node_name := node_name n;
       node_isFolder := node_isFolder n; node_parentId := node_parentId n;
       node_properties :=
         Some (properties ++ match node_properties n with
                             | Some old => old
                             | None => []
                             end) |}
  else n.

#[export] Instance store_remote : Remote Store := {
  marketo_emails offset maxReturn s := answer s (inr (page_at s offset maxReturn));
  marketo_email id s :=
    answer s (inr {| single_success := true;
                     single_result := Some (email_by_id s id) |});
  marketo_content id s :=
    answer s (inr {| single_success := true;
                     single_result := content_by_id (contents s) id |});
  alfresco_relativePath path s :=
    match resolve (nodes s) path with
    | Some n => answer s (inr n)
    | None =>
        answer s (inl (Js.AxiosError (Some 404)
                                     "Request failed with status code 404"))
    end;
  alfresco_postFolder parentId name s :=
    create s {| node_id := fresh_id (nodes s); node_name := name;
                node_isFolder := true; node_parentId := Some parentId;
                node_properties := None |};
  alfresco_postFile parentId fileName name content properties s :=
    create s {| node_id := fresh_id (nodes s); node_name := name;
                node_isFolder := false; node_parentId := Some parentId;
                node_properties := Some properties |};
  alfresco_children parentId name s :=
    answer s (inr (filter (child_of parentId name) (nodes s)));
  alfresco_putProperties nodeId properties s :=
    if writable s then
      match find (fun n => String.eqb (node_id n) nodeId) (nodes s) with
      | Some n =>
          answer (with_nodes s (map (set_properties nodeId properties) (nodes s)))
                 (inr (set_properties nodeId properties n))
      | None =>
          answer s (inl (Js.AxiosError (Some 404)
                                       "Request failed with status code 404"))
      end
    else refused s;
  timer_lag s := (s, 0%N)
}.

(** ** A platform for the examples *)

(** Days since the epoch to the civil year and month (0 for January)
    of the proleptic Gregorian calendar. *)
Definition civil (days : Z) : Z * Z :=
  let z := days + 719468 in
  let era := z / 146097 in
  let doe := z - era * 146097 in
  let yoe := (doe - doe / 1460 + doe / 36524 - doe / 146096) / 365 in
  let doy := doe - (365 * yoe + yoe / 4 - yoe / 100) in
  let mp := (5 * doy + 2) / 153 in
  let m := if mp <? 10 then mp + 3 else mp - 9 in
  let y := yoe + era * 400 in
  (if m <=? 2 then y + 1 else y, m - 1).

Definition msPerDay : Z := 86400000.

(** Date strings are decimal counts of milliseconds since the epoch;
    the calendar is UTC. *)
Definition epoch : Platform :=
  {| Date_parse s :=
       match NilZero.int_of_string s with
       | Some d => Some (Z.of_int d)
       | None => None
       end;
     Date_toISOString t := Js.string_of_Z t;
     Date_getFullYear t := fst (civil (t / msPerDay));
     Date_getMonth t := snd (civil (t / msPerDay));
     subDays t n := t - n * msPerDay |}.

Definition world (t : Z) (s : Store) : World Store :=
  {| clock := t; sent := []; remote := s |}.

End Bench.

(* ================================================================== *)
(** * What is observed of a run *)
(* ================================================================== *)

Section Observations.
Context {P : Platform} {E : Type} {R : Remote E}.
Variable config : Config.

(** [Visits emails w results w']: starting in [w], each email of the
    list, in order, is handed to [processEmail], which returns the
    result of the same rank, and is followed by the 100 ms pause; the
    world is [w'] afterwards. *)
Inductive Visits :
  list MarketoEmail -> World E -> list ProcessResult -> World E -> Prop :=
| visits_nil w : Visits [] w [] w
| visits_cons email rest w result w1 w2 results w' :
    processEmail config email w = (Returned result, w1) ->
    setTimeout 100 w1 = (Returned tt, w2) ->
    Visits rest w2 results w' ->
    Visits (email :: rest) w (result :: results) w'.

(** The counters after a sequence of results. *)
Fixpoint tally (acc : BatchResult) (emails : list MarketoEmail)
         (results : list ProcessResult) : BatchResult :=
  match emails, results with
  | email :: emails', result :: results' =>
      tally (classify acc email result) emails' results'
  | _, _ => acc
  end.

(** The emails whose result is a failure, in order. *)
Fixpoint failures (emails : list MarketoEmail) (results : list ProcessResult)
  : list MarketoEmail :=
  match emails, results with
  | email :: emails', result :: results' =>
      if success result then failures emails' results'
      else email :: failures emails' results'
  | _, _ => []
  end.

Definition counted (b : BatchResult) : Z := processed b + failed b + skipped b.

(** [Drains offset w pages w']: starting in [w], the listing is
    requested at [offset], [offset + 200], ...; [pages] are the
    results of the pages that were accepted, in order, and the
    requests end in [w'] with the first page that is unsuccessful or
    carries no result (which contributes nothing) or whose
    [moreResult] is not [true]. *)
Inductive Drains :
  Z -> World E -> list (list MarketoEmail) -> World E -> Prop :=
| drains_rejected offset w response w' :
    getEmails offset maxReturn w = (Returned response, w') ->
    list_success response = false \/ list_result response = None ->
    Drains offset w [] w'
| drains_last offset w response result w' :
    getEmails offset maxReturn w = (Returned response, w') ->
    list_success response = true ->
    list_result response = Some result ->
    strictly_true (moreResult response) = false ->
    Drains offset w [result] w'
| drains_more offset w response result w1 pages w' :
    getEmails offset maxReturn w = (Returned response, w1) ->
    list_success response = true ->
    list_result response = Some result ->
    strictly_true (moreResult response) = true ->
    Drains (offset + maxReturn) w1 pages w' ->
    Drains offset w (result :: pages) w'.

(** The lower bound that [sync] computes from a loaded state. *)
Definition lowerBound (st : SyncState) (clockNow : Z) : Js.Date :=
  match lastSyncTimestamp st with
  | Some v => Date_of_value v
  | None => Some (subDays clockNow (lookbackDays config))
  end.

(** The value of the marker property that a request writes, if any. *)
Definition marker_written (c : Call) : Js.value :=
  match c with
  | PostFile _ _ _ _ properties => Js.get stateProperty properties
  | PutProperties _ properties => Js.get stateProperty properties
  | _ => Js.VUndefined
  end.

(** A request that does not touch the marker property. *)
Definition quiet (c : Call) : Prop := marker_written c = Js.VUndefined.

(** Requests that create a node. *)
Definition creates (c : Call) : bool :=
  match c with
  | PostFile _ _ _ _ _ => true
  | PostFolder _ _ => true
  | _ => false
  end.

Definition creates_nothing (c : Call) : Prop := creates c = false.

(** The already-exists outcome: a success that carries a node of the
    repository. *)
Definition AlreadyExists (l : list AlfrescoNode) (r : ProcessResult) : Prop :=
  success r = true /\ exists n, node r = Some n /\ In n l.

End Observations.

Section Behaviours.
Context {E : Type}.

(** A computation that always comes back, with a value or an error. *)
Definition Halts (A : Type) (m : M E A) : Prop :=
  forall w, fst (m w) <> Diverged.

(** A computation that always comes back with a value. *)
Definition Total (A : Type) (m : M E A) : Prop :=
  forall w, exists a w', m w = (Returned a, w').

(** [Extends ok w w']: from [w] to [w'] the clock did not go back and
    the log grew by requests that all satisfy [ok]. *)
Definition Extends (ok : Call -> Prop) (w w' : World E) : Prop :=
  clock w <= clock w' /\
  exists d, sent w' = sent w ++ d /\ Forall ok d.

Definition Keeps (ok : Call -> Prop) (A : Type) (m : M E A) : Prop :=
  forall w, Extends ok w (snd (m w)).

End Behaviours.

(** Strings as path segments and file names. *)

(** A string without reserved character. *)
Definition clean (s : string) : Prop :=
  forall c, In c (Js.chars s) -> ~ In c Js.reserved_chars.

Definition cleanb (s : string) : bool :=
  forallb (fun c => negb (Js.is_reserved c)) (Js.chars s).

Definition free_of (sep : ascii) (s : string) : bool :=
  forallb (fun c => negb (Ascii.eqb c sep)) (Js.chars s).

(** A path segment: not empty and without slash. *)
Definition segment (s : string) : Prop :=
  free_of Js.slash s = true /\ Js.truthy s = true.

(** What the argument needs of the platform: a date printed by
    [toISOString] parses back to itself and is not the empty string, and
    [subDays] is monotone in the date. *)
Class PlatformLaws (P : Platform) : Prop := {
  parse_toISOString : forall t, Date_parse (Date_toISOString t) = Some t;
  toISOString_truthy : forall t, Js.truthy (Date_toISOString t) = true;
  subDays_monotone : forall t t' n, t <= t' -> subDays t n <= subDays t' n
}.

(* ================================================================== *)
(** * The reference systems, observed *)
(* ================================================================== *)

Import Bench.

Section BenchObservations.
Context {P : Platform}.
Variable config : Config.

(** The world after one request that leaves the store as it is. *)
Definition tick (w : World Store) (c : Call) : World Store :=
  {| clock := clock w + Z.of_N (latency (remote w));
     sent := sent w ++ [c];
     remote := remote w |}.

(** The world after one request that adds a node. *)
Definition grown (w : World Store) (c : Call) (n : AlfrescoNode)
  : World Store :=
  {| clock := clock w + Z.of_N (latency (remote w));
     sent := sent w ++ [c];
     remote := with_nodes (remote w) (nodes (remote w) ++ [n]) |}.

Definition folderNode (w : World Store) (parentId name : string)
  : AlfrescoNode :=
  {| node_id := fresh_id (nodes (remote w)); node_name := name;
     node_isFolder := true; node_parentId := Some parentId;
     node_properties := None |}.

Definition fileNode (w : World Store) (parentId name : string)
           (properties : Js.Props) : AlfrescoNode :=
  {| node_id := fresh_id (nodes (remote w)); node_name := name;
     node_isFolder := false; node_parentId := Some parentId;
     node_properties := Some properties |}.

(** The content that the source has for an email, as
    [getEmailContent] assembles it. *)
Definition contentOf (s : Store) (id : Z) : option MarketoEmailContent :=
  match content_by_id (contents s) id with
  | Some (body :: _) =>
      let email := match email_by_id s id with
                   | e :: _ => Some e
                   | [] => None
                   end in
      Some {| content_id := id;
              htmlContent := body_htmlContent body;
              textContent := body_textContent body;
              content_subject :=
                match email with
                | Some e => typed_value (email_subject e)
                | None => None
                end;
              content_fromName :=
                match email with
                | Some e => typed_value (email_fromName e)
                | None => None
                end;
              content_fromEmail :=
                match email with
                | Some e => typed_value (email_fromEmail e)
                | None => None
                end |}
  | _ => None
  end.

(** What resolution and name lookup read of a node. *)
Definition skel (n : AlfrescoNode) : string * option string * string :=
  (node_id n, node_parentId n, node_name n).

(** [Grows l l']: every node of [l] is still there in [l'], at the
    same rank and with the same identity, parent and name. *)
Definition Grows (l l' : list AlfrescoNode) : Prop :=
  exists extra, map skel l' = map skel l ++ extra.

(** [Later s s']: the source is the same and the repository only grew. *)
Definition Later (s s' : Store) : Prop :=
  pages s' = pages s /\ contents s' = contents s /\
  writable s' = writable s /\ latency s' = latency s /\
  Grows (nodes s) (nodes s').

(** [Idle w w']: the store is the same, time did not go back and no
    request created a node. *)
Definition Idle (w w' : World Store) : Prop :=
  remote w' = remote w /\ Extends creates_nothing w w'.

(** The state that [loadSyncState] finds in a store. *)
Definition loadedState (s : Store) : SyncState :=
  match resolve (nodes s) (basePath config) with
  | None => noSyncState
  | Some root =>
      match hd_error (filter (child_of (node_id root) stateFileName) (nodes s)) with
      | Some n =>
          match node_properties n with
          | Some properties =>
              if Js.value_truthy (Js.get stateProperty properties)
              then {| lastSyncTimestamp :=
                        Some (Js.get stateProperty properties) |}
              else noSyncState
          | None => noSyncState
          end
      | None => noSyncState
      end
  end.

Definition markerState (timestamp : string) : SyncState :=
  {| lastSyncTimestamp := Some (Js.VString timestamp) |}.

Definition markerNode (s : Store) : option AlfrescoNode :=
  match resolve (nodes s) (basePath config) with
  | Some root =>
      hd_error (filter (child_of (node_id root) stateFileName) (nodes s))
  | None => None
  end.

(** The pages that the fetch loop accepts from a store: [None] when
    the fuel runs out first. *)
Fixpoint drained (fuel : nat) (s : Store) (offset : Z)
  : option (list (list MarketoEmail)) :=
  match fuel with
  | O => None
  | S fuel' =>
      let response := page_at s offset maxReturn in
      match list_success response, list_result response with
      | true, Some result =>
          if strictly_true (moreResult response)
          then option_map (cons result) (drained fuel' s (offset + maxReturn))
          else Some [result]
      | _, _ => Some []
      end
  end.

(** [Archived e s]: the source has a usable body for [e], its creation
    date is valid, and in the repository the folder path of [e]
    resolves to a folder that has a child named like its HTML file. *)
Definition Archived (e : MarketoEmail) (s : Store) : Prop :=
  exists html year month F,
    usableHtml (contentOf s (email_id e)) = Some html /\
    toPathFormat (Date_parse (createdAt e)) = Some (year, month) /\
    walk (nodes s)
         (Js.path_parts (basePath config)
            ++ Js.path_parts (folderPath year month e)) rootNode = Some F /\
    existsb (child_of (node_id F) (emailFileName e)) (nodes s) = true.

End BenchObservations.

(* ================================================================== *)
(** * Worked runs *)
(* ================================================================== *)

Module Examples.

Definition config : Config :=
  {| basePath := "/Company Home/Marketo Emails";
     lookbackDays := 90;
     batchSize := 50 |}.

(** 2024-01-01T00:00:00Z *)
Definition newYear : Z := 1704067200000.

Definition email (id : Z) (name : string) (folder : option string)
  : MarketoEmail :=
  {| email_id := id; email_name := name;
     createdAt := Js.string_of_Z newYear;
     updatedAt := Js.string_of_Z newYear;
     email_subject := Some {| tv_type := "Text"; tv_value := "Test Subject" |};
     email_fromName := None;
     email_fromEmail := None;
     email_folder :=
       option_map (fun f => {| folder_type := "Folder"; folder_value := 1;
                               folderName := f |}) folder |}.

Definition campaign : MarketoEmail :=
  email 123 "Test Email" (Some "Test/Campaign:2024").
Definition bodiless : MarketoEmail := email 5 "No body?" None.
Definition loose : MarketoEmail := email 6 "Loose" None.

Definition body : ContentBody :=
  {| body_htmlContent := Some "<html>Test</html>"; body_textContent := None |}.

Definition companyHome : AlfrescoNode :=
  {| node_id := "home"; node_name := "Company Home"; node_isFolder := true;
     node_parentId := Some "-root-"; node_properties := None |}.

Definition archiveRoot : AlfrescoNode :=
  {| node_id := "archive"; node_name := "Marketo Emails"; node_isFolder := true;
     node_parentId := Some "home"; node_properties := None |}.

Definition lastPage (l : list MarketoEmail) : MarketoListResponse MarketoEmail :=
  {| list_success := true; list_result := Some l; moreResult := Some false |}.

(** A source with one email that has no body. *)
Definition store : Store :=
  {| pages := [lastPage [campaign; bodiless; loose]];
     contents := [(123, body); (6, body)];
     nodes := [companyHome; archiveRoot];
     writable := true;
     latency := 7 |}.

(** A source where every email has a body. *)
Definition soundStore : Store :=
  {| pages := [lastPage [campaign; loose]];
     contents := [(123, body); (6, body)];
     nodes := [companyHome; archiveRoot];
     writable := true;
     latency := 7 |}.

(** A repository that refuses every write. *)
Definition readOnlyStore : Store :=
  {| pages := [lastPage [campaign]];
     contents := [(123, body)];
     nodes := [companyHome; archiveRoot];
     writable := false;
     latency := 7 |}.

(** A listing whose first page is an error answer that still says
    there is more, in front of a page with a recent email. *)
Definition brokenListing : Store :=
  {| pages := [ {| list_success := false; list_result := None;
                   moreResult := Some true |};
                lastPage [campaign] ];
     contents := [(123, body)];
     nodes := [companyHome; archiveRoot];
     writable := true;
     latency := 7 |}.

Definition firstRun : outcome SyncResult * World Store :=
  Eval vm_compute in sync (P := epoch) config 5 (world newYear store).

Definition soundRun : outcome SyncResult * World Store :=
  Eval vm_compute in sync (P := epoch) config 5 (world newYear soundStore).

Definition readOnlyFetch : outcome (list MarketoEmail) * World Store :=
  Eval vm_compute in
    fetchCandidates (P := epoch) config 5 (world newYear readOnlyStore).

Definition readOnlyBatch : outcome BatchResult * World Store :=
  Eval vm_compute in
    processBatch (P := epoch) config [campaign] 50 (snd readOnlyFetch).

Definition brokenFetch : outcome (list MarketoEmail) * World Store :=
  Eval vm_compute in
    getEmailsSince (P := epoch) 5 (Some 0) (world newYear brokenListing).

Definition failing : nat -> Js.error + nat :=
  fun k => inl (Js.Error ("Persistent failure " ++ Js.string_of_Z (Z.of_nat k))).

End Examples.

(* ================================================================== *)
(** * Further observations *)
(* ================================================================== *)

(** Requests that change nothing on either side. *)
Definition reads (c : Call) : Prop :=
  match c with
  | GetEmails _ _ | GetEmail _ | GetContent _
  | GetRelativePath _ | GetChildren _ _ => True
  | _ => False
  end.

(** [builds parts c]: [c] is a path lookup, or the creation of a
    folder named by one of [parts]. *)
Definition builds (parts : list string) (c : Call) : Prop :=
  match c with
  | GetRelativePath _ => True
  | PostFolder _ name => In name parts
  | _ => False
  end.

(** [tidy c]: if [c] creates a node, the name it gives is not empty and
    has no reserved character, and a file is named like the part it is
    uploaded as; [c] does not update an existing node. *)
Definition tidy (c : Call) : Prop :=
  match c with
  | PostFolder _ name => clean name /\ Js.truthy name = true
  | PostFile _ fileName name _ _ =>
      name = fileName /\ clean fileName /\ Js.truthy fileName = true
  | PutProperties _ _ => False
  | _ => True
  end.

(** [Steady m]: whatever [m] does to the reference systems, the source
    stays as it is and the repository only grows. *)
Definition Steady (A : Type) (m : M Store A) : Prop :=
  forall w, Later (remote w) (remote (snd (m w))).

Section Storable.
Context {P : Platform}.
Variable config : Config.

(** [storable e s]: all that [processEmail] needs before it writes is
    there in [s]: the source has a usable body for [e], the creation
    date of [e] is valid, and the base path resolves in the
    repository. *)
Definition storable (e : MarketoEmail) (s : Store) : bool :=
  match usableHtml (contentOf s (email_id e)),
        toPathFormat (Date_parse (createdAt e)),
        resolve (nodes s) (basePath config) with
  | Some _, Some _, Some _ => true
  | _, _, _ => false
  end.

Definition unstorable (e : MarketoEmail) (s : Store) : bool :=
  negb (storable e s).

(** The counters of a batch in which the storable candidates are
    archived and the others fail. *)
Definition settled (acc : BatchResult) (batch : list MarketoEmail)
           (s : Store) : BatchResult :=
  {| processed :=
       processed acc
       + Z.of_nat (List.length (filter (fun e => storable e s) batch));
     failed :=
       failed acc
       + Z.of_nat (List.length (filter (fun e => unstorable e s) batch));
     skipped := skipped acc;
     failedIds :=
       failedIds acc ++ map email_id (filter (fun e => unstorable e s) batch) |}.

End Storable.

(** The listing requests at offsets [offset], [offset + 200], ... *)
Definition listingCalls (offset : Z) (n : nat) : list Call :=
  map (fun k => GetEmails (offset + maxReturn * Z.of_nat k) maxReturn) (seq 0 n).

Section Script.
Context {P : Platform} {E : Type} {R : Remote E}.
Variable config : Config.

(** The block at the end of [sync.ts] that runs when the file is the
    entry point: the value returned is the code handed to
    [process.exit]. *)
Definition main (fuel : nat) : M E Z :=
  try_catch
    (result <- sync config fuel ;;
     if 0 <? Z.of_nat (List.length (failedEmailIds result))
     then ret 1
     else ret 0)
    (fun _ => ret 1).

End Script.

(* ================================================================== *)
(** * Numerals in strings *)
(* ================================================================== *)

Module Numeral.

Definition is_digit (c : ascii) : bool :=
  ((48 <=? nat_of_ascii c) && (nat_of_ascii c <=? 57))%nat.

(** The longest prefix of [s] made of decimal digits. *)
Fixpoint digits (s : string) : string :=
  match s with
  | String c rest => if is_digit c then String c (digits rest) else EmptyString
  | EmptyString => EmptyString
  end.

(** The longest prefix of [s] that reads as an integer with an
    optional minus sign. *)
Definition prefix (s : string) : string :=
  match s with
  | String c rest =>
      if Ascii.eqb c Js.dash then String c (digits rest) else digits s
  | EmptyString => EmptyString
  end.

(** The white space that [parseInt] skips, among the code units below
    256: tab, line feed, vertical tab, form feed, carriage return,
    space and no-break space. *)
Definition is_space (c : ascii) : bool :=
  let n := nat_of_ascii c in
  ((9 <=? n) && (n <=? 13) || (n =? 32) || (n =? 160))%nat.

Fixpoint trimStart (s : string) : string :=
  match s with
  | String c rest => if is_space c then trimStart rest else s
  | EmptyString => EmptyString
  end.

(** [parseInt(s, 10)]: leading white space is skipped, one sign is
    read, and the digits that follow, up to the first character that
    is not a digit, give the value; [None] is NaN, the result when
    there is no digit.  Minus zero is zero here. *)
Definition parseInt10 (s : string) : option Z :=
  let s1 := trimStart s in
  let '(negative, s2) :=
    match s1 with
    | String c rest =>
        if Ascii.eqb c Js.dash then (true, rest)
        else if Ascii.eqb c (ascii_of_nat 43) then (false, rest)
        else (false, s1)
    | EmptyString => (false, s1)
    end in
  match NilZero.uint_of_string (digits s2) with
  | Some d => Some (if negative then - Z.of_uint d else Z.of_uint d)
  | None => None
  end.

End Numeral.

(* ================================================================== *)
(** * [config.ts] *)
(* ================================================================== *)

Module Settings.

(** [process.env], once [dotenv.config()] has run: the value of a
    variable, [None] when it is not set. *)
Definition Env : Type := string -> option string.

Record Marketo : Type := {
  clientId : string;
  clientSecret : string;
  endpoint : string
}.

Record Alfresco : Type := {
  url : string;
  username : string;
  password : string;
  basePath : string
}.

Record Sync : Type := {
  lookbackDays : Z;
  batchSize : Z
}.

Record Config : Type := {
  marketo : Marketo;
  alfresco : Alfresco;
  sync : Sync
}.

Definition getEnvVar (env : Env) (name : string) (defaultValue : option string)
  : Js.error + string :=
  match Js.or_else (env name) defaultValue with
  | Some value =>
      if Js.truthy value then inr value
      else inl (Js.Error ("Missing required environment variable: " ++ name))
  | None => inl (Js.Error ("Missing required environment variable: " ++ name))
  end.

Definition getEnvVarNumber (env : Env) (name : string) (defaultValue : Z)
  : Js.error + Z :=
  match env name with
  | Some value =>
      if Js.truthy value then
        match Numeral.parseInt10 value with
        | Some parsed => inr parsed
        | None =>
            inl (Js.Error ("Environment variable " ++ name
                             ++ " must be a number, got: " ++ value))
        end
      else inr defaultValue
  | None => inr defaultValue
  end.

(** An expression that throws ends the evaluation of the object
    literal it is part of. *)
Definition and_then {A B : Type} (r : Js.error + A) (k : A -> Js.error + B)
  : Js.error + B :=
  match r with
  | inl e => inl e
  | inr a => k a
  end.

Definition loadConfig (env : Env) : Js.error + Config :=
  and_then (getEnvVar env "MARKETO_CLIENT_ID" None) (fun clientId =>
  and_then (getEnvVar env "MARKETO_CLIENT_SECRET" None) (fun clientSecret =>
  and_then (getEnvVar env "MARKETO_ENDPOINT" None) (fun endpoint =>
  and_then (getEnvVar env "ALFRESCO_URL" None) (fun url =>
  and_then (getEnvVar env "ALFRESCO_USERNAME" None) (fun username =>
  and_then (getEnvVar env "ALFRESCO_PASSWORD" None) (fun password =>
  and_then (getEnvVar env "ALFRESCO_BASE_PATH"
                      (Some "/Company Home/Marketo Emails")) (fun basePath =>
  and_then (getEnvVarNumber env "SYNC_LOOKBACK_DAYS" 90) (fun lookbackDays =>
  and_then (getEnvVarNumber env "SYNC_BATCH_SIZE" 50) (fun batchSize =>
  inr {| marketo := {| clientId := clientId; clientSecret := clientSecret;
                       endpoint := endpoint |};
         alfresco := {| url := url; username := username;
                        password := password; basePath := basePath |};
         sync := {| lookbackDays := lookbackDays;
                    batchSize := batchSize |} |}))))))))).

(** The variables without a default, in the order [loadConfig] reads
    them. *)
Definition required : list string :=
  [ "MARKETO_CLIENT_ID"; "MARKETO_CLIENT_SECRET"; "MARKETO_ENDPOINT";
    "ALFRESCO_URL"; "ALFRESCO_USERNAME"; "ALFRESCO_PASSWORD" ].

(** A variable that is set to a string that is not empty. *)
Definition present (env : Env) (name : string) : bool :=
  match env name with
  | Some value => Js.truthy value
  | None => false
  end.

(** A variable that, if present, starts with an integer. *)
Definition numeric (env : Env) (name : string) : bool :=
  match env name with
  | Some value =>
      if Js.truthy value then
        match Numeral.parseInt10 value with Some _ => true | None => false end
      else true
  | None => true
  end.

End Settings.

(** The part of the configuration that the engine reads. *)
Definition engineConfig (c : Settings.Config) : Config :=
  {| basePath := Settings.basePath (Settings.alfresco c);
     lookbackDays := Settings.lookbackDays (Settings.sync c);
     batchSize := Settings.batchSize (Settings.sync c) |}.

(* ================================================================== *)
(** * [marketo/client.ts]: authentication and the bulk extract job *)
(* ================================================================== *)

Module Axios.

(** The body of a response that reports an error, as far as
    [getErrorMessage] reads it. *)
Inductive data : Type :=
| NoData                            (** no body *)
| Text (text : string)              (** a string *)
| Errors (messages : list string)   (** an object whose [errors] member is
                                        an array, with the [message] of
                                        each element *)
| Body.                             (** any other object *)

(** What a [catch] clause of the client can receive. *)
Inductive failure : Type :=
| AxiosError (message : string) (response : option (Z * data))
| OtherError (message : string)     (** an [Error] that is not an [AxiosError] *)
| NotAnError (text : string).       (** anything else; [text] is [String(error)] *)

End Axios.

Record MarketoAuthResponse : Type := {
  access_token : string;
  expires_in : Z
}.

Inductive JobStatus : Type :=
| Created | Queued | Processing | Cancelled | Completed | Failed.

Record MarketoBulkExtractJob : Type := {
  exportId : string;
  job_status : JobStatus
}.

(** The endpoints of Marketo that the sync engine does not call. *)
Class Bulk (E : Type) : Type := {
  marketo_token : E -> (Axios.failure + MarketoAuthResponse) * E * N;
  marketo_exportStatus :
    string -> E -> Reply E (MarketoSingleResponse MarketoBulkExtractJob)
}.

(** The private fields [accessToken] and [tokenExpiresAt] of the
    client. *)
Record Session : Type := {
  accessToken : option string;
  tokenExpiresAt : Z
}.

Section MarketoSession.
Context {E : Type} {R : Remote E} {B : Bulk E}.

(** A request that is not part of a run of the engine: the remote
    system answers and time passes; the log [sent] keeps the requests
    of the engine only. *)
Definition exchange {A : Type} (p : E -> Reply E A) : M E A :=
  fun w =>
    let '(r, e, dt) := p (remote w) in
    let w' := {| clock := clock w + Z.of_N dt; sent := sent w; remote := e |} in
    (match r with inl err => Thrown err | inr a => Returned a end, w').

Definition getErrorMessage (error : Axios.failure) : string :=
  match error with
  | Axios.AxiosError message response =>
      match response with
      | Some (_, Axios.Errors messages) => String.concat ", " messages
      | Some (_, Axios.Text text) => if Js.truthy text then text else message
      | _ => message
      end
  | Axios.OtherError message => message
  | Axios.NotAnError text => text
  end.

(** [authenticate()]; the session returned is the client after the
    call, and a call that throws leaves the client as it was. *)
Definition authenticate (session : Session) : M E Session :=
  fun w =>
    let '(r, e, dt) := marketo_token (remote w) in
    let w' := {| clock := clock w + Z.of_N dt; sent := sent w; remote := e |} in
    match r with
    | inr response =>
        (Returned {| accessToken := Some (access_token response);
                     tokenExpiresAt :=
                       clock w' + (expires_in response - 300) * 1000 |}, w')
    | inl error =>
        (Thrown (Js.Error ("Marketo authentication failed: "
                             ++ getErrorMessage error)), w')
    end.

(** [!this.accessToken] *)
Definition no_token (session : Session) : bool :=
  match accessToken session with
  | Some token => negb (Js.truthy token)
  | None => true
  end.

Definition ensureAuthenticated (session : Session) : M E Session :=
  fun w =>
    if no_token session || (tokenExpiresAt session <=? clock w)
    then authenticate session w
    else (Returned session, w).

Definition getExtractJobStatus (exportId : string)
  : M E MarketoBulkExtractJob :=
  response <- exchange (marketo_exportStatus exportId) ;;
  match first_result response with
  | Some job => ret job
  | None => throw (Js.Error ("Extract job " ++ exportId ++ " not found"))
  end.

(** [job.status.toLowerCase()] *)
Definition statusLowerCase (s : JobStatus) : string :=
  match s with
  | Created => "created" | Queued => "queued" | Processing => "processing"
  | Cancelled => "cancelled" | Completed => "completed" | Failed => "failed"
  end.

Definition pollIntervalMs : Z := 5000.

(** The [while] loop of [waitForExtractJob]; one unit of fuel per
    poll. *)
Fixpoint waitForExtractJob_loop (fuel : nat) (exportId : string)
         (maxWaitSeconds startTime : Z) : M E MarketoBulkExtractJob :=
  t <- now ;;
  if t - startTime <? maxWaitSeconds * 1000 then
    match fuel with
    | O => diverge
    | S fuel' =>
        job <- getExtractJobStatus exportId ;;
        match job_status job with
        | Completed => ret job
        | Failed | Cancelled =>
            throw (Js.Error ("Extract job " ++ exportId ++ " "
                               ++ statusLowerCase (job_status job)))
        | _ =>
            setTimeout pollIntervalMs ;;;
            waitForExtractJob_loop fuel' exportId maxWaitSeconds startTime
        end
    end
  else
    throw (Js.Error ("Extract job " ++ exportId ++ " timed out after "
                       ++ Js.string_of_Z maxWaitSeconds ++ " seconds")).

Definition waitForExtractJob (fuel : nat) (exportId : string)
           (maxWaitSeconds : Z) : M E MarketoBulkExtractJob :=
  startTime <- now ;;
  waitForExtractJob_loop fuel exportId maxWaitSeconds startTime.

End MarketoSession.

(* ================================================================== *)
(** * The request lines of [alfresco/client.ts] *)
(* ================================================================== *)

Module Uri.

Definition between (lo hi : nat) (c : ascii) : bool :=
  ((lo <=? nat_of_ascii c) && (nat_of_ascii c <=? hi))%nat.

(** The characters that [encodeURIComponent] leaves as they are:
    letters, digits, and the marks - _ . ! ~ * ' ( ) *)
Definition marks : list ascii :=
  map ascii_of_nat [45; 95; 46; 33; 126; 42; 39; 40; 41]%nat.

Definition is_unreserved (c : ascii) : bool :=
  between 65 90 c || between 97 122 c || between 48 57 c
  || existsb (Ascii.eqb c) marks.

Definition hex_digit (n : nat) : ascii :=
  nth n (Js.chars "0123456789ABCDEF") Js.zero_digit.

Definition percent (byte : nat) : string :=
  String (ascii_of_nat 37)
    (String (hex_digit (byte / 16))
       (String (hex_digit (byte mod 16)) EmptyString)).

(** One code unit below 256: itself when unreserved, else the
    escapes of the one or two bytes of its UTF-8 form. *)
Definition encode_unit (c : ascii) : string :=
  let n := nat_of_ascii c in
  if is_unreserved c then String c EmptyString
  else if (n <? 128)%nat then percent n
  else (percent (192 + n / 64) ++ percent (128 + n mod 64))%string.

Fixpoint encodeURIComponent (s : string) : string :=
  match s with
  | EmptyString => EmptyString
  | String c rest => (encode_unit c ++ encodeURIComponent rest)%string
  end.

Definition apostrophe : ascii := ascii_of_nat 39.

(** How many times a character occurs in a string. *)
Definition occurrences (c : ascii) (s : string) : nat :=
  count_occ ascii_dec (Js.chars s) c.

End Uri.

(** The URL of [getNodeByPath] *)
Definition encodedPath (path : string) : string :=
  String.concat "/" (map Uri.encodeURIComponent (Js.split Js.slash path)).

Definition nodeByPathUrl (path : string) : string :=
  ("/nodes/-root-?relativePath=" ++ encodedPath path)%string.

(** The URL of [nodeExists] *)
Definition childrenUrl (parentId name : string) : string :=
  ("/nodes/" ++ parentId ++ "/children?where=(name='"
     ++ Uri.encodeURIComponent name ++ "')")%string.

(* ================================================================== *)
(** * More worked cases *)
(* ================================================================== *)

Module Samples.
Import Bench.

(** A configuration whose batch size is zero. *)
Definition stuckConfig : Config :=
  {| basePath := "/Company Home/Marketo Emails";
     lookbackDays := 90;
     batchSize := 0 |}.

(** A source that lists nothing. *)
Definition quietStore : Store :=
  {| pages := [Examples.lastPage []];
     contents := [];
     nodes := [Examples.companyHome; Examples.archiveRoot];
     writable := true;
     latency := 7 |}.

(** A repository whose marker file holds something that is not a
    date. *)
Definition staleMarker : AlfrescoNode :=
  {| node_id := "marker"; node_name := ".sync-state.json";
     node_isFolder := false; node_parentId := Some "archive";
     node_properties := Some [("mkto:lastSyncTimestamp", Js.VString "yesterday")] |}.

Definition corruptStore : Store :=
  {| pages := [Examples.lastPage [Examples.campaign]];
     contents := [(123, Examples.body)];
     nodes := [Examples.companyHome; Examples.archiveRoot; staleMarker];
     writable := true;
     latency := 7 |}.

(** A repository in which the base path does not exist. *)
Definition rootlessStore : Store :=
  {| pages := [Examples.lastPage [Examples.campaign; Examples.loose]];
     contents := [(123, Examples.body); (6, Examples.body)];
     nodes := [Examples.companyHome];
     writable := true;
     latency := 7 |}.

(** An environment with a batch size of minus five and no lookback. *)
Definition env : Settings.Env :=
  fun name =>
    if String.eqb name "SYNC_BATCH_SIZE" then Some "-5 items"
    else if String.eqb name "SYNC_LOOKBACK_DAYS" then None
    else if String.eqb name "ALFRESCO_BASE_PATH" then Some ""
    else Some "set".

(** An identity service whose tokens live ten minutes, and an export
    job that stays in processing. *)
Definition slowJob : Bulk Store :=
  {| marketo_token s :=
       (inr {| access_token := "token"; expires_in := 600 |}, s, latency s);
     marketo_exportStatus id s :=
       (inr {| single_success := true;
               single_result :=
                 Some [{| exportId := id; job_status := Processing |}] |},
        s, latency s) |}.

Definition noSession : Session :=
  {| accessToken := None; tokenExpiresAt := 0 |}.

(** An environment that sets the batch size to zero. *)
Definition zeroBatch : Settings.Env :=
  fun name =>
    if String.eqb name "SYNC_BATCH_SIZE" then Some "0"
    else if String.eqb name "SYNC_LOOKBACK_DAYS" then None
    else Some "set".

End Samples.

(* ================================================================== *)
(** * Reasoning about the monad *)
(* ================================================================== *)

Section MonadFacts.
Context {E : Type}.

Lemma bind_returned_inv (A B : Type) (m : M E A) (k : A -> M E B) w b w' :
  bind m k w = (Returned b, w') ->
  exists a w1, m w = (Returned a, w1) /\ k a w1 = (Returned b, w').
Proof.
  unfold bind. destruct (m w) as [[a | e |] w1]; intros H; try discriminate.
  exists a, w1. split; [reflexivity | exact H].
Qed.

Lemma bind_returned (A B : Type) (m : M E A) (k : A -> M E B) w a w1 :
  m w = (Returned a, w1) -> bind m k w = k a w1.
Proof. unfold bind. intros ->. reflexivity. Qed.

Lemma bind_thrown (A B : Type) (m : M E A) (k : A -> M E B) w e w1 :
  m w = (Thrown e, w1) -> bind m k w = (Thrown e, w1).
Proof. unfold bind. intros ->. reflexivity. Qed.

Lemma bind_assoc (A B C : Type) (m : M E A) (k : A -> M E B)
      (h : B -> M E C) w :
  bind (bind m k) h w = bind m (fun a => bind (k a) h) w.
Proof.
  unfold bind. destruct (m w) as [[a | e |] w1]; reflexivity.
Qed.

Lemma bind_ext (A B : Type) (m : M E A) (k k' : A -> M E B) w :
  (forall a w1, k a w1 = k' a w1) -> bind m k w = bind m k' w.
Proof.
  intros H. unfold bind. destruct (m w) as [[a | e |] w1]; auto.
Qed.

Lemma try_catch_returned (A : Type) (m : M E A) h w a w1 :
  m w = (Returned a, w1) -> try_catch m h w = (Returned a, w1).
Proof. unfold try_catch. intros ->. reflexivity. Qed.

Lemma try_catch_thrown (A : Type) (m : M E A) h w e w1 :
  m w = (Thrown e, w1) -> try_catch m h w = h e w1.
Proof. unfold try_catch. intros ->. reflexivity. Qed.

Lemma try_catch_returned_inv (A : Type) (m : M E A) h w a w' :
  try_catch m h w = (Returned a, w') ->
  m w = (Returned a, w') \/
  exists e w1, m w = (Thrown e, w1) /\ h e w1 = (Returned a, w').
Proof.
  unfold try_catch. destruct (m w) as [[x | e |] w1]; intros H.
  - left. exact H.
  - right. exists e, w1. split; [reflexivity | exact H].
  - discriminate.
Qed.

Lemma total_halts (A : Type) (m : M E A) : Total m -> Halts m.
Proof. intros T w. destruct (T w) as (a & w' & ->). discriminate. Qed.

Lemma halts_ret (A : Type) (a : A) : Halts (ret (E := E) a).
Proof. intros w. discriminate. Qed.

Lemma halts_throw (A : Type) e : Halts (throw (E := E) (A := A) e).
Proof. intros w. discriminate. Qed.

Lemma halts_bind (A B : Type) (m : M E A) (k : A -> M E B) :
  Halts m -> (forall a, Halts (k a)) -> Halts (bind m k).
Proof.
  intros Hm Hk w. unfold bind. specialize (Hm w).
  destruct (m w) as [[a | e |] w1]; simpl in *.
  - apply Hk.
  - discriminate.
  - congruence.
Qed.

Lemma halts_try_catch (A : Type) (m : M E A) h :
  Halts m -> (forall e, Halts (h e)) -> Halts (try_catch m h).
Proof.
  intros Hm Hh w. unfold try_catch. specialize (Hm w).
  destruct (m w) as [[a | e |] w1]; simpl in *.
  - discriminate.
  - apply Hh.
  - congruence.
Qed.

Lemma halts_perform (A : Type) c (p : E -> Reply E A) : Halts (perform c p).
Proof.
  intros w. unfold perform.
  destruct (p (remote w)) as [[[err | a] e] dt]; discriminate.
Qed.

Lemma total_ret (A : Type) (a : A) : Total (ret (E := E) a).
Proof. intros w. exists a, w. reflexivity. Qed.

Lemma total_bind (A B : Type) (m : M E A) (k : A -> M E B) :
  Total m -> (forall a, Total (k a)) -> Total (bind m k).
Proof.
  intros Hm Hk w. destruct (Hm w) as (a & w1 & Hw).
  erewrite bind_returned by exact Hw. apply Hk.
Qed.

(** A [try] whose body halts and whose handler returns always
    returns: nothing escapes it. *)
Lemma total_try_catch (A : Type) (m : M E A) h :
  Halts m -> (forall e, Total (h e)) -> Total (try_catch m h).
Proof.
  intros Hm Hh w. unfold try_catch. specialize (Hm w).
  destruct (m w) as [[a | e |] w1]; simpl in *.
  - exists a, w1. reflexivity.
  - apply Hh.
  - congruence.
Qed.

Lemma total_now : Total (now (E := E)).
Proof. intros w. exists (clock w), w. reflexivity. Qed.

Lemma total_setTimeout `{Remote E} ms : Total (setTimeout ms).
Proof.
  intros w. unfold setTimeout. destruct (timer_lag (remote w)) as [e lag].
  eexists _, _. reflexivity.
Qed.

End MonadFacts.

Create HintDb engine.

#[local] Hint Resolve halts_ret halts_throw halts_perform total_halts
  total_ret total_now total_setTimeout : engine.

(* ================================================================== *)
(** * The clients never hang, and some of their methods never throw *)
(* ================================================================== *)

Section ClientFacts.
Context {P : Platform} {E : Type} {R : Remote E}.
Variable config : Config.

Lemma halts_getNodeByPath path : Halts (getNodeByPath path).
Proof.
  unfold getNodeByPath. apply halts_try_catch.
  - apply halts_bind; auto with engine.
  - intros e. destruct (isNotFoundError e); auto with engine.
Qed.

Lemma halts_ensureFolderPath_loop parts :
  forall currentPath currentNode,
    Halts (ensureFolderPath_loop parts currentPath currentNode).
Proof.
  induction parts as [| part rest IH]; intros currentPath currentNode; simpl.
  - auto with engine.
  - apply halts_bind; [apply halts_getNodeByPath |].
    intros found. apply halts_bind.
    + destruct found; unfold createFolder; auto with engine.
    + intros n. apply IH.
Qed.

Lemma halts_ensureFolderPath path : Halts (ensureFolderPath config path).
Proof.
  unfold ensureFolderPath. apply halts_bind; [apply halts_getNodeByPath |].
  intros [root |]; [apply halts_ensureFolderPath_loop | auto with engine].
Qed.

Lemma halts_getRootNodeId : Halts (getRootNodeId config).
Proof.
  unfold getRootNodeId. apply halts_bind; [apply halts_getNodeByPath |].
  intros [n |]; auto with engine.
Qed.

Lemma halts_uploadFile parentId fileName content options :
  Halts (uploadFile parentId fileName content options).
Proof. unfold uploadFile. auto with engine. Qed.

Lemma total_nodeExists parentId name : Total (nodeExists parentId name).
Proof.
  unfold nodeExists. apply total_try_catch.
  - apply halts_bind; [auto with engine |].
    intros [| entry rest]; auto with engine.
  - intros e. auto with engine.
Qed.

Lemma halts_getEmailById id : Halts (getEmailById id).
Proof. unfold getEmailById. apply halts_bind; auto with engine. Qed.

Lemma total_getEmailContent id : Total (getEmailContent id).
Proof.
  unfold getEmailContent. apply total_try_catch.
  - apply halts_bind; [auto with engine |].
    intros response. destruct (first_result response).
    + apply halts_bind; [apply halts_getEmailById | auto with engine].
    + auto with engine.
  - intros e. auto with engine.
Qed.

Lemma total_loadSyncState : Total (loadSyncState config).
Proof.
  unfold loadSyncState. apply total_try_catch.
  - apply halts_bind; [apply halts_getRootNodeId |].
    intros rootNode. apply halts_bind; [apply total_halts, total_nodeExists |].
    intros [n |]; [| auto with engine].
    destruct (node_properties n); [| auto with engine].
    destruct (Js.value_truthy _); auto with engine.
  - intros e. auto with engine.
Qed.

Lemma total_saveSyncState timestamp : Total (saveSyncState config timestamp).
Proof.
  unfold saveSyncState. apply total_try_catch.
  - apply halts_bind; [apply halts_getRootNodeId |].
    intros rootNode. apply halts_bind; [apply total_halts, total_nodeExists |].
    intros [n |]; (apply halts_bind; [| auto with engine]).
    + unfold updateNodeProperties. auto with engine.
    + apply halts_uploadFile.
  - intros e. auto with engine.
Qed.

Lemma total_processEmail email : Total (processEmail config email).
Proof.
  unfold processEmail. apply total_try_catch.
  - apply halts_bind; [apply total_halts, total_getEmailContent |].
    intros content.
    destruct content as [c |]; [| auto with engine].
    destruct (usableHtml (Some c)) as [html |]; [| auto with engine].
    destruct (toPathFormat _) as [[year month] |]; [| auto with engine].
    apply halts_bind; [apply halts_ensureFolderPath |].
    intros folderNode.
    apply halts_bind; [apply total_halts, total_nodeExists |].
    intros [existing |]; [auto with engine |].
    apply halts_bind; [auto with engine |]. intros syncedAt.
    apply halts_bind; [apply halts_uploadFile |]. intros htmlNode.
    apply halts_bind; [apply halts_uploadFile | auto with engine].
  - intros e. auto with engine.
Qed.

Lemma total_processItems batch :
  forall acc, Total (processItems config batch acc).
Proof.
  induction batch as [| email rest IH]; intros acc; simpl.
  - auto with engine.
  - apply total_bind; [apply total_processEmail |].
    intros result. apply total_bind; [auto with engine |].
    intros _. apply IH.
Qed.

End ClientFacts.

Section BatchFacts.
Context {P : Platform} {E : Type} {R : Remote E}.
Variable config : Config.

Ltac step H :=
  let a := fresh "a" in
  let w := fresh "w" in
  let H1 := fresh "H" in
  apply bind_returned_inv in H; destruct H as (a & w & H1 & H).

Lemma ret_inv (A : Type) (a b : A) (w w' : World E) :
  ret a w = (Returned b, w') -> a = b /\ w = w'.
Proof. unfold ret. intros H. inversion H. auto. Qed.

(** Every successful result of [processEmail] carries a node. *)
Lemma processEmail_success_node email w result w' :
  processEmail config email w = (Returned result, w') ->
  success result = true -> exists n, node result = Some n.
Proof.
  unfold processEmail. intros H Hs.
  apply try_catch_returned_inv in H. destruct H as [H | (e & w1 & _ & H)].
  - step H.
    destruct a as [c |];
      [| apply ret_inv in H; destruct H; subst; discriminate].
    destruct (usableHtml (Some c)) as [html |];
      [| apply ret_inv in H; destruct H; subst; discriminate].
    destruct (toPathFormat _) as [[year month] |]; [| discriminate].
    step H. step H.
    destruct a0 as [existing |].
    + apply ret_inv in H. destruct H; subst. eexists. reflexivity.
    + step H. step H. step H.
      apply ret_inv in H. destruct H; subst. eexists. reflexivity.
  - apply ret_inv in H. destruct H; subst. discriminate.
Qed.

Lemma processItems_app l1 : forall l2 acc w,
  processItems config (l1 ++ l2) acc w =
  bind (processItems config l1 acc) (processItems config l2) w.
Proof.
  induction l1 as [| email rest IH]; intros l2 acc w; simpl.
  - reflexivity.
  - rewrite bind_assoc. apply bind_ext. intros result w1.
    rewrite bind_assoc. apply bind_ext. intros _ w2.
    apply IH.
Qed.

(** The inner loop is the item-by-item visit, and its counters are the
    tally of the results. *)
Lemma processItems_visits batch : forall acc w,
  exists results w',
    Visits config batch w results w' /\
    processItems config batch acc w =
      (Returned (tally acc batch results), w').
Proof.
  induction batch as [| email rest IH]; intros acc w; simpl.
  - exists [], w. split; [constructor | reflexivity].
  - destruct (total_processEmail config email w) as (r & w1 & Hr).
    destruct (total_setTimeout 100 w1) as ([] & w2 & Ht).
    destruct (IH (classify acc email r) w2) as (results & w' & Hv & Hp).
    exists (r :: results), w'. split.
    + econstructor; eassumption.
    + erewrite bind_returned by exact Hr.
      erewrite bind_returned by exact Ht. exact Hp.
Qed.

Lemma Visits_length emails w results w' :
  Visits config emails w results w' ->
  List.length results = List.length emails.
Proof. induction 1; simpl; congruence. Qed.

Lemma Visits_nodes emails w results w' :
  Visits config emails w results w' ->
  Forall (fun r => success r = true -> exists n, node r = Some n) results.
Proof.
  induction 1; constructor; auto.
  intros Hs. eapply processEmail_success_node; eassumption.
Qed.

Lemma Visits_functional emails w results w' :
  Visits config emails w results w' ->
  forall results2 w2,
    Visits config emails w results2 w2 -> results2 = results /\ w2 = w'.
Proof.
  induction 1 as [| email rest w r w1 w2 results w' Hp Ht Hv IH];
    intros results2 w3 H2; inversion H2; subst.
  - auto.
  - match goal with
    | Hq : processEmail _ _ _ = (Returned ?r2, ?wa),
      Hs : setTimeout _ ?wa = (_, ?wb),
      Hr : Visits _ _ ?wb ?rs _ |- _ =>
        rewrite Hp in Hq; inversion Hq; subst;
        rewrite Ht in Hs; inversion Hs; subst;
        destruct (IH _ _ Hr); subst; auto
    end.
Qed.

(** ** The counters of a tally *)

Lemma tally_counts emails : forall results acc,
  List.length results = List.length emails ->
  Forall (fun r => success r = true -> exists n, node r = Some n) results ->
  let b := tally acc emails results in
  failed b = failed acc + Z.of_nat (List.length (failures emails results)) /\
  failedIds b = failedIds acc ++ map email_id (failures emails results) /\
  skipped b = skipped acc /\
  counted b = counted acc + Z.of_nat (List.length emails).
Proof.
  induction emails as [| email rest IH]; intros [| r results] acc Hl Hn;
    simpl in Hl; try discriminate.
  - simpl. rewrite app_nil_r. unfold counted. repeat split; lia.
  - inversion Hn as [| ? ? Hr Hrest]; subst.
    injection Hl as Hl.
    specialize (IH results (classify acc email r) Hl Hrest).
    cbv zeta in IH. destruct IH as (Hf & Hi & Hs & Hc).
    cbn [tally failures]. cbv zeta.
    rewrite Hf, Hi, Hs, Hc. clear Hf Hi Hs Hc.
    unfold classify, counted. destruct (success r) eqn:Hsucc.
    + destruct (Hr eq_refl) as (n & ->). cbn [processed failed skipped failedIds].
      repeat split; try reflexivity; try lia.
      cbn [List.length]. lia.
    + cbn [processed failed skipped failedIds List.length map].
      rewrite <- app_assoc. cbn [List.app].
      repeat split; try reflexivity; lia.
Qed.

End BatchFacts.

Section BatchLoop.
Context {P : Platform} {E : Type} {R : Remote E}.
Variable config : Config.

Lemma slice_window (A : Type) (l : list A) i b :
  0 <= i < Z.of_nat (List.length l) -> 0 < b ->
  Js.slice l i (i + b) = firstn (Z.to_nat b) (skipn (Z.to_nat i) l).
Proof.
  intros Hi Hb. unfold Js.slice, Js.clamp_index.
  destruct (i <? 0) eqn:Hneg; [apply Z.ltb_lt in Hneg; lia |].
  destruct (i + b <? 0) eqn:Hneg2; [apply Z.ltb_lt in Hneg2; lia |].
  rewrite (Z.min_l i) by lia.
  destruct (Z.le_gt_cases (i + b) (Z.of_nat (List.length l))) as [Hfit | Hover].
  - rewrite Z.min_l by lia. f_equal. lia.
  - rewrite Z.min_r by lia.
    rewrite !firstn_all2; [reflexivity | |]; rewrite length_skipn; lia.
Qed.

Lemma processBatch_loop_unfold fuel emails b i acc :
  processBatch_loop config fuel emails b i acc =
  if i <? Z.of_nat (List.length emails) then
    match fuel with
    | O => diverge
    | S fuel' =>
        bind (processItems config (Js.slice emails i (i + b)) acc)
             (processBatch_loop config fuel' emails b (i + b))
    end
  else ret acc.
Proof. destruct fuel; reflexivity. Qed.

(** With a positive batch size, slicing changes nothing: the loop is
    the item-by-item visit of what is left of the list. *)
Lemma processBatch_loop_sequential emails b :
  0 < b ->
  forall fuel i acc w,
    0 <= i ->
    Z.of_nat (List.length emails) - i <= Z.of_nat fuel ->
    processBatch_loop config fuel emails b i acc w =
    processItems config (skipn (Z.to_nat i) emails) acc w.
Proof.
  intros Hb. induction fuel as [| fuel IH]; intros i acc w Hi Hfuel;
    rewrite processBatch_loop_unfold;
    destruct (i <? Z.of_nat (List.length emails)) eqn:Hlt.
  - apply Z.ltb_lt in Hlt. lia.
  - apply Z.ltb_ge in Hlt. rewrite skipn_all2 by lia. reflexivity.
  - apply Z.ltb_lt in Hlt.
    rewrite slice_window by lia.
    rewrite <- (firstn_skipn (Z.to_nat b) (skipn (Z.to_nat i) emails)) at 2.
    rewrite processItems_app. apply bind_ext. intros acc' w1.
    rewrite IH by lia. rewrite skipn_skipn. do 2 f_equal. lia.
  - apply Z.ltb_ge in Hlt. rewrite skipn_all2 by lia. reflexivity.
Qed.

Lemma processBatch_sequential emails b w :
  0 < b ->
  processBatch config emails b w = processItems config emails emptyBatch w.
Proof.
  intros Hb. unfold processBatch.
  rewrite processBatch_loop_sequential by lia. reflexivity.
Qed.

(** With a zero or negative batch size the index never passes the
    length of a non-empty list. *)
Lemma processBatch_loop_stuck emails b :
  b <= 0 -> emails <> [] ->
  forall fuel i acc w,
    i <= 0 -> fst (processBatch_loop config fuel emails b i acc w) = Diverged.
Proof.
  intros Hb Hne. induction fuel as [| fuel IH]; intros i acc w Hi;
    rewrite processBatch_loop_unfold;
    (destruct (i <? Z.of_nat (List.length emails)) eqn:Hlt;
     [| apply Z.ltb_ge in Hlt; destruct emails; [congruence | simpl in Hlt; lia]]).
  - reflexivity.
  - destruct (total_processItems config (Js.slice emails i (i + b)) acc w)
      as (acc' & w1 & Hrun).
    erewrite bind_returned by exact Hrun. apply IH. lia.
Qed.

Lemma processBatch_returned_inv emails b w result w' :
  processBatch config emails b w = (Returned result, w') ->
  processItems config emails emptyBatch w = (Returned result, w').
Proof.
  intros H. destruct (Z.lt_ge_cases 0 b) as [Hb | Hb].
  - rewrite processBatch_sequential in H by assumption. exact H.
  - destruct emails as [| email rest].
    + exact H.
    + unfold processBatch in H.
      pose proof (@processBatch_loop_stuck (email :: rest) b Hb
                    ltac:(discriminate)
                    (List.length (email :: rest)) 0 emptyBatch w
                    (Z.le_refl 0)) as Hstuck.
      rewrite H in Hstuck. discriminate.
Qed.

End BatchLoop.

(* ================================================================== *)
(** * The batch runner and the counters of a run *)
(* ================================================================== *)

Section RunFacts.
Context {P : Platform} {E : Type} {R : Remote E}.
Variable config : Config.

Lemma processBatch_returned_spec emails b w result w' :
  processBatch config emails b w = (Returned result, w') ->
  exists results,
    Visits config emails w results w' /\
    result = tally emptyBatch emails results.
Proof.
  intros H. apply processBatch_returned_inv in H.
  destruct (processItems_visits config emails emptyBatch w)
    as (results & w2 & Hv & Hp).
  rewrite Hp in H. inversion H; subst. exists results. auto.
Qed.

(** What a run that returns went through. *)
Lemma sync_returned_inv fuel w r w' :
  sync config fuel w = (Returned r, w') ->
  exists emails w1,
    fetchCandidates config fuel w = (Returned emails, w1) /\
    totalEmails r = Z.of_nat (List.length emails) /\
    startTime r = clock w /\
    endTime r = clock w' /\
    ((emails = [] /\ w' = w1 /\
      processedEmails r = 0 /\ failedEmails r = 0 /\
      skippedEmails r = 0 /\ failedEmailIds r = []) \/
     (emails <> [] /\
      exists b w2,
        processBatch config emails (batchSize config) w1 = (Returned b, w2) /\
        saveSyncState config (Date_toISOString (clock w)) w2 =
          (Returned tt, w') /\
        processedEmails r = processed b /\ failedEmails r = failed b /\
        skippedEmails r = skipped b /\ failedEmailIds r = failedIds b)).
Proof.
  unfold sync. intros H.
  apply bind_returned_inv in H. destruct H as (start & w0 & Hnow & H).
  unfold now in Hnow. inversion Hnow; subst start w0. clear Hnow.
  apply try_catch_returned_inv in H.
  destruct H as [H | (e & w1 & _ & H)];
    [| apply bind_returned_inv in H; destruct H as (? & ? & _ & H);
       discriminate].
  apply bind_returned_inv in H. destruct H as (emails & w1 & Hfetch & H).
  exists emails, w1. destruct emails as [| email rest].
  - apply bind_returned_inv in H. destruct H as (finish & w2 & Hnow & H).
    unfold now in Hnow. inversion Hnow; subst. unfold ret in H.
    injection H as Hr Hw. subst r w'. simpl.
    split; [exact Hfetch |]. repeat split; try reflexivity.
    left. repeat split; reflexivity.
  - apply bind_returned_inv in H. destruct H as (b & w2 & Hbatch & H).
    apply bind_returned_inv in H. destruct H as (ts & w3 & Hts & H).
    simpl in Hts. unfold ret in Hts. inversion Hts; subst ts w3. clear Hts.
    apply bind_returned_inv in H. destruct H as ([] & w4 & Hsave & H).
    apply bind_returned_inv in H. destruct H as (finish & w5 & Hnow & H).
    unfold now in Hnow. inversion Hnow; subst. unfold ret in H.
    injection H as Hr Hw. subst r w'.
    cbn [totalEmails startTime endTime processedEmails
         failedEmails skippedEmails failedEmailIds].
    split; [exact Hfetch |].
    split; [reflexivity |]. split; [reflexivity |]. split; [reflexivity |].
    right. split; [discriminate |]. exists b, w2.
    repeat split; solve [assumption | reflexivity].
Qed.

(** C3.  With a positive batch size, whatever the remote systems
    answer, the batch loop hands every one of the N candidates to
    [processEmail], in order, and returns; the failed count is the
    number K of candidates whose materialization failed, [failedIds]
    lists exactly their ids, and the other N - K are counted as
    processed: no failure stops the loop. *)
Theorem batch_contains_failures emails b w :
  0 < b ->
  exists results result w',
    processBatch config emails b w = (Returned result, w') /\
    Visits config emails w results w' /\
    List.length results = List.length emails /\
    failed result = Z.of_nat (List.length (failures emails results)) /\
    failedIds result = map email_id (failures emails results) /\
    processed result =
      Z.of_nat (List.length emails)
      - Z.of_nat (List.length (failures emails results)).
Proof.
  intros Hb.
  destruct (processItems_visits config emails emptyBatch w)
    as (results & w' & Hv & Hp).
  exists results, (tally emptyBatch emails results), w'.
  rewrite processBatch_sequential by assumption.
  pose proof (Visits_length Hv) as Hl.
  destruct (@tally_counts emails results emptyBatch Hl (Visits_nodes Hv))
    as (Hf & Hi & Hs & Hc).
  unfold counted in Hc. simpl in Hf, Hi, Hs, Hc.
  repeat split; auto. lia.
Qed.

(** C6.  The counters of every result that [sync] returns add up:
    the total is the sum of processed, failed and skipped. *)
Theorem sync_counters_add_up fuel w r w' :
  sync config fuel w = (Returned r, w') ->
  totalEmails r = processedEmails r + failedEmails r + skippedEmails r.
Proof.
  intros H. apply sync_returned_inv in H.
  destruct H as (emails & w1 & _ & Ht & _ & _ & [H | H]).
  - destruct H as (-> & _ & -> & -> & -> & _). rewrite Ht. reflexivity.
  - destruct H as (_ & b & w2 & Hb & _ & -> & -> & -> & _).
    apply processBatch_returned_spec in Hb.
    destruct Hb as (results & Hv & ->).
    destruct (@tally_counts emails results emptyBatch (Visits_length Hv)
                           (Visits_nodes Hv)) as (_ & _ & _ & Hc).
    unfold counted in Hc. simpl in Hc. lia.
Qed.

(** C10.  The skipped counter of every result that [sync] returns is
    0: a successful [processEmail] always carries a node, the found
    one or the uploaded one, so the classifier never takes its
    skipped branch and counts such a result as processed. *)
Theorem sync_never_skips fuel w r w' :
  sync config fuel w = (Returned r, w') ->
  skippedEmails r = 0 /\
  (forall email w0 result w1,
      processEmail config email w0 = (Returned result, w1) ->
      success result = true -> exists n, node result = Some n) /\
  (forall acc email result n,
      success result = true -> node result = Some n ->
      processed (classify acc email result) = processed acc + 1 /\
      skipped (classify acc email result) = skipped acc).
Proof.
  intros H. split; [| split].
  - apply sync_returned_inv in H.
    destruct H as (emails & w1 & _ & _ & _ & _ & [H | H]).
    + destruct H as (_ & _ & _ & _ & -> & _). reflexivity.
    + destruct H as (_ & b & w2 & Hb & _ & _ & _ & -> & _).
      apply processBatch_returned_spec in Hb.
      destruct Hb as (results & Hv & ->).
      destruct (@tally_counts emails results emptyBatch (Visits_length Hv)
                             (Visits_nodes Hv)) as (_ & _ & Hs & _).
      exact Hs.
  - intros email w0 result w1. apply processEmail_success_node.
  - intros acc email result n Hs Hn. unfold classify. rewrite Hs, Hn.
    split; reflexivity.
Qed.

End RunFacts.

(* ================================================================== *)
(** * The clock and the log of requests *)
(* ================================================================== *)

Section Evolution.
Context {E : Type}.

Lemma extends_refl ok (w : World E) : Extends ok w w.
Proof.
  split; [lia |]. exists []. rewrite app_nil_r. split; [reflexivity | constructor].
Qed.

Lemma extends_trans ok (w1 w2 w3 : World E) :
  Extends ok w1 w2 -> Extends ok w2 w3 -> Extends ok w1 w3.
Proof.
  intros (Hc1 & d1 & Hs1 & Hd1) (Hc2 & d2 & Hs2 & Hd2).
  split; [lia |]. exists (d1 ++ d2). split.
  - rewrite Hs2, Hs1, app_assoc. reflexivity.
  - apply Forall_app. auto.
Qed.

Lemma keeps_ret ok (A : Type) (a : A) : Keeps ok (ret (E := E) a).
Proof. intros w. apply extends_refl. Qed.

Lemma keeps_throw ok (A : Type) e : Keeps ok (throw (E := E) (A := A) e).
Proof. intros w. apply extends_refl. Qed.

Lemma keeps_diverge ok (A : Type) : Keeps ok (diverge (E := E) (A := A)).
Proof. intros w. apply extends_refl. Qed.

Lemma keeps_now ok : Keeps ok (now (E := E)).
Proof. intros w. apply extends_refl. Qed.

Lemma keeps_bind ok (A B : Type) (m : M E A) (k : A -> M E B) :
  Keeps ok m -> (forall a, Keeps ok (k a)) -> Keeps ok (bind m k).
Proof.
  intros Hm Hk w. unfold bind. specialize (Hm w).
  destruct (m w) as [[a | e |] w1]; simpl in *; auto.
  eapply extends_trans; [exact Hm | apply Hk].
Qed.

Lemma keeps_try_catch ok (A : Type) (m : M E A) h :
  Keeps ok m -> (forall e, Keeps ok (h e)) -> Keeps ok (try_catch m h).
Proof.
  intros Hm Hh w. unfold try_catch. specialize (Hm w).
  destruct (m w) as [[a | e |] w1]; simpl in *; auto.
  eapply extends_trans; [exact Hm | apply Hh].
Qed.

Lemma keeps_perform (ok : Call -> Prop) (A : Type) c (p : E -> Reply E A) :
  ok c -> Keeps ok (perform c p).
Proof.
  intros Hc w. unfold perform.
  destruct (p (remote w)) as [[r e] dt]. unfold Extends. cbn [snd clock sent].
  pose proof (N2Z.is_nonneg dt). split; [lia |].
  exists [c]. split; [reflexivity | repeat constructor; exact Hc].
Qed.

Lemma keeps_setTimeout `{Remote E} ok ms : 0 <= ms -> Keeps ok (setTimeout ms).
Proof.
  intros Hms w. unfold setTimeout.
  destruct (timer_lag (remote w)) as [e lag]. unfold Extends.
  cbn [snd clock sent].
  pose proof (N2Z.is_nonneg lag). split; [lia |].
  exists []. rewrite app_nil_r. split; [reflexivity | constructor].
Qed.

Lemma setTimeout_clock `{Remote E} ms w u w' :
  setTimeout ms w = (u, w') ->
  clock w + ms <= clock w' /\ sent w' = sent w.
Proof.
  unfold setTimeout. destruct (timer_lag (remote w)) as [e lag].
  intros H0. inversion H0; subst. cbn [clock sent].
  pose proof (N2Z.is_nonneg lag). split; [lia | reflexivity].
Qed.

End Evolution.

#[local] Hint Resolve keeps_ret keeps_throw keeps_diverge keeps_now : engine.

Section QuietFacts.
Context {P : Platform} {E : Type} {R : Remote E}.
Variable config : Config.

Ltac quiet_call := apply keeps_perform; reflexivity.

Lemma quiet_getNodeByPath path : Keeps quiet (getNodeByPath (E := E) path).
Proof.
  unfold getNodeByPath. apply keeps_try_catch.
  - apply keeps_bind; [quiet_call | auto with engine].
  - intros e. destruct (isNotFoundError e); auto with engine.
Qed.

Lemma quiet_ensureFolderPath_loop parts : forall currentPath currentNode,
  Keeps quiet (ensureFolderPath_loop (E := E) parts currentPath currentNode).
Proof.
  induction parts as [| part rest IH]; intros currentPath currentNode; simpl.
  - auto with engine.
  - apply keeps_bind; [apply quiet_getNodeByPath |].
    intros found. apply keeps_bind.
    + destruct found; [auto with engine | unfold createFolder; quiet_call].
    + intros n. apply IH.
Qed.

Lemma quiet_ensureFolderPath path :
  Keeps quiet (ensureFolderPath (E := E) config path).
Proof.
  unfold ensureFolderPath. apply keeps_bind; [apply quiet_getNodeByPath |].
  intros [root |]; [apply quiet_ensureFolderPath_loop | auto with engine].
Qed.

Lemma quiet_getRootNodeId : Keeps quiet (getRootNodeId (E := E) config).
Proof.
  unfold getRootNodeId. apply keeps_bind; [apply quiet_getNodeByPath |].
  intros [n |]; auto with engine.
Qed.

Lemma quiet_nodeExists parentId name :
  Keeps quiet (nodeExists (E := E) parentId name).
Proof.
  unfold nodeExists. apply keeps_try_catch.
  - apply keeps_bind; [quiet_call |].
    intros [| entry rest]; auto with engine.
  - intros e. auto with engine.
Qed.

Lemma quiet_getEmailContent id : Keeps quiet (getEmailContent (E := E) id).
Proof.
  unfold getEmailContent. apply keeps_try_catch.
  - apply keeps_bind; [quiet_call |].
    intros response. destruct (first_result response); [| auto with engine].
    apply keeps_bind; [| auto with engine].
    unfold getEmailById. apply keeps_bind; [quiet_call | auto with engine].
  - intros e. auto with engine.
Qed.

Lemma quiet_processEmail email : Keeps quiet (processEmail config email).
Proof.
  unfold processEmail. apply keeps_try_catch; [| auto with engine].
  apply keeps_bind; [apply quiet_getEmailContent |].
  intros content.
  destruct content as [c |]; [| auto with engine].
  destruct (usableHtml (Some c)) as [html |]; [| auto with engine].
  destruct (toPathFormat _) as [[year month] |]; [| auto with engine].
  apply keeps_bind; [apply quiet_ensureFolderPath |].
  intros folderNode.
  apply keeps_bind; [apply quiet_nodeExists |].
  intros [existing |]; [auto with engine |].
  apply keeps_bind; [auto with engine |]. intros syncedAt.
  apply keeps_bind; [unfold uploadFile; quiet_call |]. intros htmlNode.
  apply keeps_bind; [unfold uploadFile; quiet_call | auto with engine].
Qed.

Lemma quiet_processItems batch : forall acc,
  Keeps quiet (processItems config batch acc).
Proof.
  induction batch as [| email rest IH]; intros acc; simpl.
  - auto with engine.
  - apply keeps_bind; [apply quiet_processEmail |].
    intros result. apply keeps_bind; [apply keeps_setTimeout; lia |].
    intros _. apply IH.
Qed.

Lemma quiet_loadSyncState : Keeps quiet (loadSyncState config).
Proof.
  unfold loadSyncState. apply keeps_try_catch; [| auto with engine].
  apply keeps_bind; [apply quiet_getRootNodeId |].
  intros rootNode. apply keeps_bind; [apply quiet_nodeExists |].
  intros [n |]; [| auto with engine].
  destruct (node_properties n); [| auto with engine].
  destruct (Js.value_truthy _); auto with engine.
Qed.

Lemma quiet_toISOString date : Keeps quiet (toISOString (E := E) date).
Proof. destruct date; simpl; auto with engine. Qed.

Lemma quiet_sinceDateOf st : Keeps quiet (sinceDateOf (E := E) config st).
Proof.
  unfold sinceDateOf. destruct (lastSyncTimestamp st).
  - apply keeps_bind; [apply quiet_toISOString | auto with engine].
  - apply keeps_bind.
    + unfold getDaysAgo. apply keeps_bind; auto with engine.
    + intros d. apply keeps_bind; [apply quiet_toISOString | auto with engine].
Qed.

Lemma quiet_getEmailsSince_loop fuel : forall since offset allEmails,
  Keeps quiet (getEmailsSince_loop (E := E) fuel since offset allEmails).
Proof.
  induction fuel as [| fuel IH]; intros since offset allEmails; simpl.
  - auto with engine.
  - apply keeps_bind; [unfold getEmails; quiet_call |].
    intros response.
    destruct (list_success response); [| auto with engine].
    destruct (list_result response); [| auto with engine].
    destruct (strictly_true _); [apply IH | auto with engine].
Qed.

Lemma quiet_fetchCandidates fuel : Keeps quiet (fetchCandidates config fuel).
Proof.
  unfold fetchCandidates. apply keeps_bind; [apply quiet_loadSyncState |].
  intros st. apply keeps_bind; [apply quiet_sinceDateOf |].
  intros since. unfold getEmailsSince.
  apply keeps_bind; [apply quiet_toISOString |].
  intros _. apply quiet_getEmailsSince_loop.
Qed.

(** A non-empty batch takes at least one pause. *)
Lemma processItems_pause email rest acc w b w' :
  processItems config (email :: rest) acc w = (Returned b, w') ->
  clock w + 100 <= clock w'.
Proof.
  simpl. intros H.
  apply bind_returned_inv in H. destruct H as (r & w1 & Hr & H).
  apply bind_returned_inv in H. destruct H as (u & w2 & Ht & H).
  pose proof (quiet_processEmail email w) as (Hc1 & _).
  rewrite Hr in Hc1. simpl in Hc1.
  apply setTimeout_clock in Ht. destruct Ht as (Hc2 & _).
  pose proof (quiet_processItems rest (classify acc email r) w2) as (Hc3 & _).
  rewrite H in Hc3. simpl in Hc3. lia.
Qed.

End QuietFacts.

(* ================================================================== *)
(** * Saving the marker *)
(* ================================================================== *)

Section MarkerFacts.
Context {P : Platform} {E : Type} {R : Remote E}.
Variable config : Config.

(** What [saveSyncState] sends: the lookup of the archive root and, if
    that succeeds, the search for the marker file followed by one
    write that carries the timestamp. *)
Lemma saveSyncState_log timestamp w :
  exists w',
    saveSyncState config timestamp w = (Returned tt, w') /\
    clock w <= clock w' /\
    (sent w' = sent w ++ [GetRelativePath (basePath config)] \/
     exists rootNode c,
       sent w' = sent w ++ [GetRelativePath (basePath config);
                            GetChildren rootNode stateFileName; c] /\
       marker_written c = Js.VString timestamp).
Proof.
  unfold saveSyncState, getRootNodeId, getNodeByPath, nodeExists,
    updateNodeProperties, uploadFile, try_catch, bind, perform, ret, throw.
  cbn [opt_name opt_properties].
  replace (Js.truthy stateFileName) with true by reflexivity.
  destruct (alfresco_relativePath (basePath config) (remote w))
    as [[[err | n] e1] d1]; cbn [remote clock sent];
    pose proof (N2Z.is_nonneg d1).
  - destruct (isNotFoundError err); eexists; (split; [reflexivity |]);
      cbn [clock sent]; (split; [lia | left; reflexivity]).
  - destruct (alfresco_children (node_id n) stateFileName e1)
      as [[[err | [| entry rest]] e2] d2]; cbn [remote clock sent];
      pose proof (N2Z.is_nonneg d2);
      lazymatch goal with
      | |- context [alfresco_postFile ?a ?b ?c ?d ?e ?f] =>
          destruct (alfresco_postFile a b c d e f) as [[[err3 | n3] e3] d3]
      | |- context [alfresco_putProperties ?a ?b ?c] =>
          destruct (alfresco_putProperties a b c) as [[[err3 | n3] e3] d3]
      end;
      pose proof (N2Z.is_nonneg d3);
      eexists; (split; [reflexivity |]); cbn [clock sent];
      (split; [lia |]); right; eexists _, _;
      rewrite <- !app_assoc; (split; reflexivity).
Qed.

(** The requests of [saveSyncState], told from what the repository
    answers: the lookup of the archive root; if that is answered with
    a node, the search for the marker file under it and then one
    write, an update of the properties of the marker file that the
    search found or else the upload of a new marker file. *)
Lemma saveSyncState_requests timestamp w :
  exists w',
    saveSyncState config timestamp w = (Returned tt, w') /\
    match alfresco_relativePath (basePath config) (remote w) with
    | (inl _, _, _) =>
        sent w' = sent w ++ [GetRelativePath (basePath config)]
    | (inr rootNode, e1, _) =>
        sent w' =
          sent w ++
          [GetRelativePath (basePath config);
           GetChildren (node_id rootNode) stateFileName;
           match alfresco_children (node_id rootNode) stateFileName e1 with
           | (inr (stateNode :: _), _, _) =>
               PutProperties (node_id stateNode)
                             [(stateProperty, Js.VString timestamp)]
           | _ =>
               PostFile (node_id rootNode) stateFileName stateFileName
                        (SyncStateJson timestamp)
                        [(stateProperty, Js.VString timestamp)]
           end]
    end.
Proof.
  unfold saveSyncState, getRootNodeId, getNodeByPath, nodeExists,
    updateNodeProperties, uploadFile, try_catch, bind, perform, ret, throw.
  cbn [opt_name opt_properties].
  replace (Js.truthy stateFileName) with true by reflexivity.
  destruct (alfresco_relativePath (basePath config) (remote w))
    as [[[err | n] e1] d1]; cbn [remote clock sent].
  - destruct (isNotFoundError err); eexists; (split; reflexivity).
  - destruct (alfresco_children (node_id n) stateFileName e1)
      as [[[err | [| entry rest]] e2] d2]; cbn [remote clock sent];
      lazymatch goal with
      | |- context [alfresco_postFile ?a ?b ?c ?d ?e ?f] =>
          destruct (alfresco_postFile a b c d e f) as [[[err3 | n3] e3] d3]
      | |- context [alfresco_putProperties ?a ?b ?c] =>
          destruct (alfresco_putProperties a b c) as [[[err3 | n3] e3] d3]
      end;
      eexists; (split; [reflexivity |]); cbn [sent];
      rewrite <- !app_assoc; reflexivity.
Qed.

(** C1.  In every run of [sync] that had candidates to process, the
    start instant is the clock read at the top of [sync], and the end
    instant is at least 100 ms later.  No request of the fetch or of
    the batch writes the marker property.  After the batch the run
    looks up the archive root and, when the repository answers with
    the root, searches the marker file and then sends one last
    request, which writes the marker: the update of the marker file
    found, or the upload of a new one, and in both the marker
    property is the start instant in ISO form.  When the lookup of the
    root is rejected that lookup is the last request, and nothing is
    written. *)
Theorem marker_is_start_instant fuel w r w' :
  sync config fuel w = (Returned r, w') ->
  0 < totalEmails r ->
  startTime r = clock w /\
  startTime r + 100 <= endTime r /\
  exists emails w1 b w2 before,
    fetchCandidates config fuel w = (Returned emails, w1) /\
    processBatch config emails (batchSize config) w1 = (Returned b, w2) /\
    sent w2 = sent w ++ before /\
    Forall (fun c => marker_written c = Js.VUndefined) before /\
    match alfresco_relativePath (basePath config) (remote w2) with
    | (inl _, _, _) =>
        sent w' = sent w2 ++ [GetRelativePath (basePath config)]
    | (inr rootNode, e1, _) =>
        sent w' =
          sent w2 ++
          [GetRelativePath (basePath config);
           GetChildren (node_id rootNode) stateFileName;
           match alfresco_children (node_id rootNode) stateFileName e1 with
           | (inr (stateNode :: _), _, _) =>
               PutProperties
                 (node_id stateNode)
                 [(stateProperty,
                   Js.VString (Date_toISOString (startTime r)))]
           | _ =>
               PostFile
                 (node_id rootNode) stateFileName stateFileName
                 (SyncStateJson (Date_toISOString (startTime r)))
                 [(stateProperty,
                   Js.VString (Date_toISOString (startTime r)))]
           end]
    end.
Proof.
  intros H Hpos. apply sync_returned_inv in H.
  destruct H as (emails & w1 & Hfetch & Ht & Hstart & Hend & [H | H]).
  { destruct H as (-> & _). simpl in Ht. lia. }
  destruct H as (Hne & b & w2 & Hbatch & Hsave & _).
  split; [exact Hstart |].
  pose proof Hbatch as Hb. apply processBatch_returned_inv in Hb.
  pose proof (quiet_fetchCandidates config fuel w) as (Hc1 & d1 & Hs1 & Hq1).
  rewrite Hfetch in Hc1, Hs1. simpl in Hc1, Hs1.
  pose proof (quiet_processItems config emails emptyBatch w1)
    as (Hc2 & d2 & Hs2 & Hq2).
  rewrite Hb in Hc2, Hs2. simpl in Hc2, Hs2.
  destruct (saveSyncState_log (Date_toISOString (clock w)) w2)
    as (w3 & Hsave' & Hc3 & _).
  rewrite Hsave in Hsave'. inversion Hsave'; subst w3. clear Hsave'.
  split.
  { destruct emails as [| email rest]; [congruence |].
    apply processItems_pause in Hb. lia. }
  exists emails, w1, b, w2, (d1 ++ d2).
  split; [exact Hfetch |]. split; [exact Hbatch |].
  split; [rewrite Hs2, Hs1, <- app_assoc; reflexivity |].
  split; [apply Forall_app; split; assumption |].
  destruct (saveSyncState_requests (Date_toISOString (clock w)) w2)
    as (w3 & Hsave' & Hlog).
  rewrite Hsave in Hsave'. inversion Hsave'; subst w3. clear Hsave'.
  rewrite Hstart. exact Hlog.
Qed.

(** A run whose candidates were fetched and whose batch was processed
    returns, whatever the save does. *)
Lemma sync_run_nonempty fuel w emails w1 b w2 :
  fetchCandidates config fuel w = (Returned emails, w1) ->
  emails <> [] ->
  processBatch config emails (batchSize config) w1 = (Returned b, w2) ->
  exists r w3,
    sync config fuel w = (Returned r, w3) /\
    saveSyncState config (Date_toISOString (clock w)) w2 = (Returned tt, w3) /\
    totalEmails r = Z.of_nat (List.length emails) /\
    processedEmails r = processed b /\
    failedEmails r = failed b /\
    skippedEmails r = skipped b /\
    failedEmailIds r = failedIds b.
Proof.
  intros Hfetch Hne Hb.
  destruct (total_saveSyncState config (Date_toISOString (clock w)) w2)
    as ([] & w3 & Hsave).
  eexists _, w3. split; [| split; [exact Hsave |]].
  - unfold sync, now at 1.
    erewrite bind_returned by reflexivity.
    apply try_catch_returned.
    erewrite bind_returned by exact Hfetch.
    destruct emails as [| email rest]; [congruence |].
    erewrite bind_returned by exact Hb.
    erewrite bind_returned by reflexivity.
    erewrite bind_returned by exact Hsave.
    erewrite bind_returned by reflexivity.
    reflexivity.
  - cbn [totalEmails processedEmails failedEmails skippedEmails
         failedEmailIds]. repeat split; reflexivity.
Qed.

Lemma sync_run_empty fuel w w1 :
  fetchCandidates config fuel w = (Returned [], w1) ->
  exists r,
    sync config fuel w = (Returned r, w1) /\
    totalEmails r = 0 /\ processedEmails r = 0 /\
    failedEmails r = 0 /\ skippedEmails r = 0.
Proof.
  intros Hfetch. eexists. split.
  - unfold sync, now at 1.
    erewrite bind_returned by reflexivity.
    apply try_catch_returned.
    erewrite bind_returned by exact Hfetch.
    unfold now, bind, ret. reflexivity.
  - repeat split; reflexivity.
Qed.

(** C9.  [saveSyncState] returns normally in every state of the
    world, whatever is answered to its requests; and a run whose
    candidates were fetched and whose batch was processed returns a
    result, with the counters of the batch untouched by the save. *)
Theorem save_failure_is_contained fuel w emails w1 b w2 :
  fetchCandidates config fuel w = (Returned emails, w1) ->
  emails <> [] ->
  processBatch config emails (batchSize config) w1 = (Returned b, w2) ->
  (forall timestamp w0,
      exists w0', saveSyncState config timestamp w0 = (Returned tt, w0')) /\
  exists r w3,
    sync config fuel w = (Returned r, w3) /\
    saveSyncState config (Date_toISOString (clock w)) w2 = (Returned tt, w3) /\
    totalEmails r = Z.of_nat (List.length emails) /\
    processedEmails r = processed b /\
    failedEmails r = failed b /\
    skippedEmails r = skipped b /\
    failedEmailIds r = failedIds b.
Proof.
  intros Hfetch Hne Hb. split.
  - intros timestamp w0.
    destruct (total_saveSyncState config timestamp w0) as ([] & w0' & H).
    exists w0'. exact H.
  - eapply sync_run_nonempty; eassumption.
Qed.

Lemma processBatch_positive emails b (w : World E) result w' :
  processBatch config emails b w = (Returned result, w') ->
  emails <> [] -> 0 < b.
Proof.
  intros H Hne. destruct (Z.lt_ge_cases 0 b) as [Hb | Hb]; [exact Hb |].
  unfold processBatch in H.
  pose proof (@processBatch_loop_stuck P E R config emails b Hb Hne
                (List.length emails) 0 emptyBatch w (Z.le_refl 0)) as Hstuck.
  rewrite H in Hstuck. discriminate.
Qed.

End MarkerFacts.

(* ================================================================== *)
(** * Resolving the change set *)
(* ================================================================== *)

Section ChangeSetFacts.
Context {P : Platform} {E : Type} {R : Remote E}.
Variable config : Config.

Lemma loop_drains fuel : forall since offset acc w l w',
  getEmailsSince_loop fuel since offset acc w = (Returned l, w') ->
  exists pages,
    Drains offset w pages w' /\
    l = acc ++ filter (modifiedSince since) (List.concat pages).
Proof.
  induction fuel as [| fuel IH]; intros since offset acc w l w' H; simpl in H.
  - discriminate.
  - apply bind_returned_inv in H. destruct H as (response & w1 & Hget & H).
    destruct (list_success response) eqn:Hsucc.
    + destruct (list_result response) as [result |] eqn:Hres.
      * destruct (strictly_true (moreResult response)) eqn:Hmore.
        -- apply IH in H. destruct H as (pages & Hd & ->).
           exists (result :: pages). split.
           ++ eapply drains_more; eassumption.
           ++ simpl. rewrite filter_app, app_assoc. reflexivity.
        -- unfold ret in H. inversion H; subst.
           exists [result]. split.
           ++ eapply drains_last; eassumption.
           ++ simpl. rewrite app_nil_r. reflexivity.
      * unfold ret in H. inversion H; subst.
        exists []. split.
        -- eapply drains_rejected; [eassumption | right; assumption].
        -- simpl. rewrite app_nil_r. reflexivity.
    + assert (Hret : ret (E := E) acc w1 = (Returned l, w'))
        by (destruct (list_result response); exact H).
      unfold ret in Hret. inversion Hret; subst.
      exists []. split.
      * eapply drains_rejected; [eassumption | left; assumption].
      * simpl. rewrite app_nil_r. reflexivity.
Qed.

Lemma drains_loop offset w pages w' :
  Drains offset w pages w' ->
  forall fuel since acc,
    (List.length pages < fuel)%nat ->
    getEmailsSince_loop fuel since offset acc w =
      (Returned (acc ++ filter (modifiedSince since) (List.concat pages)), w').
Proof.
  induction 1 as [offset w response w' Hget Hbad
                 | offset w response result w' Hget Hsucc Hres Hmore
                 | offset w response result w1 pages w' Hget Hsucc Hres Hmore
                     Hrest IH];
    intros fuel since acc Hfuel;
    (destruct fuel as [| fuel]; [inversion Hfuel |]); simpl;
    erewrite bind_returned by exact Hget.
  - rewrite app_nil_r. destruct Hbad as [Hbad | Hbad]; rewrite Hbad.
    + destruct (list_result response); reflexivity.
    + destruct (list_success response); reflexivity.
  - rewrite Hsucc, Hres, Hmore, app_nil_r. reflexivity.
  - rewrite Hsucc, Hres, Hmore, IH by (simpl in Hfuel; lia).
    rewrite filter_app, app_assoc. reflexivity.
Qed.

Lemma modifiedSince_spec since email :
  modifiedSince (Some since) email = true <->
  exists t, Date_parse (updatedAt email) = Some t /\ since <= t.
Proof.
  unfold modifiedSince, Js.date_ge.
  destruct (Date_parse (updatedAt email)) as [t |].
  - rewrite Z.leb_le. split.
    + intros H. exists t. auto.
    + intros (t' & Ht & Hle). inversion Ht; subst. exact Hle.
  - split; [discriminate | intros (t & Ht & _); discriminate].
Qed.

Lemma sinceDateOf_returned_inv st (w : World E) d w' :
  sinceDateOf config st w = (Returned d, w') ->
  w' = w /\ d = lowerBound config st (clock w) /\ exists since, d = Some since.
Proof.
  unfold sinceDateOf, lowerBound. destruct (lastSyncTimestamp st) as [v |].
  - destruct (Date_of_value v) as [t |]; simpl; intros H.
    + inversion H; subst. eauto.
    + discriminate.
  - unfold getDaysAgo, now, bind, ret, toISOString. intros H.
    inversion H; subst. eauto.
Qed.



End ChangeSetFacts.

(* ================================================================== *)
(** * Placement in the archive *)
(* ================================================================== *)

Section StringFacts.

Lemma is_reserved_spec c :
  Js.is_reserved c = true <-> In c Js.reserved_chars.
Proof.
  unfold Js.is_reserved. rewrite existsb_exists. split.
  - intros (x & Hin & Heq). apply Ascii.eqb_eq in Heq. subst. exact Hin.
  - intros Hin. exists c. split; [exact Hin | apply Ascii.eqb_refl].
Qed.

Lemma cleanb_spec s : cleanb s = true <-> clean s.
Proof.
  unfold cleanb, clean. rewrite forallb_forall. split; intros H c Hin.
  - specialize (H c Hin). rewrite <- is_reserved_spec.
    destruct (Js.is_reserved c); [discriminate | discriminate].
  - specialize (H c Hin). rewrite <- is_reserved_spec in H.
    destruct (Js.is_reserved c); [contradiction H; reflexivity | reflexivity].
Qed.

Lemma chars_append a b : Js.chars (a ++ b) = Js.chars a ++ Js.chars b.
Proof. induction a as [| c a IH]; simpl; [reflexivity | rewrite IH; reflexivity]. Qed.

Lemma cleanb_append a b : cleanb (a ++ b) = cleanb a && cleanb b.
Proof. unfold cleanb. rewrite chars_append, forallb_app. reflexivity. Qed.

Lemma cleanb_cons c s :
  cleanb (String c s) = negb (Js.is_reserved c) && cleanb s.
Proof. reflexivity. Qed.

Lemma truthy_append a b : Js.truthy (a ++ b) = Js.truthy a || Js.truthy b.
Proof. destruct a; reflexivity. Qed.

(** ** Sanitization *)

Lemma replace_class_chars cls r s :
  Js.chars (Js.replace_class cls r s) =
  map (fun c => if cls c then r else c) (Js.chars s).
Proof. induction s as [| c s IH]; simpl; [reflexivity | rewrite IH; reflexivity]. Qed.

Lemma replace_class_truthy cls r s :
  Js.truthy (Js.replace_class cls r s) = Js.truthy s.
Proof. destruct s; reflexivity. Qed.

Lemma replace_reserved_cleanb s :
  cleanb (Js.replace_class Js.is_reserved Js.dash s) = true.
Proof.
  induction s as [| c s IH]; [reflexivity |].
  simpl. rewrite cleanb_cons, IH.
  destruct (Js.is_reserved c) eqn:Hc; [reflexivity | rewrite Hc; reflexivity].
Qed.

(** ** Decimal numerals *)

Lemma uint_cleanb d : cleanb (NilEmpty.string_of_uint d) = true.
Proof.
  induction d; simpl; [reflexivity | ..]; rewrite cleanb_cons, IHd; reflexivity.
Qed.

Lemma string_of_Z_cleanb z : cleanb (Js.string_of_Z z) = true.
Proof.
  unfold Js.string_of_Z, NilZero.string_of_int, NilZero.string_of_uint.
  destruct (Z.to_int z) as [d | d]; destruct d;
    first [reflexivity
          | apply uint_cleanb
          | rewrite cleanb_cons, uint_cleanb; reflexivity ].
Qed.

Lemma string_of_Z_truthy z : Js.truthy (Js.string_of_Z z) = true.
Proof.
  unfold Js.string_of_Z, NilZero.string_of_int, NilZero.string_of_uint.
  destruct (Z.to_int z) as [d | d]; destruct d; reflexivity.
Qed.

Lemma zeros_cleanb n : cleanb (Js.zeros n) = true.
Proof. induction n; [reflexivity | simpl; rewrite cleanb_cons, IHn; reflexivity]. Qed.

(** ** Splitting a path *)

Lemma split_nonempty sep s : Js.split sep s <> [].
Proof.
  destruct s as [| c s]; simpl; [discriminate |].
  destruct (Ascii.eqb c sep); [discriminate |].
  destruct (Js.split sep s); discriminate.
Qed.

Lemma split_free sep s : free_of sep s = true -> Js.split sep s = [s].
Proof.
  induction s as [| c s IH]; simpl; [reflexivity |].
  unfold free_of. simpl. intros H. apply andb_true_iff in H.
  destruct H as [Hc Hs]. apply negb_true_iff in Hc. rewrite Hc.
  rewrite (IH Hs). reflexivity.
Qed.

Lemma split_append sep a b :
  Js.split sep (a ++ String sep b) = Js.split sep a ++ Js.split sep b.
Proof.
  induction a as [| c a IH]; simpl.
  - rewrite Ascii.eqb_refl. reflexivity.
  - destruct (Ascii.eqb c sep); [rewrite IH; reflexivity |].
    rewrite IH. pose proof (split_nonempty sep a) as Hne.
    destruct (Js.split sep a); [congruence | reflexivity].
Qed.

Lemma path_parts_append a b :
  Js.path_parts (a ++ "/" ++ b) = Js.path_parts a ++ Js.path_parts b.
Proof.
  unfold Js.path_parts.
  change ("/" ++ b)%string with (String Js.slash b).
  rewrite split_append, filter_app. reflexivity.
Qed.

Lemma path_parts_segment s :
  free_of Js.slash s = true -> Js.truthy s = true -> Js.path_parts s = [s].
Proof.
  intros Hf Ht. unfold Js.path_parts. rewrite split_free by assumption.
  simpl. rewrite Ht. reflexivity.
Qed.

Lemma cleanb_free s : cleanb s = true -> free_of Js.slash s = true.
Proof.
  unfold cleanb, free_of. rewrite !forallb_forall. intros H c Hin.
  specialize (H c Hin). apply negb_true_iff in H. apply negb_true_iff.
  destruct (Ascii.eqb c Js.slash) eqn:Heq; [| reflexivity].
  apply Ascii.eqb_eq in Heq. subst c. discriminate.
Qed.

End StringFacts.

Section PlacementFacts.
Context {P : Platform}.

Lemma addLeadingZeros_cleanb number n : cleanb (addLeadingZeros number n) = true.
Proof.
  unfold addLeadingZeros, Js.padStart0.
  rewrite !cleanb_append, zeros_cleanb, string_of_Z_cleanb.
  destruct (number <? 0); reflexivity.
Qed.

Lemma addLeadingZeros_truthy number n : Js.truthy (addLeadingZeros number n) = true.
Proof.
  unfold addLeadingZeros, Js.padStart0.
  rewrite !truthy_append, string_of_Z_truthy, !orb_true_r. reflexivity.
Qed.

Lemma campaignName_truthy email : Js.truthy (campaignName email) = true.
Proof.
  unfold campaignName. destruct (email_folder email) as [f |]; [| reflexivity].
  destruct (Js.truthy (folderName f)) eqn:Ht; [exact Ht | reflexivity].
Qed.

Lemma fileName_cleanb email suffix :
  cleanb suffix = true ->
  cleanb (Js.string_of_Z (email_id email) ++ "-" ++ sanitize (email_name email)
            ++ suffix) = true.
Proof.
  intros Hs. rewrite !cleanb_append, string_of_Z_cleanb, Hs.
  unfold sanitize. rewrite replace_reserved_cleanb. reflexivity.
Qed.


End PlacementFacts.

(* ================================================================== *)
(** * The retry executor *)
(* ================================================================== *)

Section RetryFacts.
Variable A : Type.
Variable fn : nat -> Js.error + A.
Variable errors : nat -> Js.error.
Hypothesis always_fails : forall k, fn k = inl (errors k).

Lemma retry_loop_exhausts opts gap : forall turns attempt lastError sleeps,
  Z.of_nat (attempt + gap) = Retry.maxRetries opts ->
  (gap < turns)%nat ->
  Retry.retry_loop fn opts turns attempt lastError sleeps =
  {| Retry.seen := Retry.Rejected (Some (errors (attempt + gap)));
     Retry.calls := attempt + gap;
     Retry.slept :=
       sleeps ++ map (fun k => Retry.calculateDelay k opts) (seq attempt gap) |}.
Proof.
  induction gap as [| gap IH]; intros turns attempt lastError sleeps Hmax Hturns;
    (destruct turns as [| turns]; [lia |]); cbn [Retry.retry_loop].
  - rewrite Nat.add_0_r in *.
    rewrite (proj2 (Z.leb_le _ _)) by lia.
    rewrite always_fails, (proj2 (Z.eqb_eq _ _)) by lia.
    simpl. rewrite app_nil_r. reflexivity.
  - rewrite (proj2 (Z.leb_le _ _)) by lia.
    rewrite always_fails, (proj2 (Z.eqb_neq _ _)) by lia.
    cbv zeta. rewrite IH by lia.
    rewrite <- app_assoc. simpl. rewrite Nat.add_succ_r. reflexivity.
Qed.

Lemma retry_exhausts options :
  0 < Retry.maxRetries (Retry.spread options) ->
  Retry.retry fn options =
  {| Retry.seen :=
       Retry.Rejected
         (Some (errors (Z.to_nat (Retry.maxRetries (Retry.spread options)))));
     Retry.calls := Z.to_nat (Retry.maxRetries (Retry.spread options));
     Retry.slept :=
       map (fun k => Retry.calculateDelay k (Retry.spread options))
           (seq 1 (Z.to_nat (Retry.maxRetries (Retry.spread options)) - 1)) |}.
Proof.
  intros Hpos. unfold Retry.retry. cbv zeta.
  rewrite (@retry_loop_exhausts (Retry.spread options)
             (Z.to_nat (Retry.maxRetries (Retry.spread options)) - 1)) by lia.
  replace (1 + (Z.to_nat (Retry.maxRetries (Retry.spread options)) - 1))%nat
    with (Z.to_nat (Retry.maxRetries (Retry.spread options))) by lia.
  reflexivity.
Qed.


End RetryFacts.

(* ================================================================== *)
(** * The engine against the reference systems *)
(* ================================================================== *)

Section BenchCalls.
Context {P : Platform}.
Variable config : Config.

Lemma getNodeByPath_bench path (w : World Store) :
  getNodeByPath path w =
  (Returned (resolve (nodes (remote w)) path), tick w (GetRelativePath path)).
Proof.
  unfold getNodeByPath, try_catch, bind, perform, ret, tick. simpl.
  destruct (resolve (nodes (remote w)) path); reflexivity.
Qed.

Lemma nodeExists_bench parentId name (w : World Store) :
  nodeExists parentId name w =
  (Returned (hd_error (filter (child_of parentId name) (nodes (remote w)))),
   tick w (GetChildren parentId name)).
Proof.
  unfold nodeExists, try_catch, bind, perform, ret, tick. simpl.
  destruct (filter (child_of parentId name) (nodes (remote w))); reflexivity.
Qed.

Lemma createFolder_bench parentId name (w : World Store) :
  writable (remote w) = true ->
  createFolder parentId name w =
  (Returned (folderNode w parentId name),
   grown w (PostFolder parentId name) (folderNode w parentId name)).
Proof.
  intros Hw. unfold createFolder, perform, grown, folderNode. simpl.
  unfold create. rewrite Hw. reflexivity.
Qed.

Lemma createFolder_refused parentId name (w : World Store) a w' :
  writable (remote w) = false ->
  createFolder parentId name w <> (Returned a, w').
Proof.
  intros Hw. unfold createFolder, perform. simpl.
  unfold create. rewrite Hw. discriminate.
Qed.

Lemma uploadFile_bench parentId fileName content options (w : World Store) :
  writable (remote w) = true ->
  Js.truthy (opt_name options) = true ->
  uploadFile parentId fileName content options w =
  (Returned (fileNode w parentId (opt_name options) (opt_properties options)),
   grown w (PostFile parentId fileName (opt_name options) content
                     (opt_properties options))
         (fileNode w parentId (opt_name options) (opt_properties options))).
Proof.
  intros Hw Hn. unfold uploadFile, perform, grown, fileNode. rewrite Hn. simpl.
  unfold create. rewrite Hw. reflexivity.
Qed.

Lemma uploadFile_refused parentId fileName content options (w : World Store)
      a w' :
  writable (remote w) = false ->
  uploadFile parentId fileName content options w <> (Returned a, w').
Proof.
  intros Hw. unfold uploadFile, perform. simpl.
  unfold create. rewrite Hw. discriminate.
Qed.

Lemma getEmailContent_bench id (w : World Store) :
  exists w',
    getEmailContent id w = (Returned (contentOf (remote w) id), w') /\
    remote w' = remote w /\
    clock w <= clock w' /\
    exists d, sent w' = sent w ++ d /\ Forall (fun c => creates c = false) d.
Proof.
  unfold getEmailContent, getEmailById, contentOf, try_catch, bind, perform,
    ret, first_result. simpl.
  pose proof (N2Z.is_nonneg (latency (remote w))) as Hlat.
  destruct (content_by_id (contents (remote w)) id) as [[| body rest] |]; simpl.
  - eexists. split; [reflexivity |]. simpl.
    split; [reflexivity |]. split; [lia |].
    eexists. split; [reflexivity |]. repeat constructor.
  - eexists. split.
    + destruct (email_by_id (remote w) id); reflexivity.
    + simpl. split; [reflexivity |]. split; [lia |].
      eexists. split; [rewrite <- app_assoc; reflexivity |].
      repeat constructor.
  - eexists. split; [reflexivity |]. simpl.
    split; [reflexivity |]. split; [lia |].
    eexists. split; [reflexivity |]. repeat constructor.
Qed.

End BenchCalls.

Section StoreFacts.

Lemma grows_refl l : Grows l l.
Proof. exists []. rewrite app_nil_r. reflexivity. Qed.

Lemma grows_trans l1 l2 l3 : Grows l1 l2 -> Grows l2 l3 -> Grows l1 l3.
Proof.
  intros (x & Hx) (y & Hy). exists (x ++ y).
  rewrite Hy, Hx, app_assoc. reflexivity.
Qed.

Lemma grows_app l extra : Grows l (l ++ extra).
Proof. exists (map skel extra). apply map_app. Qed.

Lemma grows_map g l :
  (forall n, skel (g n) = skel n) -> Grows l (map g l).
Proof.
  intros Hg. exists []. rewrite app_nil_r, map_map.
  apply map_ext. exact Hg.
Qed.

Lemma set_properties_skel nodeId properties n :
  skel (set_properties nodeId properties n) = skel n.
Proof.
  unfold set_properties. destruct (String.eqb (node_id n) nodeId); reflexivity.
Qed.

Lemma child_of_skel p s a b : skel a = skel b -> child_of p s a = child_of p s b.
Proof.
  unfold skel, child_of. intros H. injection H as _ Hp Hn.
  rewrite Hp, Hn. reflexivity.
Qed.

Lemma grows_cons_inv a l l' :
  Grows (a :: l) l' ->
  exists a' l0', l' = a' :: l0' /\ skel a' = skel a /\ Grows l l0'.
Proof.
  intros (extra & H). destruct l' as [| a' l0']; [discriminate |].
  simpl in H. inversion H as [[Ha Hp Hn Hl]].
  exists a', l0'. split; [reflexivity |]. split.
  - unfold skel. congruence.
  - exists extra. exact Hl.
Qed.

Lemma find_child_grows p s l : forall l' n,
  Grows l l' ->
  find (child_of p s) l = Some n ->
  exists n', find (child_of p s) l' = Some n' /\ skel n' = skel n.
Proof.
  induction l as [| a l IH]; intros l' n Hg Hf; [discriminate |].
  apply grows_cons_inv in Hg. destruct Hg as (a' & l0' & -> & Ha & Hg).
  simpl in *. rewrite (child_of_skel p s Ha).
  destruct (child_of p s a).
  - injection Hf as <-. exists a'. auto.
  - apply IH; assumption.
Qed.

Lemma has_child_grows p s l : forall l',
  Grows l l' ->
  existsb (child_of p s) l = true -> existsb (child_of p s) l' = true.
Proof.
  induction l as [| a l IH]; intros l' Hg He; [discriminate |].
  apply grows_cons_inv in Hg. destruct Hg as (a' & l0' & -> & Ha & Hg).
  simpl in *. rewrite (child_of_skel p s Ha).
  destruct (child_of p s a); [reflexivity | apply IH; assumption].
Qed.

Lemma walk_grows l l' :
  Grows l l' ->
  forall segs cur cur' n,
    node_id cur = node_id cur' ->
    walk l segs cur = Some n ->
    exists n', walk l' segs cur' = Some n' /\ node_id n' = node_id n.
Proof.
  intros Hg. induction segs as [| seg rest IH]; intros cur cur' n Hid Hw;
    simpl in *.
  - injection Hw as <-. exists cur'. auto.
  - rewrite <- Hid.
    destruct (find (child_of (node_id cur) seg) l) as [m |] eqn:Hf;
      [| discriminate].
    destruct (find_child_grows _ _ Hg Hf) as (m' & Hf' & Hs).
    rewrite Hf'. apply (IH m m' n); [| exact Hw].
    unfold skel in Hs. congruence.
Qed.

Lemma walk_app l a : forall b cur,
  walk l (a ++ b) cur =
  match walk l a cur with
  | Some n => walk l b n
  | None => None
  end.
Proof.
  induction a as [| seg rest IH]; intros b cur; simpl; [reflexivity |].
  destruct (find (child_of (node_id cur) seg) l); [apply IH | reflexivity].
Qed.

Lemma find_app_some (A : Type) (f : A -> bool) l extra x :
  find f l = Some x -> find f (l ++ extra) = Some x.
Proof.
  induction l as [| a l IH]; simpl; [discriminate |].
  destruct (f a); auto.
Qed.

Lemma find_app_none (A : Type) (f : A -> bool) l extra :
  find f l = None -> find f (l ++ extra) = find f extra.
Proof.
  induction l as [| a l IH]; simpl; [reflexivity |].
  destruct (f a); [discriminate | auto].
Qed.

Lemma walk_appended l extra : forall segs cur n,
  walk l segs cur = Some n -> walk (l ++ extra) segs cur = Some n.
Proof.
  induction segs as [| seg rest IH]; intros cur n Hw; simpl in *; [exact Hw |].
  destruct (find (child_of (node_id cur) seg) l) as [m |] eqn:Hf;
    [| discriminate].
  rewrite (find_app_some _ _ extra Hf). apply IH. exact Hw.
Qed.

Lemma existsb_filter_hd (A : Type) (f : A -> bool) l :
  existsb f l = true <-> exists x, hd_error (filter f l) = Some x.
Proof.
  induction l as [| a l IH]; simpl.
  - split; [discriminate | intros (x & H); discriminate].
  - destruct (f a) eqn:Hfa; simpl.
    + split; [intros _; exists a; reflexivity | reflexivity].
    + exact IH.
Qed.

Lemma later_refl s : Later s s.
Proof. repeat split; try reflexivity. apply grows_refl. Qed.

Lemma later_trans s1 s2 s3 : Later s1 s2 -> Later s2 s3 -> Later s1 s3.
Proof.
  intros (Hp & Hc & Hw & Hl & Hg) (Hp' & Hc' & Hw' & Hl' & Hg').
  repeat split; try congruence. eapply grows_trans; eassumption.
Qed.

End StoreFacts.

Section BenchReads.
Context {P : Platform}.
Variable config : Config.

Lemma idle_refl w : Idle w w.
Proof. split; [reflexivity | apply extends_refl]. Qed.

Lemma idle_trans w1 w2 w3 : Idle w1 w2 -> Idle w2 w3 -> Idle w1 w3.
Proof.
  intros (Hr & He) (Hr' & He'). split; [congruence |].
  eapply extends_trans; eassumption.
Qed.

Lemma idle_tick w c : creates c = false -> Idle w (tick w c).
Proof.
  intros Hc. split; [reflexivity |]. unfold Extends, tick. simpl.
  pose proof (N2Z.is_nonneg (latency (remote w))).
  split; [lia |]. exists [c]. split; [reflexivity | repeat constructor; exact Hc].
Qed.

Lemma idle_setTimeout ms (w : World Store) :
  0 <= ms ->
  exists w', setTimeout ms w = (Returned tt, w') /\ Idle w w' /\
             clock w + ms <= clock w'.
Proof.
  intros Hms. unfold setTimeout. simpl. eexists. split; [reflexivity |].
  split; [| simpl; lia].
  split; [reflexivity |]. unfold Extends. simpl. split; [lia |].
  exists []. rewrite app_nil_r. split; [reflexivity | constructor].
Qed.

Lemma loadSyncState_bench (w : World Store) :
  exists w',
    loadSyncState config w = (Returned (loadedState config (remote w)), w') /\
    Idle w w'.
Proof.
  unfold loadSyncState, getRootNodeId, loadedState.
  unfold try_catch at 1. unfold bind at 1. unfold bind at 1.
  rewrite getNodeByPath_bench.
  destruct (resolve (nodes (remote w)) (basePath config)) as [root |].
  - unfold ret at 1. unfold bind at 1. rewrite nodeExists_bench.
    cbn [remote tick].
    set (w2 := tick (tick w _) _).
    assert (Hidle : Idle w w2).
    { eapply idle_trans; apply idle_tick; reflexivity. }
    destruct (hd_error _) as [n |]; [| exists w2; split; [reflexivity | exact Hidle]].
    destruct (node_properties n) as [properties |];
      [| exists w2; split; [reflexivity | exact Hidle]].
    destruct (Js.value_truthy _);
      exists w2; (split; [reflexivity | exact Hidle]).
  - unfold throw. eexists. split; [reflexivity |].
    apply idle_tick. reflexivity.
Qed.

Lemma drained_pages fuel : forall s s' offset,
  pages s' = pages s -> drained fuel s' offset = drained fuel s offset.
Proof.
  induction fuel as [| fuel IH]; intros s s' offset Hp; simpl; [reflexivity |].
  unfold page_at. rewrite Hp. rewrite (IH s s') by exact Hp. reflexivity.
Qed.

Lemma getEmailsSince_loop_bench fuel : forall since offset acc (w : World Store),
  exists w',
    getEmailsSince_loop fuel since offset acc w =
      (match drained fuel (remote w) offset with
       | Some pgs =>
           Returned (acc ++ filter (modifiedSince since) (List.concat pgs))
       | None => Diverged
       end, w') /\
    Idle w w'.
Proof.
  induction fuel as [| fuel IH]; intros since offset acc w.
  - exists w. split; [reflexivity | apply idle_refl].
  - cbn [getEmailsSince_loop drained].
    unfold bind at 1. unfold getEmails, perform. simpl.
    set (w1 := {| clock := _; sent := _; remote := remote w |}).
    assert (Hidle : Idle w w1) by (apply (idle_tick w); reflexivity).
    destruct (list_success (page_at (remote w) offset maxReturn)).
    + destruct (list_result (page_at (remote w) offset maxReturn)) as [result |].
      * destruct (strictly_true _).
        -- destruct (IH since (offset + maxReturn)
                        (acc ++ filter (modifiedSince since) result) w1)
             as (w' & Hrun & Hidle').
           exists w'. split; [| eapply idle_trans; eassumption].
           rewrite Hrun. change (remote w1) with (remote w).
           destruct (drained fuel (remote w) (offset + maxReturn)) as [pgs |];
             simpl; [| reflexivity].
           rewrite filter_app, app_assoc. reflexivity.
        -- exists w1. split; [| exact Hidle].
           simpl. rewrite app_nil_r. reflexivity.
      * exists w1. split; [| exact Hidle].
        simpl. rewrite app_nil_r. reflexivity.
    + exists w1. split; [| exact Hidle].
      destruct (list_result (page_at (remote w) offset maxReturn));
        simpl; rewrite app_nil_r; reflexivity.
Qed.

(** What [fetchCandidates] returns from a store, when it returns. *)
Lemma fetchCandidates_bench fuel (w : World Store) candidates w' :
  fetchCandidates config fuel w = (Returned candidates, w') ->
  exists w1 since pgs,
    loadSyncState config w = (Returned (loadedState config (remote w)), w1) /\
    Idle w w1 /\ Idle w1 w' /\
    lowerBound config (loadedState config (remote w)) (clock w1) = Some since /\
    drained fuel (remote w) 0 = Some pgs /\
    candidates = filter (modifiedSince (Some since)) (List.concat pgs).
Proof.
  unfold fetchCandidates. intros H.
  apply bind_returned_inv in H. destruct H as (st & w1 & Hload & H).
  destruct (loadSyncState_bench w) as (w1' & Hload' & Hidle1).
  rewrite Hload in Hload'. inversion Hload'; subst st w1'. clear Hload'.
  apply bind_returned_inv in H. destruct H as (d & w2 & Hsince & H).
  apply sinceDateOf_returned_inv in Hsince.
  destruct Hsince as (-> & Hd & since & ->).
  unfold getEmailsSince in H. simpl in H.
  apply bind_returned_inv in H. destruct H as (s & w3 & Hs & H).
  unfold ret in Hs. inversion Hs; subst s w3. clear Hs.
  destruct (getEmailsSince_loop_bench fuel (Some since) 0 [] w1)
    as (w2 & Hrun & Hidle2).
  rewrite H in Hrun.
  destruct Hidle1 as (Hr1 & He1). rewrite Hr1 in Hrun.
  destruct (drained fuel (remote w) 0) as [pgs |] eqn:Hdr; [| discriminate].
  inversion Hrun; subst. exists w1, since, pgs.
  split; [exact Hload |].
  split; [split; assumption |]. split; [exact Hidle2 |].
  split; [symmetry; exact Hd |]. split; reflexivity.
Qed.

(** Conversely, with the same fuel, the same pages are accepted from
    any store that has the same source. *)
Lemma fetchCandidates_bench_run fuel (w : World Store) pgs :
  drained fuel (remote w) 0 = Some pgs ->
  exists w1,
    loadSyncState config w = (Returned (loadedState config (remote w)), w1) /\
    Idle w w1 /\
    forall since,
      lowerBound config (loadedState config (remote w)) (clock w1) = Some since ->
      exists w',
        fetchCandidates config fuel w =
          (Returned (filter (modifiedSince (Some since)) (List.concat pgs)), w') /\
        Idle w w'.
Proof.
  intros Hdr. unfold fetchCandidates.
  destruct (loadSyncState_bench w) as (w1 & Hload & Hidle1).
  exists w1. split; [exact Hload |]. split; [exact Hidle1 |].
  intros since Hsince.
  erewrite bind_returned by exact Hload.
  assert (Hs : sinceDateOf config (loadedState config (remote w)) w1 =
               (Returned (Some since), w1)).
  { unfold lowerBound in Hsince. unfold sinceDateOf.
    destruct (lastSyncTimestamp (loadedState config (remote w))) as [v |].
    - rewrite Hsince. reflexivity.
    - unfold getDaysAgo, now, bind, ret, toISOString.
      injection Hsince as <-. reflexivity. }
  erewrite bind_returned by exact Hs.
  unfold getEmailsSince. simpl. erewrite bind_returned by reflexivity.
  destruct (getEmailsSince_loop_bench fuel (Some since) 0 [] w1)
    as (w2 & Hrun & Hidle2).
  pose proof Hidle1 as (Hr1 & He1). rewrite Hr1, Hdr in Hrun.
  exists w2. split; [exact Hrun |].
  eapply idle_trans; eassumption.
Qed.

End BenchReads.

Section BenchFolders.
Context {P : Platform}.
Variable config : Config.

Lemma split_pieces_free sep s : Forall (fun p => free_of sep p = true) (Js.split sep s).
Proof.
  induction s as [| c s IH]; simpl.
  - repeat constructor.
  - destruct (Ascii.eqb c sep) eqn:Hc.
    + constructor; [reflexivity | exact IH].
    + destruct (Js.split sep s) as [| h t]; [repeat constructor |].
      * unfold free_of. simpl. rewrite Hc. reflexivity.
      * inversion IH; subst. constructor; [| assumption].
        unfold free_of in *. simpl. rewrite Hc. assumption.
Qed.

Lemma path_parts_segments path : Forall segment (Js.path_parts path).
Proof.
  unfold Js.path_parts. pose proof (split_pieces_free Js.slash path) as H.
  induction H as [| p l Hp Hl IH]; simpl; [constructor |].
  destruct (Js.truthy p) eqn:Ht; [| exact IH].
  constructor; [split; assumption | exact IH].
Qed.

Lemma path_parts_step currentPath part :
  segment part ->
  Js.path_parts (currentPath ++ "/" ++ part) = Js.path_parts currentPath ++ [part].
Proof.
  intros (Hf & Ht).
  rewrite path_parts_append, (@path_parts_segment part Hf Ht).
  reflexivity.
Qed.

Lemma child_of_refl p s f i props :
  child_of p s {| node_id := i; node_name := s; node_isFolder := f;
                  node_parentId := Some p; node_properties := props |} = true.
Proof. unfold child_of. simpl. rewrite !String.eqb_refl. reflexivity. Qed.

(** ** When the folders are there *)

Lemma ensureFolderPath_loop_found parts :
  forall currentPath currentNode (w : World Store) F,
    Forall segment parts ->
    walk (nodes (remote w)) (Js.path_parts currentPath) rootNode
      = Some currentNode ->
    walk (nodes (remote w)) parts currentNode = Some F ->
    exists w',
      ensureFolderPath_loop parts currentPath currentNode w = (Returned F, w') /\
      Idle w w'.
Proof.
  induction parts as [| part rest IH]; intros currentPath currentNode w F Hseg Hcur Hw.
  - simpl in *. injection Hw as <-. exists w. split; [reflexivity | apply idle_refl].
  - inversion Hseg as [| ? ? Hpart Hrest]; subst.
    cbn [ensureFolderPath_loop]. unfold bind at 1.
    rewrite getNodeByPath_bench. unfold resolve.
    rewrite path_parts_step by assumption.
    rewrite walk_app, Hcur.
    simpl in Hw. simpl.
    destruct (find (child_of (node_id currentNode) part) (nodes (remote w)))
      as [n |] eqn:Hfind; [| discriminate].
    unfold bind at 1. unfold ret at 1.
    destruct (IH (currentPath ++ "/" ++ part)%string n
                 (tick w (GetRelativePath (currentPath ++ "/" ++ part))) F
                 Hrest) as (w' & Hrun & Hidle).
    + cbn [remote tick]. rewrite path_parts_step by assumption.
      rewrite walk_app, Hcur. simpl. rewrite Hfind. reflexivity.
    + exact Hw.
    + exists w'. split; [exact Hrun |].
      eapply idle_trans; [| exact Hidle]. apply idle_tick. reflexivity.
Qed.

Lemma ensureFolderPath_found path (w : World Store) F :
  walk (nodes (remote w))
       (Js.path_parts (basePath config) ++ Js.path_parts path) rootNode = Some F ->
  exists w',
    ensureFolderPath config path w = (Returned F, w') /\ Idle w w'.
Proof.
  intros Hw. rewrite walk_app in Hw.
  destruct (walk (nodes (remote w)) (Js.path_parts (basePath config)) rootNode)
    as [base |] eqn:Hbase; [| discriminate].
  unfold ensureFolderPath. unfold bind at 1. rewrite getNodeByPath_bench.
  unfold resolve. rewrite Hbase.
  destruct (@ensureFolderPath_loop_found (Js.path_parts path) (basePath config)
              base (tick w (GetRelativePath (basePath config))) F
              (path_parts_segments path) Hbase Hw) as (w' & Hrun & Hidle).
  exists w'. split; [exact Hrun |].
  eapply idle_trans; [| exact Hidle]. apply idle_tick. reflexivity.
Qed.

(** ** When folders may have to be created *)

Lemma later_tick (w : World Store) c : Later (remote w) (remote (tick w c)).
Proof. apply later_refl. Qed.

Lemma later_grown (w : World Store) c n : Later (remote w) (remote (grown w c n)).
Proof.
  unfold grown, Later. simpl. repeat split; try reflexivity. apply grows_app.
Qed.

Lemma ensureFolderPath_loop_ensures parts :
  forall currentPath currentNode (w : World Store) F w',
    Forall segment parts ->
    walk (nodes (remote w)) (Js.path_parts currentPath) rootNode
      = Some currentNode ->
    ensureFolderPath_loop parts currentPath currentNode w = (Returned F, w') ->
    walk (nodes (remote w')) (Js.path_parts currentPath ++ parts) rootNode
      = Some F /\
    Later (remote w) (remote w').
Proof.
  induction parts as [| part rest IH];
    intros currentPath currentNode w F w' Hseg Hcur Hrun.
  - simpl in Hrun. unfold ret in Hrun. inversion Hrun; subst.
    rewrite app_nil_r. split; [exact Hcur | apply later_refl].
  - inversion Hseg as [| ? ? Hpart Hrest]; subst.
    cbn [ensureFolderPath_loop] in Hrun. unfold bind at 1 in Hrun.
    rewrite getNodeByPath_bench in Hrun. unfold resolve in Hrun.
    rewrite path_parts_step in Hrun by assumption.
    rewrite walk_app, Hcur in Hrun. cbn [walk] in Hrun.
    replace (Js.path_parts currentPath ++ part :: rest)
      with (Js.path_parts (currentPath ++ "/" ++ part) ++ rest)
      by (rewrite path_parts_step by assumption;
          rewrite <- app_assoc; reflexivity).
    destruct (find (child_of (node_id currentNode) part) (nodes (remote w)))
      as [n |] eqn:Hfind.
    + unfold bind at 1 in Hrun. unfold ret at 1 in Hrun.
      apply IH in Hrun; [| exact Hrest |].
      * exact Hrun.
      * cbn [remote tick]. rewrite path_parts_step by assumption.
        rewrite walk_app, Hcur. simpl. rewrite Hfind. reflexivity.
    + unfold bind at 1 in Hrun.
      set (w1 := tick w (GetRelativePath (currentPath ++ "/" ++ part))) in *.
      destruct (writable (remote w1)) eqn:Hw.
      * rewrite (createFolder_bench _ _ w1 Hw) in Hrun.
        apply IH in Hrun; [| exact Hrest |].
        -- destruct Hrun as (Hwalk & Hlater). split; [exact Hwalk |].
           eapply later_trans; [| exact Hlater].
           eapply later_trans; [apply later_tick | apply later_grown].
        -- unfold grown. cbn [remote nodes with_nodes].
           rewrite path_parts_step by assumption. rewrite walk_app.
           change (nodes (remote w1)) with (nodes (remote w)).
           rewrite (walk_appended _ _ _ _ Hcur). simpl.
           rewrite find_app_none by exact Hfind. simpl.
           unfold folderNode. rewrite child_of_refl. reflexivity.
      * destruct (createFolder (node_id currentNode) part w1)
          as [[a | e |] w2] eqn:Hcreate.
        -- exfalso. eapply createFolder_refused; eassumption.
        -- discriminate.
        -- discriminate.
Qed.

Lemma ensureFolderPath_ensures path (w : World Store) F w' :
  ensureFolderPath config path w = (Returned F, w') ->
  walk (nodes (remote w'))
       (Js.path_parts (basePath config) ++ Js.path_parts path) rootNode = Some F /\
  Later (remote w) (remote w').
Proof.
  unfold ensureFolderPath. unfold bind at 1. rewrite getNodeByPath_bench.
  unfold resolve.
  destruct (walk (nodes (remote w)) (Js.path_parts (basePath config)) rootNode)
    as [base |] eqn:Hbase; [| discriminate].
  intros Hrun. apply ensureFolderPath_loop_ensures in Hrun.
  - exact Hrun.
  - apply path_parts_segments.
  - exact Hbase.
Qed.

End BenchFolders.

Section BenchItems.
Context {P : Platform}.
Variable config : Config.

Lemma contentOf_later s s' id : Later s s' -> contentOf s' id = contentOf s id.
Proof.
  intros (Hp & Hc & _). unfold contentOf, email_by_id, all_emails.
  rewrite Hp, Hc. reflexivity.
Qed.

Lemma archived_later e s s' : Archived config e s -> Later s s' -> Archived config e s'.
Proof.
  intros (html & year & month & F & Hu & Hp & Hw & Hc) Hl.
  pose proof Hl as (_ & _ & _ & _ & Hg).
  destruct (walk_grows Hg _ rootNode rootNode eq_refl Hw) as (F' & Hw' & Hid).
  exists html, year, month, F'. rewrite (contentOf_later _ Hl).
  repeat split; try assumption.
  rewrite Hid. eapply has_child_grows; eassumption.
Qed.

Lemma archived_resolves e s :
  Archived config e s -> exists root, resolve (nodes s) (basePath config) = Some root.
Proof.
  intros (html & year & month & F & _ & _ & Hw & _).
  rewrite walk_app in Hw. unfold resolve.
  destruct (walk (nodes s) (Js.path_parts (basePath config)) rootNode) as [root |];
    [eauto | discriminate].
Qed.

Lemma fileName_truthy email suffix :
  Js.truthy (Js.string_of_Z (email_id email) ++ "-" ++ sanitize (email_name email)
               ++ suffix) = true.
Proof. rewrite truthy_append, string_of_Z_truthy. reflexivity. Qed.

Lemma ret_returned_inv (A : Type) (a b : A) (w w' : World Store) :
  ret a w = (Returned b, w') -> b = a /\ w' = w.
Proof. unfold ret. intros H. inversion H. auto. Qed.

(** A successful [processEmail] leaves the email archived. *)
Lemma processEmail_archives e (w : World Store) r w' :
  processEmail config e w = (Returned r, w') ->
  success r = true ->
  Archived config e (remote w') /\ Later (remote w) (remote w').
Proof.
  unfold processEmail. intros H Hs.
  apply try_catch_returned_inv in H. destruct H as [H | (err & w1 & _ & H)];
    [| apply ret_returned_inv in H; destruct H; subst; discriminate].
  apply bind_returned_inv in H. destruct H as (content & w1 & Hc & H).
  destruct (getEmailContent_bench (email_id e) w) as (w1' & Hc' & Hr1 & _).
  rewrite Hc in Hc'. inversion Hc'; subst content w1'. clear Hc'.
  destruct (contentOf (remote w) (email_id e)) as [c |] eqn:Hcontent;
    [| apply ret_returned_inv in H; destruct H; subst; discriminate].
  destruct (usableHtml (Some c)) as [html |] eqn:Hhtml;
    [| apply ret_returned_inv in H; destruct H; subst; discriminate].
  destruct (toPathFormat (Date_parse (createdAt e))) as [[year month] |] eqn:Hpath;
    [| discriminate].
  apply bind_returned_inv in H. destruct H as (F & w2 & Hens & H).
  apply ensureFolderPath_ensures in Hens. destruct Hens as (Hwalk & Hlater).
  rewrite Hr1 in Hlater.
  apply bind_returned_inv in H. destruct H as (existing & w3 & Hex & H).
  rewrite nodeExists_bench in Hex. inversion Hex; subst existing w3. clear Hex.
  assert (Hcontent2 : usableHtml (contentOf (remote w2) (email_id e)) = Some html)
    by (rewrite (contentOf_later _ Hlater), Hcontent; exact Hhtml).
  destruct (hd_error (filter (child_of (node_id F) (emailFileName e))
                             (nodes (remote w2)))) as [n |] eqn:Hhd.
  - apply ret_returned_inv in H. destruct H; subst. cbn [remote tick].
    split; [| exact Hlater].
    exists html, year, month, F. repeat split; try assumption.
    apply existsb_filter_hd. eauto.
  - apply bind_returned_inv in H. destruct H as (syncedAt & w4 & Hnow & H).
    unfold now in Hnow. inversion Hnow; subst syncedAt w4. clear Hnow.
    set (w3 := tick w2 _) in *.
    destruct (writable (remote w3)) eqn:Hwr.
    + apply bind_returned_inv in H. destruct H as (htmlNode & w5 & Hup & H).
      rewrite uploadFile_bench in Hup
        by (try exact Hwr; cbn [opt_name]; apply fileName_truthy).
      inversion Hup; subst htmlNode w5. clear Hup.
      apply bind_returned_inv in H. destruct H as (metaNode & w6 & Hup & H).
      rewrite uploadFile_bench in Hup
        by (try exact Hwr; cbn [opt_name]; apply fileName_truthy).
      inversion Hup; subst metaNode w6. clear Hup.
      apply ret_returned_inv in H. destruct H; subst.
      cbn [opt_name opt_properties].
      split.
      * exists html, year, month, F.
        unfold grown. cbn [remote nodes with_nodes].
        change (nodes (remote w3)) with (nodes (remote w2)).
        split; [| split; [exact Hpath | split]].
        -- exact Hcontent2.
        -- apply walk_appended. apply walk_appended. exact Hwalk.
        -- rewrite !existsb_app. unfold fileNode. cbn [existsb].
           rewrite child_of_refl. rewrite !orb_true_r. reflexivity.
      * eapply later_trans; [exact Hlater |].
        eapply later_trans; [apply (later_tick w2) |].
        eapply later_trans; apply later_grown.
    + apply bind_returned_inv in H. destruct H as (htmlNode & w5 & Hup & H).
      exfalso. eapply uploadFile_refused; eassumption.
Qed.

(** An archived email is found again, and nothing is created. *)
Lemma processEmail_found e (w : World Store) :
  Archived config e (remote w) ->
  exists n w',
    processEmail config e w =
      (Returned {| success := true; node := Some n |}, w') /\
    In n (nodes (remote w)) /\
    Idle w w'.
Proof.
  intros (html & year & month & F & Hu & Hp & Hw & Hc).
  destruct (getEmailContent_bench (email_id e) w)
    as (w1 & Hc1 & Hr1 & Hclock1 & Hsent1).
  rewrite <- Hr1 in Hw, Hc.
  destruct (ensureFolderPath_found config _ w1 Hw) as (w2 & Hens & Hidle2).
  apply existsb_filter_hd in Hc. destruct Hc as (n & Hn).
  exists n, (tick w2 (GetChildren (node_id F) (emailFileName e))).
  split; [| split].
  - unfold processEmail. apply try_catch_returned.
    erewrite bind_returned by exact Hc1.
    destruct (contentOf (remote w) (email_id e)) as [c |]; [| discriminate].
    rewrite Hu, Hp.
    erewrite bind_returned by exact Hens.
    erewrite bind_returned by apply nodeExists_bench.
    destruct Hidle2 as (Hr2 & _). rewrite Hr2, Hn. reflexivity.
  - rewrite <- Hr1.
    assert (Hin : In n (filter (child_of (node_id F) (emailFileName e))
                               (nodes (remote w1)))).
    { destruct (filter _ _); simpl in Hn; [discriminate |].
      injection Hn as ->. left. reflexivity. }
    apply filter_In in Hin. apply Hin.
  - eapply idle_trans; [split; [exact Hr1 | split; [exact Hclock1 | exact Hsent1]] |].
    eapply idle_trans; [exact Hidle2 |]. apply idle_tick. reflexivity.
Qed.

End BenchItems.

Section BenchBatch.
Context {P : Platform}.
Variable config : Config.

Lemma processItems_failed_mono batch acc (w : World Store) b w' :
  processItems config batch acc w = (Returned b, w') ->
  failed acc <= failed b.
Proof.
  intros H.
  destruct (processItems_visits config batch acc w) as (results & w2 & Hv & Hp).
  rewrite Hp in H. inversion H; subst.
  destruct (@tally_counts batch results acc (Visits_length Hv) (Visits_nodes Hv))
    as (Hf & _). lia.
Qed.

Lemma classify_failed acc email r :
  failed (classify acc email r) = failed acc -> success r = true.
Proof.
  unfold classify. destruct (success r); [reflexivity |].
  simpl. lia.
Qed.

Lemma classify_failed_le acc email r : failed acc <= failed (classify acc email r).
Proof.
  unfold classify. destruct (success r); [destruct (node r) |]; simpl; lia.
Qed.

(** A batch without failure leaves every one of its emails archived. *)
Lemma processItems_archives batch : forall acc (w : World Store) b w',
  processItems config batch acc w = (Returned b, w') ->
  failed b = failed acc ->
  Forall (fun e => Archived config e (remote w')) batch /\
  Later (remote w) (remote w').
Proof.
  induction batch as [| email rest IH]; intros acc w b w' H Hf.
  - simpl in H. unfold ret in H. inversion H; subst.
    split; [constructor | apply later_refl].
  - simpl in H.
    apply bind_returned_inv in H. destruct H as (r & w1 & Hr & H).
    apply bind_returned_inv in H. destruct H as (u & w2 & Ht & H).
    pose proof (processItems_failed_mono _ _ _ H) as Hmono.
    pose proof (classify_failed_le acc email r) as Hle.
    assert (Hsame : failed (classify acc email r) = failed acc) by lia.
    pose proof (classify_failed _ _ _ Hsame) as Hsucc.
    destruct (processEmail_archives _ _ _ Hr Hsucc) as (Harch & Hl1).
    destruct (@idle_setTimeout 100 w1 ltac:(lia)) as (w2' & Ht' & (Hr2 & _) & _).
    rewrite Ht in Ht'. inversion Ht'; subst w2'. clear Ht'.
    destruct (IH _ _ _ _ H ltac:(lia)) as (Hrest & Hl2).
    rewrite Hr2 in Hl2.
    split.
    + constructor; [eapply archived_later; eassumption | exact Hrest].
    + eapply later_trans; eassumption.
Qed.

(** A batch of archived emails finds them all and creates nothing. *)
Lemma processItems_found batch : forall acc (w : World Store),
  Forall (fun e => Archived config e (remote w)) batch ->
  exists w',
    processItems config batch acc w =
      (Returned {| processed := processed acc + Z.of_nat (List.length batch);
                   failed := failed acc; skipped := skipped acc;
                   failedIds := failedIds acc |}, w') /\
    Idle w w'.
Proof.
  induction batch as [| email rest IH]; intros acc w Hall.
  - exists w. split; [| apply idle_refl].
    simpl. rewrite Z.add_0_r. destruct acc; reflexivity.
  - inversion Hall as [| ? ? He Hrest]; subst.
    destruct (processEmail_found _ He) as (n & w1 & Hr & _ & Hidle1).
    destruct (@idle_setTimeout 100 w1 ltac:(lia)) as (w2 & Ht & Hidle2 & _).
    assert (Hrest2 : Forall (fun e => Archived config e (remote w2)) rest).
    { destruct Hidle1 as (Hr1 & _). destruct Hidle2 as (Hr2 & _).
      rewrite Hr2, Hr1. exact Hrest. }
    destruct (IH (classify acc email {| success := true; node := Some n |})
                 w2 Hrest2) as (w' & Hrun & Hidle3).
    exists w'. split.
    + cbn [processItems]. erewrite bind_returned by exact Hr.
      erewrite bind_returned by exact Ht. rewrite Hrun.
      unfold classify. cbn [success node processed failed skipped failedIds].
      do 2 f_equal. f_equal. cbn [List.length]. lia.
    + eapply idle_trans; [exact Hidle1 |].
      eapply idle_trans; eassumption.
Qed.

(** ** The marker in the store *)

Lemma filter_hd_in (A : Type) (f : A -> bool) l n :
  hd_error (filter f l) = Some n -> In n l /\ f n = true.
Proof.
  intros H. apply filter_In.
  destruct (filter f l); simpl in H; [discriminate |].
  injection H as ->. left. reflexivity.
Qed.

Lemma find_by_id n l :
  In n l ->
  exists m, find (fun x => String.eqb (node_id x) (node_id n)) l = Some m.
Proof.
  intros Hin.
  destruct (find (fun x => String.eqb (node_id x) (node_id n)) l) as [m |] eqn:Hf;
    [eauto |].
  apply find_none with (x := n) in Hf; [| exact Hin].
  rewrite String.eqb_refl in Hf. discriminate.
Qed.

Lemma filter_map_same (A : Type) (f : A -> bool) g l :
  (forall x, f (g x) = f x) -> filter f (map g l) = map g (filter f l).
Proof.
  intros Hfg. induction l as [| a l IH]; simpl; [reflexivity |].
  rewrite Hfg. destruct (f a); simpl; rewrite IH; reflexivity.
Qed.

Lemma hd_error_map (A B : Type) (g : A -> B) l :
  hd_error (map g l) = option_map g (hd_error l).
Proof. destruct l; reflexivity. Qed.

Lemma get_marker timestamp old :
  Js.get stateProperty ([(stateProperty, Js.VString timestamp)] ++ old)
  = Js.VString timestamp.
Proof. reflexivity. Qed.

(** In a writable store whose base path resolves, [saveSyncState]
    leaves the timestamp where [loadSyncState] finds it; if the marker
    file was there, no node is created. *)
Lemma saveSyncState_bench timestamp (w : World Store) root :
  writable (remote w) = true ->
  resolve (nodes (remote w)) (basePath config) = Some root ->
  Js.truthy timestamp = true ->
  exists w',
    saveSyncState config timestamp w = (Returned tt, w') /\
    Later (remote w) (remote w') /\
    loadedState config (remote w') = markerState timestamp /\
    (markerNode config (remote w) <> None ->
     List.length (nodes (remote w')) = List.length (nodes (remote w)) /\
     Extends creates_nothing w w').
Proof.
  intros Hw Hroot Ht.
  unfold saveSyncState, getRootNodeId, markerNode.
  unfold try_catch at 1. unfold bind at 1. unfold bind at 1.
  rewrite getNodeByPath_bench, Hroot.
  unfold ret at 1. unfold bind at 1. rewrite nodeExists_bench.
  cbn [remote tick].
  set (w2 := tick (tick w _) _).
  assert (Hidle : Idle w w2).
  { eapply idle_trans; apply idle_tick; reflexivity. }
  set (properties := [(stateProperty, Js.VString timestamp)]).
  destruct (hd_error (filter (child_of (node_id root) stateFileName)
                             (nodes (remote w)))) as [n |] eqn:Hhd.
  - destruct (filter_hd_in _ _ Hhd) as (Hin & Hchild).
    destruct (find_by_id n _ Hin) as (m & Hfind).
    unfold bind at 1. unfold updateNodeProperties, perform.
    cbn [alfresco_putProperties store_remote].
    change (remote w2) with (remote w). rewrite Hw, Hfind.
    unfold answer, ret.
    eexists. split; [reflexivity |]. cbn [remote nodes with_nodes].
    set (g := set_properties (node_id n) properties).
    assert (Hg : forall x, skel (g x) = skel x)
      by (intros x; apply set_properties_skel).
    assert (Hgrows : Grows (nodes (remote w)) (map g (nodes (remote w))))
      by (apply grows_map; exact Hg).
    split; [| split].
    + unfold Later. cbn [pages contents writable latency nodes with_nodes].
      repeat split; try reflexivity. exact Hgrows.
    + unfold loadedState. cbn [nodes with_nodes]. unfold resolve in *.
      destruct (walk_grows Hgrows _ rootNode rootNode eq_refl Hroot)
        as (root' & Hroot' & Hid).
      rewrite Hroot', Hid.
      rewrite filter_map_same
        by (intros x; apply child_of_skel; apply Hg).
      rewrite hd_error_map, Hhd. cbn [option_map].
      unfold g, set_properties. rewrite String.eqb_refl.
      cbn [node_properties]. unfold properties.
      rewrite get_marker. cbn [Js.value_truthy]. rewrite Ht.
      reflexivity.
    + intros _. split; [apply length_map |].
      destruct Hidle as (_ & Hc & d & Hd & Hall).
      unfold Extends. cbn [clock sent].
      pose proof (N2Z.is_nonneg (latency (remote w2))).
      split; [lia |].
      exists (d ++ [PutProperties (node_id n) properties]).
      split; [rewrite Hd, app_assoc; reflexivity |].
      apply Forall_app. split; [exact Hall | repeat constructor].
  - unfold bind at 1.
    rewrite uploadFile_bench by (try exact Hw; reflexivity).
    unfold ret. eexists. split; [reflexivity |].
    unfold grown. cbn [remote nodes with_nodes opt_name opt_properties].
    change (remote w2) with (remote w).
    split; [| split].
    + unfold Later. cbn [pages contents writable latency nodes with_nodes].
      repeat split; try reflexivity. apply grows_app.
    + unfold loadedState. cbn [nodes with_nodes]. unfold resolve in *.
      rewrite (walk_appended _ _ _ _ Hroot).
      rewrite filter_app.
      destruct (filter (child_of (node_id root) stateFileName)
                       (nodes (remote w))); [| discriminate].
      cbn [List.app filter]. unfold fileNode. rewrite child_of_refl.
      cbn [List.app filter hd_error node_properties]. unfold properties.
      change (Js.get stateProperty [(stateProperty, Js.VString timestamp)])
        with (Js.VString timestamp).
      cbn [Js.value_truthy]. rewrite Ht. reflexivity.
    + intros Hne. contradiction Hne. reflexivity.
Qed.

End BenchBatch.

(* ================================================================== *)
(** * Lower bounds, filters and the marker *)
(* ================================================================== *)

Section Idempotence.
Context {P : Platform} {L : PlatformLaws P}.
Variable config : Config.

Lemma modifiedSince_mono since1 since2 e :
  since1 <= since2 ->
  modifiedSince (Some since2) e = true -> modifiedSince (Some since1) e = true.
Proof.
  intros Hle. rewrite !modifiedSince_spec.
  intros (t & Ht & H2). exists t. split; [exact Ht | lia].
Qed.

Lemma filter_filter_implied (A : Type) (f g : A -> bool) l :
  (forall x, f x = true -> g x = true) -> filter f (filter g l) = filter f l.
Proof.
  intros Hfg. induction l as [| a l IH]; simpl; [reflexivity |].
  destruct (g a) eqn:Hg; simpl.
  - rewrite IH. reflexivity.
  - destruct (f a) eqn:Hf; [| exact IH].
    apply Hfg in Hf. congruence.
Qed.

Lemma Forall_filter_keeps (A : Type) (Q : A -> Prop) f l :
  Forall Q l -> Forall Q (filter f l).
Proof.
  induction 1 as [| a l Ha Hl IH]; simpl; [constructor |].
  destruct (f a); [constructor; assumption | exact IH].
Qed.

Lemma length_filter_le (A : Type) (f : A -> bool) l :
  (List.length (filter f l) <= List.length l)%nat.
Proof.
  induction l as [| a l IH]; simpl; [lia |].
  destruct (f a); simpl; lia.
Qed.

Lemma loadedState_marker s timestamp :
  loadedState config s = markerState timestamp ->
  (exists root, resolve (nodes s) (basePath config) = Some root) /\
  markerNode config s <> None.
Proof.
  unfold loadedState, markerNode, markerState, noSyncState.
  destruct (resolve (nodes s) (basePath config)) as [root |]; [| discriminate].
  destruct (hd_error _) as [n |]; [| discriminate].
  intros _. split; [eauto | discriminate].
Qed.

End Idempotence.

Section WorkedRuns.
Import Examples.

Lemma firstRun_eq : sync (P := epoch) config 5 (world newYear store) = firstRun.
Proof. vm_compute. reflexivity. Qed.

Lemma soundRun_eq :
  sync (P := epoch) config 5 (world newYear soundStore) = soundRun.
Proof. vm_compute. reflexivity. Qed.

Lemma readOnlyFetch_eq :
  fetchCandidates (P := epoch) config 5 (world newYear readOnlyStore)
  = readOnlyFetch.
Proof. vm_compute. reflexivity. Qed.

Lemma readOnlyBatch_eq :
  processBatch (P := epoch) config [campaign] (batchSize config)
               (snd readOnlyFetch)
  = readOnlyBatch.
Proof. vm_compute. reflexivity. Qed.

Lemma epoch_laws : PlatformLaws epoch.
Proof.
  split.
  - intros t. cbn [Date_parse Date_toISOString epoch]. unfold Js.string_of_Z.
    rewrite NilZero.isi.
    + rewrite DecimalZ.of_to. reflexivity.
    + destruct t; simpl; try discriminate.
      intros H. injection H as H. revert H. apply Unsigned.to_uint_nonnil.
    + destruct t; simpl; try discriminate.
      intros H. injection H as H. revert H. apply Unsigned.to_uint_nonnil.
  - intros t. apply string_of_Z_truthy.
  - intros t t' n Hle. cbn [subDays epoch]. lia.
Qed.

End WorkedRuns.

(** C1 at work: the run over [Examples.store] started at [newYear],
    ended more than 100 ms later, and its last request wrote
    [newYear] into the marker. *)
Lemma marker_is_start_instant_witness :
  exists r w' before,
    sync (P := Bench.epoch) Examples.config 5
         (Bench.world Examples.newYear Examples.store) = (Returned r, w') /\
    startTime r = Examples.newYear /\
    startTime r + 100 <= endTime r /\
    Forall (fun c => marker_written c = Js.VUndefined) before /\
    sent w' =
      before ++
      [GetRelativePath "/Company Home/Marketo Emails";
       GetChildren "archive" ".sync-state.json";
       PostFile "archive" ".sync-state.json" ".sync-state.json"
                (SyncStateJson "1704067200000")
                [("mkto:lastSyncTimestamp",
                  Js.VString "1704067200000")]].
Proof.
  pose proof firstRun_eq as H. unfold Examples.firstRun in H.
  destruct (marker_is_start_instant (P := Bench.epoch) Examples.config 5 _ H)
    as (Hs & He & emails & w1 & b & w2 & before & Hf & Hb & Hsent & Hq & Hlog).
  - reflexivity.
  - vm_compute in Hf. injection Hf as <- <-.
    vm_compute in Hb. injection Hb as <- <-.
    eexists _, _, before. split; [exact H |].
    split; [exact Hs |]. split; [exact He |]. split; [exact Hq |].
    vm_compute in Hsent. subst before.
    vm_compute in Hlog. exact Hlog.
Defined.


(** C3 at work: three candidates, the second of which has no body. *)
Lemma batch_contains_failures_witness :
  0 < 50 /\
  exists results result w',
    processBatch (P := Bench.epoch) Examples.config
                 [Examples.campaign; Examples.bodiless; Examples.loose] 50
                 (Bench.world Examples.newYear Examples.store)
      = (Returned result, w') /\
    Visits (P := Bench.epoch) Examples.config
           [Examples.campaign; Examples.bodiless; Examples.loose]
           (Bench.world Examples.newYear Examples.store) results w' /\
    List.length results = 3%nat /\
    failed result =
      Z.of_nat (List.length
                  (failures [Examples.campaign; Examples.bodiless; Examples.loose]
                            results)) /\
    failedIds result =
      map email_id
          (failures [Examples.campaign; Examples.bodiless; Examples.loose] results) /\
    processed result =
      3 - Z.of_nat (List.length
                      (failures [Examples.campaign; Examples.bodiless; Examples.loose]
                                results)).
Proof.
  split; [reflexivity |].
  apply (batch_contains_failures (P := Bench.epoch) Examples.config
           [Examples.campaign; Examples.bodiless; Examples.loose]
           (Bench.world Examples.newYear Examples.store)
           (b := 50)).
  reflexivity.
Defined.

(** The claim C3 as it was stated fails for a batch size that is not
    positive.  The environment [Samples.zeroBatch] loads, with a batch
    size of zero; with that size the batch loop over three candidates
    never gets past its first, empty, slice: however many turns it is
    given it returns no result, and neither does the run. *)
Lemma zero_batch_size_never_returns :
  (exists c,
      Settings.loadConfig Samples.zeroBatch = inr c /\
      batchSize (engineConfig c) = batchSize Samples.stuckConfig) /\
  batchSize Samples.stuckConfig = 0 /\
  (forall turns,
      fst (processBatch_loop (P := Bench.epoch) Samples.stuckConfig turns
             [Examples.campaign; Examples.bodiless; Examples.loose]
             0 0 emptyBatch
             (Bench.world Examples.newYear Examples.store)) = Diverged) /\
  fst (processBatch (P := Bench.epoch) Samples.stuckConfig
         [Examples.campaign; Examples.bodiless; Examples.loose] 0
         (Bench.world Examples.newYear Examples.store)) = Diverged /\
  fst (sync (P := Bench.epoch) Samples.stuckConfig 5
            (Bench.world Examples.newYear Examples.store)) = Diverged.
Proof.
  split; [eexists; split; vm_compute; reflexivity |].
  split; [reflexivity |].
  split; [| split; vm_compute; reflexivity].
  intros turns. apply processBatch_loop_stuck; [lia | discriminate | lia].
Qed.



(** C6 at work. *)
Lemma sync_counters_add_up_witness :
  exists r w',
    sync (P := Bench.epoch) Examples.config 5
         (Bench.world Examples.newYear Examples.store) = (Returned r, w') /\
    totalEmails r = 3 /\
    totalEmails r = processedEmails r + failedEmails r + skippedEmails r.
Proof.
  pose proof firstRun_eq as H. unfold Examples.firstRun in H.
  eexists _, _. split; [exact H |]. split; [reflexivity |].
  exact (sync_counters_add_up (P := Bench.epoch) Examples.config 5 _ H).
Defined.




(** C9 at work: the repository refuses every write, the save of the
    marker included; the run returns all the same. *)
Lemma save_failure_is_contained_witness :
  exists r w3,
    sync (P := Bench.epoch) Examples.config 5
         (Bench.world Examples.newYear Examples.readOnlyStore) = (Returned r, w3) /\
    failedEmails r = 1 /\
    Bench.nodes (remote w3) = Bench.nodes Examples.readOnlyStore.
Proof.
  pose proof readOnlyFetch_eq as Hfetch.
  unfold Examples.readOnlyFetch in Hfetch.
  pose proof readOnlyBatch_eq as Hbatch.
  unfold Examples.readOnlyBatch, Examples.readOnlyFetch in Hbatch.
  cbn [snd] in Hbatch.
  destruct (save_failure_is_contained (P := Bench.epoch) Examples.config 5 _
              Hfetch ltac:(discriminate) Hbatch)
    as (_ & r & w3 & Hsync & Hsave & _ & _ & Hfailed & _).
  exists r, w3. split; [exact Hsync |]. split; [exact Hfailed |].
  vm_compute in Hsave. injection Hsave as <-. reflexivity.
Defined.

(** C10 at work. *)
Lemma sync_never_skips_witness :
  exists r w',
    sync (P := Bench.epoch) Examples.config 5
         (Bench.world Examples.newYear Examples.store) = (Returned r, w') /\
    processedEmails r = 2 /\
    skippedEmails r = 0.
Proof.
  pose proof firstRun_eq as H. unfold Examples.firstRun in H.
  eexists _, _. split; [exact H |]. split; [reflexivity |].
  exact (proj1 (sync_never_skips (P := Bench.epoch) Examples.config 5 _ H)).
Defined.

(* ================================================================== *)
(** * What each phase may send *)
(* ================================================================== *)

Section Discipline.
Context {P : Platform} {E : Type} {R : Remote E}.
Variable config : Config.
Variable ok : Call -> Prop.
Hypothesis reads_ok : forall c, reads c -> ok c.

Ltac read_call := apply keeps_perform; apply reads_ok; exact I.

Lemma keeps_getNodeByPath path : Keeps ok (getNodeByPath (E := E) path).
Proof.
  unfold getNodeByPath. apply keeps_try_catch.
  - apply keeps_bind; [read_call | auto with engine].
  - intros e. destruct (isNotFoundError e); auto with engine.
Qed.

Lemma keeps_getRootNodeId : Keeps ok (getRootNodeId (E := E) config).
Proof.
  unfold getRootNodeId. apply keeps_bind; [apply keeps_getNodeByPath |].
  intros [n |]; auto with engine.
Qed.

Lemma keeps_nodeExists parentId name :
  Keeps ok (nodeExists (E := E) parentId name).
Proof.
  unfold nodeExists. apply keeps_try_catch.
  - apply keeps_bind; [read_call |].
    intros [| entry rest]; auto with engine.
  - intros e. auto with engine.
Qed.

Lemma keeps_getEmailContent id : Keeps ok (getEmailContent (E := E) id).
Proof.
  unfold getEmailContent. apply keeps_try_catch.
  - apply keeps_bind; [read_call |].
    intros response. destruct (first_result response); [| auto with engine].
    apply keeps_bind; [| auto with engine].
    unfold getEmailById. apply keeps_bind; [read_call | auto with engine].
  - intros e. auto with engine.
Qed.

Lemma keeps_loadSyncState : Keeps ok (loadSyncState config).
Proof.
  unfold loadSyncState. apply keeps_try_catch; [| auto with engine].
  apply keeps_bind; [apply keeps_getRootNodeId |].
  intros rootNode. apply keeps_bind; [apply keeps_nodeExists |].
  intros [n |]; [| auto with engine].
  destruct (node_properties n); [| auto with engine].
  destruct (Js.value_truthy _); auto with engine.
Qed.

Lemma keeps_toISOString date : Keeps ok (toISOString (E := E) date).
Proof. destruct date; simpl; auto with engine. Qed.

Lemma keeps_sinceDateOf st : Keeps ok (sinceDateOf (E := E) config st).
Proof.
  unfold sinceDateOf. destruct (lastSyncTimestamp st).
  - apply keeps_bind; [apply keeps_toISOString | auto with engine].
  - apply keeps_bind.
    + unfold getDaysAgo. apply keeps_bind; auto with engine.
    + intros d. apply keeps_bind; [apply keeps_toISOString | auto with engine].
Qed.

Lemma keeps_getEmailsSince_loop fuel : forall since offset allEmails,
  Keeps ok (getEmailsSince_loop (E := E) fuel since offset allEmails).
Proof.
  induction fuel as [| fuel IH]; intros since offset allEmails; simpl.
  - auto with engine.
  - apply keeps_bind; [unfold getEmails; read_call |].
    intros response.
    destruct (list_success response); [| auto with engine].
    destruct (list_result response); [| auto with engine].
    destruct (strictly_true _); [apply IH | auto with engine].
Qed.

Lemma keeps_fetchCandidates fuel : Keeps ok (fetchCandidates config fuel).
Proof.
  unfold fetchCandidates. apply keeps_bind; [apply keeps_loadSyncState |].
  intros st. apply keeps_bind; [apply keeps_sinceDateOf |].
  intros since. unfold getEmailsSince.
  apply keeps_bind; [apply keeps_toISOString |].
  intros _. apply keeps_getEmailsSince_loop.
Qed.

(** The folder loop asks about paths and creates folders named by the
    parts it is given. *)
Lemma keeps_ensureFolderPath_loop parts :
  (forall parentId part, In part parts -> ok (PostFolder parentId part)) ->
  forall currentPath currentNode,
    Keeps ok (ensureFolderPath_loop (E := E) parts currentPath currentNode).
Proof.
  induction parts as [| part rest IH]; intros Hparts currentPath currentNode;
    simpl.
  - auto with engine.
  - apply keeps_bind; [apply keeps_getNodeByPath |].
    intros found. apply keeps_bind.
    + destruct found; [auto with engine |].
      unfold createFolder. apply keeps_perform. apply Hparts. left. reflexivity.
    + intros n. apply IH. intros parentId p Hin. apply Hparts. right. exact Hin.
Qed.

Lemma keeps_ensureFolderPath path :
  (forall parentId part,
      In part (Js.path_parts path) -> ok (PostFolder parentId part)) ->
  Keeps ok (ensureFolderPath (E := E) config path).
Proof.
  intros Hparts.
  unfold ensureFolderPath. apply keeps_bind; [apply keeps_getNodeByPath |].
  intros [root |]; [apply keeps_ensureFolderPath_loop; exact Hparts |
                    auto with engine].
Qed.

End Discipline.

Section FolderLog.
Context {E : Type} {R : Remote E}.
Variable config : Config.

Lemma getNodeByPath_sent path (w : World E) :
  sent (snd (getNodeByPath path w)) = sent w ++ [GetRelativePath path].
Proof.
  unfold getNodeByPath, try_catch, bind, perform, ret, throw.
  destruct (alfresco_relativePath path (remote w)) as [[[err | n] e] dt];
    [destruct (isNotFoundError err) |]; reflexivity.
Qed.

Lemma createFolder_sent parentId name (w : World E) :
  sent (snd (createFolder parentId name w)) = sent w ++ [PostFolder parentId name].
Proof.
  unfold createFolder, perform.
  destruct (alfresco_postFolder parentId name (remote w)) as [[r e] dt].
  reflexivity.
Qed.

Lemma ensureFolderPath_loop_log all parts :
  incl parts all ->
  forall currentPath currentNode (w : World E),
  exists d,
    sent (snd (ensureFolderPath_loop parts currentPath currentNode w))
      = sent w ++ d /\
    Forall (builds all) d /\
    (List.length (filter creates d) <= List.length parts)%nat.
Proof.
  induction parts as [| part rest IH]; intros Hincl currentPath currentNode w.
  - exists []. simpl. rewrite app_nil_r. repeat split; [constructor | lia].
  - assert (Hpart : In part all) by (apply Hincl; left; reflexivity).
    assert (Hrest : incl rest all)
      by (intros x Hx; apply Hincl; right; exact Hx).
    specialize (IH Hrest).
    cbn [ensureFolderPath_loop]. unfold bind at 1.
    pose proof (getNodeByPath_sent (currentPath ++ "/" ++ part) w) as Hs.
    destruct (getNodeByPath (currentPath ++ "/" ++ part) w)
      as [[found | e |] w1]; cbn [snd] in Hs.
    + destruct found as [n |].
      * unfold bind at 1, ret at 1.
        destruct (IH (currentPath ++ "/" ++ part)%string n w1)
          as (d & Hd & Hb & Hc).
        exists (GetRelativePath (currentPath ++ "/" ++ part) :: d).
        rewrite Hd, Hs, <- app_assoc. split; [reflexivity |].
        split; [constructor; [exact I | exact Hb] |].
        cbn [filter creates List.length]. lia.
      * unfold bind at 1.
        pose proof (createFolder_sent (node_id currentNode) part w1) as Hs2.
        destruct (createFolder (node_id currentNode) part w1)
          as [[n | e |] w2]; cbn [snd] in Hs2.
        -- destruct (IH (currentPath ++ "/" ++ part)%string n w2)
             as (d & Hd & Hb & Hc).
           exists (GetRelativePath (currentPath ++ "/" ++ part)
                     :: PostFolder (node_id currentNode) part :: d).
           rewrite Hd, Hs2, Hs, <- !app_assoc. split; [reflexivity |].
           split; [repeat constructor; [exact Hpart | exact Hb] |].
           cbn [filter creates List.length]. lia.
        -- exists [GetRelativePath (currentPath ++ "/" ++ part);
                   PostFolder (node_id currentNode) part].
           cbn [snd]. rewrite Hs2, Hs, <- !app_assoc.
           split; [reflexivity |].
           split; [repeat constructor; exact Hpart |].
           cbn [filter creates List.length]. lia.
        -- exists [GetRelativePath (currentPath ++ "/" ++ part);
                   PostFolder (node_id currentNode) part].
           cbn [snd]. rewrite Hs2, Hs, <- !app_assoc.
           split; [reflexivity |].
           split; [repeat constructor; exact Hpart |].
           cbn [filter creates List.length]. lia.
    + exists [GetRelativePath (currentPath ++ "/" ++ part)].
      cbn [snd]. rewrite Hs. split; [reflexivity |].
      split; [repeat constructor |]. cbn [filter creates List.length]. lia.
    + exists [GetRelativePath (currentPath ++ "/" ++ part)].
      cbn [snd]. rewrite Hs. split; [reflexivity |].
      split; [repeat constructor |]. cbn [filter creates List.length]. lia.
Qed.

(** X7.  Whatever the repository answers, [ensureFolderPath] sends
    nothing but path lookups and folder creations; every folder it
    asks for is named by a segment of the path it was given, a segment
    being non-empty and free of slashes; and it asks for at most one
    folder per segment. *)
Theorem ensureFolderPath_builds_its_segments path (w : World E) :
  exists d,
    sent (snd (ensureFolderPath config path w)) = sent w ++ d /\
    Forall (builds (Js.path_parts path)) d /\
    Forall segment (Js.path_parts path) /\
    (List.length (filter creates d) <= List.length (Js.path_parts path))%nat.
Proof.
  unfold ensureFolderPath, bind.
  pose proof (getNodeByPath_sent (basePath config) w) as Hs.
  destruct (getNodeByPath (basePath config) w) as [[[root |] | e |] w1];
    cbn [snd] in Hs.
  - destruct (@ensureFolderPath_loop_log (Js.path_parts path)
                (Js.path_parts path) (incl_refl _) (basePath config) root w1)
      as (d & Hd & Hb & Hc).
    exists (GetRelativePath (basePath config) :: d).
    rewrite Hd, Hs, <- app_assoc. split; [reflexivity |].
    split; [constructor; [exact I | exact Hb] |].
    split; [apply path_parts_segments |].
    cbn [filter creates List.length]. exact Hc.
  - exists [GetRelativePath (basePath config)]. unfold throw. cbn [snd].
    split; [exact Hs |]. split; [repeat constructor |].
    split; [apply path_parts_segments |]. cbn [filter creates List.length]. lia.
  - exists [GetRelativePath (basePath config)]. cbn [snd].
    split; [exact Hs |]. split; [repeat constructor |].
    split; [apply path_parts_segments |]. cbn [filter creates List.length]. lia.
  - exists [GetRelativePath (basePath config)]. cbn [snd].
    split; [exact Hs |]. split; [repeat constructor |].
    split; [apply path_parts_segments |]. cbn [filter creates List.length]. lia.
Qed.

End FolderLog.

Section WriteDiscipline.
Context {P : Platform} {E : Type} {R : Remote E}.
Variable config : Config.

Lemma reads_tidy c : reads c -> tidy c.
Proof. destruct c; simpl; tauto. Qed.

Lemma folderPath_parts email t :
  Js.path_parts (folderPath (format_yyyy t) (format_MM t) email) =
  [format_yyyy t; format_MM t; sanitizedCampaignName email].
Proof.
  unfold folderPath. rewrite !path_parts_append.
  rewrite !path_parts_segment;
    try (apply cleanb_free;
         first [apply addLeadingZeros_cleanb | apply replace_reserved_cleanb]).
  - reflexivity.
  - unfold sanitizedCampaignName, sanitize.
    rewrite replace_class_truthy. apply campaignName_truthy.
  - apply addLeadingZeros_truthy.
  - apply addLeadingZeros_truthy.
Qed.

Lemma tidy_upload parentId fileName content properties :
  cleanb fileName = true -> Js.truthy fileName = true ->
  Keeps tidy (uploadFile (E := E) parentId fileName content
                {| opt_name := fileName; opt_properties := properties |}).
Proof.
  intros Hc Ht. unfold uploadFile. cbn [opt_name opt_properties].
  rewrite Ht. apply keeps_perform. simpl.
  split; [reflexivity |]. split; [apply cleanb_spec; exact Hc | exact Ht].
Qed.

Lemma tidy_processEmail email : Keeps tidy (processEmail config email).
Proof.
  unfold processEmail. apply keeps_try_catch; [| auto with engine].
  apply keeps_bind; [apply keeps_getEmailContent; exact reads_tidy |].
  intros content.
  destruct content as [c |]; [| auto with engine].
  destruct (usableHtml (Some c)) as [html |]; [| auto with engine].
  unfold toPathFormat.
  destruct (Date_parse (createdAt email)) as [t |]; [| auto with engine].
  apply keeps_bind.
  { apply keeps_ensureFolderPath; [exact reads_tidy |].
    intros parentId part Hin. rewrite folderPath_parts in Hin. simpl.
    destruct Hin as [<- | [<- | [<- | []]]].
    - split; [apply cleanb_spec, addLeadingZeros_cleanb
             | apply addLeadingZeros_truthy].
    - split; [apply cleanb_spec, addLeadingZeros_cleanb
             | apply addLeadingZeros_truthy].
    - split; [apply cleanb_spec, replace_reserved_cleanb |].
      unfold sanitizedCampaignName, sanitize.
      rewrite replace_class_truthy. apply campaignName_truthy. }
  intros folderNode.
  apply keeps_bind; [apply keeps_nodeExists; exact reads_tidy |].
  intros [existing |]; [auto with engine |].
  apply keeps_bind; [auto with engine |]. intros syncedAt.
  apply keeps_bind.
  { apply tidy_upload; [apply fileName_cleanb; reflexivity
                       | apply fileName_truthy]. }
  intros htmlNode.
  apply keeps_bind; [| auto with engine].
  apply tidy_upload; [apply fileName_cleanb; reflexivity
                     | apply fileName_truthy].
Qed.

Lemma tidy_processItems batch : forall acc,
  Keeps tidy (processItems config batch acc).
Proof.
  induction batch as [| email rest IH]; intros acc; simpl.
  - auto with engine.
  - apply keeps_bind; [apply tidy_processEmail |].
    intros result. apply keeps_bind; [apply keeps_setTimeout; lia |].
    intros _. apply IH.
Qed.

Lemma tidy_processBatch_loop fuel emails b : forall i acc,
  Keeps tidy (processBatch_loop config fuel emails b i acc).
Proof.
  induction fuel as [| fuel IH]; intros i acc;
    rewrite processBatch_loop_unfold;
    destruct (i <? Z.of_nat (List.length emails)); auto with engine.
  apply keeps_bind; [apply tidy_processItems | intros acc'; apply IH].
Qed.

(** X6.  Whatever the two systems answer, every request that
    [processEmail] sends, and so every request of a batch, is tidy: a
    folder is created under a name that is not empty and has no
    reserved character, a file is uploaded under a name that is not
    empty, has no reserved character and equals the name of the
    uploaded part, and no existing node is updated; meanwhile the clock
    does not go back. *)
Theorem processEmail_sends_tidy_requests email emails b (w : World E) :
  Extends tidy w (snd (processEmail config email w)) /\
  Extends tidy w (snd (processBatch config emails b w)).
Proof.
  split; [apply tidy_processEmail | apply tidy_processBatch_loop].
Qed.

End WriteDiscipline.

Section FetchIsReadOnly.
Context {P : Platform} {E : Type} {R : Remote E}.
Variable config : Config.

Lemma sync_follows_fetch fuel (w : World E) :
  (forall email rest,
      fst (fetchCandidates config fuel w) <> Returned (email :: rest)) ->
  snd (sync config fuel w) = snd (fetchCandidates config fuel w).
Proof.
  intros Hnone. unfold sync, now at 1. unfold bind at 1.
  unfold try_catch, bind at 1.
  destruct (fetchCandidates config fuel w) as [[[| email rest] | e |] w1];
    cbn [fst snd] in *.
  - reflexivity.
  - exfalso. eapply Hnone. reflexivity.
  - reflexivity.
  - reflexivity.
Qed.

(** X4.  A run whose fetch phase does not come back with a candidate
    (it found none, or it failed) has sent nothing but read requests
    when it ends: no folder, no file, and no write of the marker, which
    stays as it was. *)
Theorem run_without_candidates_only_reads fuel (w : World E) :
  (forall email rest,
      fst (fetchCandidates config fuel w) <> Returned (email :: rest)) ->
  Extends reads w (snd (sync config fuel w)) /\
  forall r, fst (sync config fuel w) = Returned r ->
            totalEmails r = 0 /\ processedEmails r = 0 /\ failedEmails r = 0.
Proof.
  intros Hnone. split.
  - rewrite sync_follows_fetch by exact Hnone.
    apply keeps_fetchCandidates. auto.
  - intros r Hr.
    destruct (sync config fuel w) as [o w'] eqn:Hsync. cbn [fst] in Hr. subst o.
    apply sync_returned_inv in Hsync.
    destruct Hsync as (emails & w1 & Hfetch & Ht & _ & _ & [H | H]).
    + destruct H as (-> & _ & Hp & Hf & _). simpl in Ht. auto.
    + destruct H as (Hne & _). rewrite Hfetch in Hnone. cbn [fst] in Hnone.
      destruct emails as [| email rest]; [congruence |].
      exfalso. eapply Hnone. reflexivity.
Qed.

(** X5.  When the stored marker is a value that does not parse as a
    date, the run fails with the RangeError of [toISOString] as soon as
    the marker is loaded: the world is left as the load left it, so no
    listing request is sent and nothing is written, the marker
    included. *)
Theorem unparseable_marker_fails_the_run fuel (w : World E) st w1 v :
  loadSyncState config w = (Returned st, w1) ->
  lastSyncTimestamp st = Some v ->
  Date_of_value v = None ->
  sync config fuel w = (Thrown (Js.RangeError "Invalid time value"), w1).
Proof.
  intros Hload Hv Hd.
  assert (Hfetch : fetchCandidates config fuel w =
                   (Thrown (Js.RangeError "Invalid time value"), w1)).
  { unfold fetchCandidates. erewrite bind_returned by exact Hload.
    unfold sinceDateOf. rewrite Hv, Hd. reflexivity. }
  unfold sync. erewrite bind_returned by reflexivity.
  unfold try_catch. erewrite bind_thrown by exact Hfetch. reflexivity.
Qed.

Lemma processBatch_loop_never_throws fuel emails b : forall i acc (w : World E) e,
  fst (processBatch_loop config fuel emails b i acc w) <> Thrown e.
Proof.
  induction fuel as [| fuel IH]; intros i acc w e;
    rewrite processBatch_loop_unfold;
    destruct (i <? Z.of_nat (List.length emails)); try discriminate.
  destruct (total_processItems config (Js.slice emails i (i + b)) acc w)
    as (acc' & w1 & Hrun).
  erewrite bind_returned by exact Hrun. apply IH.
Qed.

(** X24.  A run throws exactly when its fetch phase throws, and then
    with the same error and in the world the fetch phase left: once
    the candidates are fetched, nothing that happens while they are
    processed or while the marker is saved makes the run fail. *)
Theorem run_fails_only_in_the_fetch_phase fuel (w : World E) e w' :
  sync config fuel w = (Thrown e, w') <->
  fetchCandidates config fuel w = (Thrown e, w').
Proof.
  unfold sync. erewrite bind_returned by reflexivity. unfold try_catch.
  unfold bind at 1.
  destruct (fetchCandidates config fuel w) as [[emails | e1 |] w1] eqn:Hfetch.
  - split; [| discriminate]. destruct emails as [| email rest].
    + unfold bind, now, ret. discriminate.
    + unfold bind at 1.
      pose proof (@processBatch_loop_never_throws
                    (List.length (email :: rest)) (email :: rest)
                    (batchSize config) 0 emptyBatch w1) as Hnever.
      fold (processBatch config (email :: rest) (batchSize config) w1) in Hnever.
      destruct (processBatch config (email :: rest) (batchSize config) w1)
        as [[b | e2 |] w2].
      * erewrite bind_returned by reflexivity.
        destruct (total_saveSyncState config (Date_toISOString (clock w)) w2)
          as ([] & w3 & Hsave).
        erewrite bind_returned by exact Hsave.
        unfold bind, now, ret. discriminate.
      * exfalso. apply (Hnever e2). reflexivity.
      * discriminate.
  - unfold bind, now, throw.
    split; intros H; injection H as <- <-; reflexivity.
  - split; discriminate.
Qed.

Section ContentLog.

(** X25.  [getEmailContent] never throws, whatever Marketo answers:
    it sends the content request, then at most the request for the
    email by id, and it returns a content only when both requests were
    sent. *)
Theorem getEmailContent_asks_at_most_twice id (w : World E) :
  exists content d,
    fst (getEmailContent id w) = Returned content /\
    sent (snd (getEmailContent id w)) = sent w ++ d /\
    (d = [GetContent id] \/ d = [GetContent id; GetEmail id]) /\
    (content <> None -> d = [GetContent id; GetEmail id]).
Proof.
  unfold getEmailContent, getEmailById, try_catch, bind, perform, ret.
  destruct (marketo_content id (remote w)) as [[[err | response] e1] d1];
    cbn [remote sent clock fst snd].
  - exists None, [GetContent id]. repeat split; auto. congruence.
  - destruct (first_result response) as [content |]; cbn [remote sent clock].
    + destruct (marketo_email id e1) as [[[err | found] e2] d2];
        cbn [remote sent clock fst snd]; eexists _, [GetContent id; GetEmail id];
        rewrite <- app_assoc; repeat split; auto.
    + exists None, [GetContent id]. repeat split; auto. congruence.
Qed.

End ContentLog.

End FetchIsReadOnly.

Section BatchSize.
Context {P : Platform} {E : Type} {R : Remote E}.
Variable config : Config.

(** X1.  For any two positive batch sizes [processBatch] behaves the
    same: it returns the same counters and leaves the same world, that
    is the same requests in the same order at the same instants.  The
    batches are processed one after the other, item by item, so the
    batch size decides nothing but the grouping. *)
Theorem batch_size_is_immaterial emails b1 b2 (w : World E) :
  0 < b1 -> 0 < b2 ->
  processBatch config emails b1 w = processBatch config emails b2 w.
Proof.
  intros H1 H2. rewrite !processBatch_sequential by assumption. reflexivity.
Qed.

(** X2.  With a batch size of zero or less and at least one candidate
    the batch loop never ends, however many turns it is given; so a run
    that reaches the batch phase with such a configuration neither
    returns nor fails, and never comes to save the marker. *)
Theorem nonpositive_batch_size_never_ends fuel (w : World E) emails w1 :
  batchSize config <= 0 ->
  fetchCandidates config fuel w = (Returned emails, w1) ->
  emails <> [] ->
  (forall turns acc,
      fst (processBatch_loop config turns emails (batchSize config) 0 acc w1)
      = Diverged) /\
  fst (sync config fuel w) = Diverged.
Proof.
  intros Hb Hfetch Hne.
  assert (Hloop : forall turns acc,
             fst (processBatch_loop config turns emails (batchSize config)
                                    0 acc w1) = Diverged).
  { intros turns acc. apply processBatch_loop_stuck; [exact Hb | exact Hne | lia]. }
  split; [exact Hloop |].
  unfold sync. erewrite bind_returned by reflexivity.
  unfold try_catch. erewrite bind_returned by exact Hfetch.
  destruct emails as [| email rest]; [congruence |].
  unfold bind at 1. unfold processBatch.
  specialize (Hloop (List.length (email :: rest)) emptyBatch).
  destruct (processBatch_loop config (List.length (email :: rest))
              (email :: rest) (batchSize config) 0 emptyBatch w1) as [o w2].
  cbn [fst] in Hloop. subst o. reflexivity.
Qed.

Lemma processItems_pace batch : forall acc (w : World E) b w',
  processItems config batch acc w = (Returned b, w') ->
  clock w + 100 * Z.of_nat (List.length batch) <= clock w'.
Proof.
  induction batch as [| email rest IH]; intros acc w b w' H.
  - simpl in H. unfold ret in H. injection H as _ Hw. subst w'. simpl. lia.
  - cbn [processItems] in H.
    apply bind_returned_inv in H. destruct H as (r & w1 & Hr & H).
    apply bind_returned_inv in H. destruct H as (u & w2 & Ht & H).
    pose proof (quiet_processEmail config email w) as (Hc1 & _).
    rewrite Hr in Hc1. cbn [snd] in Hc1.
    apply setTimeout_clock in Ht. destruct Ht as (Hc2 & _).
    apply IH in H. cbn [List.length]. lia.
Qed.

Lemma sync_duration fuel (w : World E) r w' :
  sync config fuel w = (Returned r, w') ->
  duration r = endTime r - startTime r.
Proof.
  unfold sync. intros H.
  apply bind_returned_inv in H. destruct H as (start & w0 & Hnow & H).
  unfold now in Hnow. inversion Hnow; subst start w0. clear Hnow.
  apply try_catch_returned_inv in H.
  destruct H as [H | (e & w1 & _ & H)];
    [| apply bind_returned_inv in H; destruct H as (? & ? & _ & H);
       discriminate].
  apply bind_returned_inv in H. destruct H as (emails & w1 & Hfetch & H).
  destruct emails as [| email rest].
  - apply bind_returned_inv in H. destruct H as (finish & w2 & Hnow & H).
    unfold ret in H. injection H as Hr Hw. subst r. reflexivity.
  - apply bind_returned_inv in H. destruct H as (b & w2 & Hbatch & H).
    apply bind_returned_inv in H. destruct H as (ts & w3 & Hts & H).
    apply bind_returned_inv in H. destruct H as ([] & w4 & Hsave & H).
    apply bind_returned_inv in H. destruct H as (finish & w5 & Hnow & H).
    unfold ret in H. injection H as Hr Hw. subst r. reflexivity.
Qed.

(** X3.  The duration that a run reports is its end instant minus its
    start instant, and it is at least 100 ms per candidate: the pause
    after each item is taken whether the item succeeded or failed. *)
Theorem run_takes_100ms_per_candidate fuel (w : World E) r w' :
  sync config fuel w = (Returned r, w') ->
  duration r = endTime r - startTime r /\
  100 * totalEmails r <= duration r.
Proof.
  intros H. pose proof (sync_duration _ _ H) as Hd. split; [exact Hd |].
  rewrite Hd. apply sync_returned_inv in H.
  destruct H as (emails & w1 & Hfetch & Ht & Hstart & Hend & Hcases).
  rewrite Ht, Hstart, Hend.
  pose proof (quiet_fetchCandidates config fuel w) as (Hc1 & _).
  rewrite Hfetch in Hc1. cbn [snd] in Hc1.
  destruct Hcases as [(-> & -> & _) | (Hne & b & w2 & Hb & Hsave & _)].
  - simpl. lia.
  - apply processBatch_returned_inv in Hb. apply processItems_pace in Hb.
    destruct (saveSyncState_log config (Date_toISOString (clock w)) w2)
      as (w3 & Hsave' & Hc3 & _).
    rewrite Hsave in Hsave'. inversion Hsave'; subst w3. lia.
Qed.

End BatchSize.

Section ListingLog.
Context {P : Platform} {E : Type} {R : Remote E}.

Lemma listingCalls_step offset n :
  GetEmails offset maxReturn :: listingCalls (offset + maxReturn) n
  = listingCalls offset (S n).
Proof.
  unfold listingCalls. cbn [seq map]. f_equal.
  - f_equal. lia.
  - rewrite <- seq_shift, map_map. apply map_ext. intros k.
    f_equal. lia.
Qed.

Lemma listingCalls_one offset :
  listingCalls offset 1 = [GetEmails offset maxReturn].
Proof.
  unfold listingCalls. cbn [seq map]. do 2 f_equal. lia.
Qed.

Lemma getEmailsSince_loop_log fuel : forall since offset acc (w : World E),
  exists n,
    (n <= fuel)%nat /\
    sent (snd (getEmailsSince_loop fuel since offset acc w))
    = sent w ++ listingCalls offset n.
Proof.
  induction fuel as [| fuel IH]; intros since offset acc w.
  - exists 0%nat. split; [lia |]. simpl. rewrite app_nil_r. reflexivity.
  - cbn [getEmailsSince_loop]. unfold bind at 1, getEmails at 1, perform at 1.
    destruct (marketo_emails offset maxReturn (remote w)) as [[[err | resp] e] dt].
    + exists 1%nat. split; [lia |]. rewrite listingCalls_one. reflexivity.
    + set (w1 := {| clock := clock w + Z.of_N dt;
                    sent := sent w ++ [GetEmails offset maxReturn];
                    remote := e |}).
      destruct (list_success resp);
        [| exists 1%nat; split; [lia | rewrite listingCalls_one; reflexivity]].
      destruct (list_result resp) as [result |];
        [| exists 1%nat; split; [lia | rewrite listingCalls_one; reflexivity]].
      destruct (strictly_true (moreResult resp));
        [| exists 1%nat; split; [lia | rewrite listingCalls_one; reflexivity]].
      destruct (IH since (offset + maxReturn)
                   (acc ++ filter (modifiedSince since) result) w1)
        as (n & Hn & Hs).
      exists (S n). split; [lia |].
      rewrite Hs. subst w1. cbn [sent]. rewrite <- app_assoc.
      cbn [List.app]. rewrite listingCalls_step. reflexivity.
Qed.

(** X14.  Whatever the source answers and however the loop ends, the
    requests that [getEmailsSince] has sent are listing requests and
    nothing else: the first at offset 0, each next one 200 further,
    all with [maxReturn] 200, one per turn of the loop.  With the
    Invalid Date as lower bound it sends none. *)
Theorem listing_requests_step_by_200 fuel since (w : World E) :
  exists n,
    (n <= fuel)%nat /\
    sent (snd (getEmailsSince fuel since w)) =
    sent w ++ map (fun k => GetEmails (200 * Z.of_nat k) 200) (seq 0 n) /\
    (since = None -> n = 0%nat).
Proof.
  unfold getEmailsSince. destruct since as [t |].
  - unfold toISOString. unfold bind at 1, ret at 1.
    destruct (getEmailsSince_loop_log fuel (Some t) 0 [] w) as (n & Hn & Hs).
    exists n. split; [exact Hn |]. split; [| discriminate].
    rewrite Hs. reflexivity.
  - exists 0%nat. split; [lia |]. split; [| reflexivity].
    simpl. rewrite app_nil_r. reflexivity.
Qed.

End ListingLog.

Section ExitCode.
Context {P : Platform} {E : Type} {R : Remote E}.
Variable config : Config.

Lemma sync_failed_ids fuel (w : World E) r w' :
  sync config fuel w = (Returned r, w') ->
  failedEmails r = Z.of_nat (List.length (failedEmailIds r)).
Proof.
  intros H. apply sync_returned_inv in H.
  destruct H as (emails & w1 & _ & _ & _ & _ & [H | H]).
  - destruct H as (_ & _ & _ & -> & _ & ->). reflexivity.
  - destruct H as (_ & b & w2 & Hb & _ & _ & -> & _ & ->).
    apply processBatch_returned_spec in Hb.
    destruct Hb as (results & Hv & ->).
    destruct (@tally_counts emails results emptyBatch
                (Visits_length Hv) (Visits_nodes Hv)) as (Hf & Hi & _).
    rewrite Hf, Hi.
    change (failed emptyBatch) with 0. change (failedIds emptyBatch) with (@nil Z).
    cbn [List.app]. rewrite length_map. lia.
Qed.

(** X15.  Run as a script, the engine exits with code 0 exactly when
    the run returned and counted no failed item, and with code 1 when
    the run threw or counted at least one: the test on the length of
    [failedEmailIds] is a test on [failedEmails]. *)
Theorem exit_code_tells_failures fuel (w : World E) :
  fst (sync config fuel w) <> Diverged ->
  exists code,
    fst (main config fuel w) = Returned code /\
    (code = 0 <->
     exists r, fst (sync config fuel w) = Returned r /\ failedEmails r = 0) /\
    (code = 1 <->
     (exists e, fst (sync config fuel w) = Thrown e) \/
     (exists r, fst (sync config fuel w) = Returned r /\ 0 < failedEmails r)).
Proof.
  intros Hhalt. unfold main, try_catch, bind.
  destruct (sync config fuel w) as [[r | e |] w'] eqn:Hsync; cbn [fst] in *.
  - pose proof (sync_failed_ids _ _ Hsync) as Hf. rewrite <- Hf.
    destruct (0 <? failedEmails r) eqn:Hpos; unfold ret; cbn [fst].
    + apply Z.ltb_lt in Hpos. exists 1. split; [reflexivity |]. split; split.
      * discriminate.
      * intros (r' & Hr & H0). injection Hr as <-. lia.
      * intros _. right. exists r. split; [reflexivity | exact Hpos].
      * reflexivity.
    + apply Z.ltb_ge in Hpos. exists 0. split; [reflexivity |]. split; split.
      * intros _. exists r. split; [reflexivity | lia].
      * reflexivity.
      * discriminate.
      * intros [(e & He) | (r' & Hr & H0)]; [discriminate |].
        injection Hr as <-. lia.
  - exists 1. unfold ret. cbn [fst]. split; [reflexivity |]. split; split.
    + discriminate.
    + intros (r & Hr & _). discriminate.
    + intros _. left. exists e. reflexivity.
    + reflexivity.
  - congruence.
Qed.

End ExitCode.

(* ================================================================== *)
(** * The reference repository only grows *)
(* ================================================================== *)

Create HintDb steady.

Section SteadyFacts.
Context {P : Platform}.
Variable config : Config.

Lemma steady_ret (A : Type) (a : A) : Steady (ret a).
Proof. intros w. apply later_refl. Qed.

Lemma steady_throw (A : Type) e : Steady (throw (A := A) e).
Proof. intros w. apply later_refl. Qed.

Lemma steady_now : Steady now.
Proof. intros w. apply later_refl. Qed.

Lemma steady_bind (A B : Type) (m : M Store A) (k : A -> M Store B) :
  Steady m -> (forall a, Steady (k a)) -> Steady (bind m k).
Proof.
  intros Hm Hk w. unfold bind. specialize (Hm w).
  destruct (m w) as [[a | e |] w1]; cbn [snd] in *; auto.
  eapply later_trans; [exact Hm | apply Hk].
Qed.

Lemma steady_try_catch (A : Type) (m : M Store A) h :
  Steady m -> (forall e, Steady (h e)) -> Steady (try_catch m h).
Proof.
  intros Hm Hh w. unfold try_catch. specialize (Hm w).
  destruct (m w) as [[a | e |] w1]; cbn [snd] in *; auto.
  eapply later_trans; [exact Hm | apply Hh].
Qed.

Lemma steady_perform (A : Type) c (p : Store -> Reply Store A) :
  (forall s, Later s (snd (fst (p s)))) -> Steady (perform c p).
Proof.
  intros Hp w. unfold perform. specialize (Hp (remote w)).
  destruct (p (remote w)) as [[r e] dt]. exact Hp.
Qed.

Lemma steady_setTimeout ms : Steady (setTimeout ms).
Proof. intros w. apply later_refl. Qed.

Lemma later_create s n : Later s (snd (fst (create s n))).
Proof.
  unfold create, refused, answer. destruct (writable s); cbn [fst snd].
  - unfold Later, with_nodes. cbn [pages contents writable latency nodes].
    repeat split; try reflexivity. apply grows_app.
  - apply later_refl.
Qed.

Lemma later_putProperties nodeId properties s :
  Later s (snd (fst (alfresco_putProperties nodeId properties s))).
Proof.
  cbn [alfresco_putProperties store_remote]. unfold refused, answer.
  destruct (writable s); [| apply later_refl].
  destruct (find _ (nodes s)); cbn [fst snd]; [| apply later_refl].
  unfold Later, with_nodes. cbn [pages contents writable latency nodes].
  repeat split; try reflexivity.
  apply grows_map. intros n. apply set_properties_skel.
Qed.

#[local] Hint Resolve steady_ret steady_throw steady_now steady_setTimeout
  : steady.

Ltac steady_read :=
  apply steady_perform; intros s; apply later_refl.

Lemma steady_getNodeByPath path : Steady (getNodeByPath path).
Proof.
  unfold getNodeByPath. apply steady_try_catch.
  - apply steady_bind; [| auto with steady].
    apply steady_perform. intros s. cbn [alfresco_relativePath store_remote].
    destruct (resolve (nodes s) path); apply later_refl.
  - intros e. destruct (isNotFoundError e); auto with steady.
Qed.

Lemma steady_createFolder parentId name : Steady (createFolder parentId name).
Proof.
  unfold createFolder. apply steady_perform. intros s. apply later_create.
Qed.

Lemma steady_uploadFile parentId fileName content options :
  Steady (uploadFile parentId fileName content options).
Proof.
  unfold uploadFile. apply steady_perform. intros s. apply later_create.
Qed.

Lemma steady_nodeExists parentId name : Steady (nodeExists parentId name).
Proof.
  unfold nodeExists. apply steady_try_catch; [| auto with steady].
  apply steady_bind; [steady_read |].
  intros [| entry rest]; auto with steady.
Qed.

Lemma steady_ensureFolderPath_loop parts : forall currentPath currentNode,
  Steady (ensureFolderPath_loop parts currentPath currentNode).
Proof.
  induction parts as [| part rest IH]; intros currentPath currentNode; simpl.
  - auto with steady.
  - apply steady_bind; [apply steady_getNodeByPath |].
    intros found. apply steady_bind.
    + destruct found; [auto with steady | apply steady_createFolder].
    + intros n. apply IH.
Qed.

Lemma steady_ensureFolderPath path : Steady (ensureFolderPath config path).
Proof.
  unfold ensureFolderPath. apply steady_bind; [apply steady_getNodeByPath |].
  intros [root |]; [apply steady_ensureFolderPath_loop | auto with steady].
Qed.

Lemma steady_getEmailContent id : Steady (getEmailContent id).
Proof.
  unfold getEmailContent. apply steady_try_catch; [| auto with steady].
  apply steady_bind; [steady_read |].
  intros response. destruct (first_result response); [| auto with steady].
  apply steady_bind; [| auto with steady].
  unfold getEmailById. apply steady_bind; [steady_read | auto with steady].
Qed.

Lemma steady_processEmail email : Steady (processEmail config email).
Proof.
  unfold processEmail. apply steady_try_catch; [| auto with steady].
  apply steady_bind; [apply steady_getEmailContent |].
  intros content.
  destruct content as [c |]; [| auto with steady].
  destruct (usableHtml (Some c)) as [html |]; [| auto with steady].
  destruct (toPathFormat _) as [[year month] |]; [| auto with steady].
  apply steady_bind; [apply steady_ensureFolderPath |].
  intros folderNode.
  apply steady_bind; [apply steady_nodeExists |].
  intros [existing |]; [auto with steady |].
  apply steady_bind; [auto with steady |]. intros syncedAt.
  apply steady_bind; [apply steady_uploadFile |]. intros htmlNode.
  apply steady_bind; [apply steady_uploadFile | auto with steady].
Qed.

Lemma steady_processItems batch : forall acc,
  Steady (processItems config batch acc).
Proof.
  induction batch as [| email rest IH]; intros acc; simpl.
  - auto with steady.
  - apply steady_bind; [apply steady_processEmail |].
    intros result. apply steady_bind; [auto with steady |].
    intros _. apply IH.
Qed.

Lemma later_resolves s s' path n :
  Later s s' ->
  resolve (nodes s) path = Some n ->
  exists n', resolve (nodes s') path = Some n' /\ node_id n' = node_id n.
Proof.
  intros (_ & _ & _ & _ & Hg) Hr. unfold resolve in *.
  eapply walk_grows; [exact Hg | reflexivity | exact Hr].
Qed.

Lemma later_writable s s' : Later s s' -> writable s' = writable s.
Proof. intros (_ & _ & Hw & _). exact Hw. Qed.

End SteadyFacts.

Section RepositoryRuns.
Context {P : Platform}.
Variable config : Config.

(** X8.  Against a repository that stores what it is sent, a call of
    [ensureFolderPath] that returns leaves the repository in a state
    where the base path followed by the given path resolves to the
    node it returned; and calling it again at once returns the same
    node, leaves the repository as it is and sends no request that
    creates a node. *)
Theorem ensureFolderPath_settles path (w : World Store) F w' :
  ensureFolderPath config path w = (Returned F, w') ->
  walk (nodes (remote w'))
       (Js.path_parts (basePath config) ++ Js.path_parts path) rootNode = Some F /\
  exists w'',
    ensureFolderPath config path w' = (Returned F, w'') /\
    remote w'' = remote w' /\
    Extends creates_nothing w' w''.
Proof.
  intros H. apply ensureFolderPath_ensures in H. destruct H as (Hwalk & _).
  split; [exact Hwalk |].
  destruct (ensureFolderPath_found config path w' Hwalk) as (w'' & Hrun & Hidle).
  exists w''. split; [exact Hrun |]. exact Hidle.
Qed.


(** ** A repository without the base path *)

Lemma ensureFolderPath_rootless path (w : World Store) :
  resolve (nodes (remote w)) (basePath config) = None ->
  ensureFolderPath config path w =
  (Thrown (Js.Error ("Base path does not exist: " ++ basePath config)),
   tick w (GetRelativePath (basePath config))).
Proof.
  intros Hnone. unfold ensureFolderPath.
  erewrite bind_returned by apply getNodeByPath_bench.
  rewrite Hnone. reflexivity.
Qed.

Lemma processEmail_rootless email (w : World Store) :
  resolve (nodes (remote w)) (basePath config) = None ->
  exists w', processEmail config email w = (Returned failure, w') /\ Idle w w'.
Proof.
  intros Hnone. unfold processEmail.
  destruct (getEmailContent_bench (email_id email) w)
    as (w1 & Hc & Hr1 & Hc1 & d1 & Hs1 & Hd1).
  assert (Hidle1 : Idle w w1).
  { split; [exact Hr1 |]. split; [exact Hc1 |]. exists d1. auto. }
  unfold try_catch. erewrite bind_returned by exact Hc.
  destruct (contentOf (remote w) (email_id email)) as [c |];
    [| exists w1; split; [reflexivity | exact Hidle1]].
  destruct (usableHtml (Some c)) as [html |];
    [| exists w1; split; [reflexivity | exact Hidle1]].
  destruct (toPathFormat (Date_parse (createdAt email))) as [[year month] |];
    [| exists w1; split; [reflexivity | exact Hidle1]].
  erewrite bind_thrown
    by (apply ensureFolderPath_rootless; rewrite Hr1; exact Hnone).
  eexists. split; [reflexivity |].
  eapply idle_trans; [exact Hidle1 | apply idle_tick; reflexivity].
Qed.

Lemma processItems_rootless batch : forall acc (w : World Store),
  resolve (nodes (remote w)) (basePath config) = None ->
  exists w',
    processItems config batch acc w =
      (Returned {| processed := processed acc;
                   failed := failed acc + Z.of_nat (List.length batch);
                   skipped := skipped acc;
                   failedIds := failedIds acc ++ map email_id batch |}, w') /\
    Idle w w'.
Proof.
  induction batch as [| email rest IH]; intros acc w Hnone.
  - exists w. split; [| apply idle_refl]. simpl. unfold ret.
    rewrite app_nil_r, Z.add_0_r. destruct acc; reflexivity.
  - destruct (processEmail_rootless email w Hnone) as (w1 & Hrun & Hidle1).
    destruct (@idle_setTimeout 100 w1 ltac:(lia)) as (w2 & Ht & Hidle2 & _).
    assert (Hnone2 : resolve (nodes (remote w2)) (basePath config) = None).
    { rewrite (proj1 Hidle2), (proj1 Hidle1). exact Hnone. }
    destruct (IH (classify acc email failure) w2 Hnone2) as (w3 & Hrest & Hidle3).
    exists w3. split.
    + cbn [processItems].
      erewrite bind_returned by exact Hrun.
      erewrite bind_returned by exact Ht.
      rewrite Hrest. do 2 f_equal.
      unfold classify, failure. cbn [success processed failed skipped failedIds].
      cbn [List.length map]. rewrite <- app_assoc. cbn [List.app].
      f_equal. lia.
    + eapply idle_trans; [exact Hidle1 |].
      eapply idle_trans; [exact Hidle2 | exact Hidle3].
Qed.

Lemma saveSyncState_rootless timestamp (w : World Store) :
  resolve (nodes (remote w)) (basePath config) = None ->
  exists w', saveSyncState config timestamp w = (Returned tt, w') /\ Idle w w'.
Proof.
  intros Hnone. unfold saveSyncState, getRootNodeId, try_catch.
  unfold bind at 1. unfold bind at 1. rewrite getNodeByPath_bench, Hnone.
  unfold throw, ret. eexists. split; [reflexivity |].
  apply idle_tick. reflexivity.
Qed.

(** X9.  When the base path does not resolve in the repository, a run
    that returns has archived nothing: no candidate counts as
    processed, every candidate counts as failed, the failed ids are the
    ids of the candidates in the order they were fetched, and the
    repository, the marker included, is exactly as it was; the run
    itself does not fail. *)
Theorem missing_base_path_fails_every_item fuel (w : World Store) r w' :
  resolve (nodes (remote w)) (basePath config) = None ->
  sync config fuel w = (Returned r, w') ->
  processedEmails r = 0 /\
  failedEmails r = totalEmails r /\
  (exists emails w1,
      fetchCandidates config fuel w = (Returned emails, w1) /\
      failedEmailIds r = map email_id emails) /\
  remote w' = remote w.
Proof.
  intros Hnone H. apply sync_returned_inv in H.
  destruct H as (emails & w1 & Hfetch & Ht & _ & _ & Hcases).
  destruct (fetchCandidates_bench config fuel w Hfetch)
    as (wl & since & pgs & _ & (Hr1 & _) & (Hr2 & _) & _).
  assert (Hsame : remote w1 = remote w) by congruence.
  destruct Hcases
    as [(-> & -> & Hp & Hf & _ & Hi)
       | (Hne & b & w2 & Hb & Hsave & Hp & Hf & _ & Hi)].
  - rewrite Hp, Hf, Ht, Hi. simpl.
    split; [reflexivity |]. split; [reflexivity |]. split; [| exact Hsame].
    exists [], w1. split; [exact Hfetch | reflexivity].
  - apply processBatch_returned_inv in Hb.
    assert (Hnone1 : resolve (nodes (remote w1)) (basePath config) = None)
      by (rewrite Hsame; exact Hnone).
    destruct (processItems_rootless emails emptyBatch w1 Hnone1)
      as (w2' & Hrun & (Hr3 & _)).
    rewrite Hb in Hrun. injection Hrun as Hbres Hw. subst w2' b.
    assert (Hnone2 : resolve (nodes (remote w2)) (basePath config) = None)
      by (rewrite Hr3; exact Hnone1).
    destruct (saveSyncState_rootless (Date_toISOString (clock w)) w2 Hnone2)
      as (w3 & Hsave' & (Hr4 & _)).
    rewrite Hsave in Hsave'. injection Hsave' as Hw. subst w3.
    rewrite Hp, Hf, Ht, Hi. cbn [processed failed failedIds emptyBatch List.app].
    split; [reflexivity |]. split; [reflexivity |]. split; [| congruence].
    exists emails, w1. split; [exact Hfetch | reflexivity].
Qed.

End RepositoryRuns.

Section MarkerRoundTrip.
Context {P : Platform} {L : PlatformLaws P}.
Variable config : Config.

Lemma lowerBound_marker timestamp t :
  lowerBound config (markerState (Date_toISOString timestamp)) t = Some timestamp.
Proof.
  unfold lowerBound, markerState. cbn [lastSyncTimestamp Date_of_value].
  apply parse_toISOString.
Qed.



End MarkerRoundTrip.

(* ================================================================== *)
(** * Two runs in succession *)
(* ================================================================== *)

Section StorableFacts.
Context {P : Platform}.
Variable config : Config.

Lemma storable_resolves e s :
  storable config e s = true ->
  exists root, resolve (nodes s) (basePath config) = Some root.
Proof.
  unfold storable.
  destruct (usableHtml _); [| discriminate].
  destruct (toPathFormat _); [| discriminate].
  destruct (resolve _ _) as [root |]; [eauto | discriminate].
Qed.

(** Once the base path resolves, what is storable stays so and what
    is not stays so, however the repository grows. *)
Lemma storable_rooted s s' root e :
  Later s s' ->
  resolve (nodes s) (basePath config) = Some root ->
  storable config e s' = storable config e s.
Proof.
  intros Hlater Hroot. unfold storable.
  rewrite (contentOf_later _ Hlater), Hroot.
  destruct (later_resolves _ Hlater Hroot) as (root' & -> & _).
  reflexivity.
Qed.

Lemma archived_storable e s : Archived config e s -> storable config e s = true.
Proof.
  intros Harch. destruct (archived_resolves Harch) as (root & Hroot).
  destruct Harch as (html & year & month & F & Hu & Hp & _).
  unfold storable. rewrite Hu, Hp, Hroot. reflexivity.
Qed.

Lemma settled_nil acc s : settled config acc [] s = acc.
Proof.
  unfold settled. cbn [filter List.length map]. rewrite app_nil_r, !Z.add_0_r.
  destruct acc; reflexivity.
Qed.

Lemma settled_cons_stored acc e rest s n :
  storable config e s = true ->
  settled config (classify acc e {| success := true; node := Some n |}) rest s
  = settled config acc (e :: rest) s.
Proof.
  intros Hst. unfold settled, unstorable, classify.
  cbn [success node processed failed skipped failedIds filter].
  rewrite Hst. cbn [negb List.length]. f_equal. lia.
Qed.

Lemma settled_cons_failed acc e rest s :
  storable config e s = false ->
  settled config (classify acc e failure) rest s
  = settled config acc (e :: rest) s.
Proof.
  intros Hst. unfold settled, unstorable, classify, failure.
  cbn [success node processed failed skipped failedIds filter].
  rewrite Hst. cbn [negb List.length map]. rewrite <- app_assoc.
  f_equal. lia.
Qed.

Lemma settled_ext acc batch s s' :
  (forall e, storable config e s' = storable config e s) ->
  settled config acc batch s' = settled config acc batch s.
Proof.
  intros Hsame. unfold settled, unstorable.
  rewrite (filter_ext (fun e => storable config e s')
                      (fun e => storable config e s)) by exact Hsame.
  rewrite (filter_ext (fun e => negb (storable config e s'))
                      (fun e => negb (storable config e s)))
    by (intros e; rewrite Hsame; reflexivity).
  reflexivity.
Qed.

(** ** On a repository that accepts writes *)

Lemma ensureFolderPath_loop_writable parts :
  forall currentPath currentNode (w : World Store),
    writable (remote w) = true ->
    exists F w',
      ensureFolderPath_loop parts currentPath currentNode w = (Returned F, w').
Proof.
  induction parts as [| part rest IH]; intros currentPath currentNode w Hw.
  - eexists _, _. reflexivity.
  - cbn [ensureFolderPath_loop]. unfold bind at 1.
    rewrite getNodeByPath_bench.
    destruct (resolve (nodes (remote w)) (currentPath ++ "/" ++ part))
      as [n |].
    + unfold bind at 1. unfold ret at 1. apply IH. exact Hw.
    + unfold bind at 1. rewrite createFolder_bench by exact Hw.
      apply IH. exact Hw.
Qed.

Lemma ensureFolderPath_writable path (w : World Store) root :
  writable (remote w) = true ->
  resolve (nodes (remote w)) (basePath config) = Some root ->
  exists F w', ensureFolderPath config path w = (Returned F, w').
Proof.
  intros Hw Hroot. unfold ensureFolderPath. unfold bind at 1.
  rewrite getNodeByPath_bench, Hroot.
  apply ensureFolderPath_loop_writable. exact Hw.
Qed.

(** A storable email is archived, or found archived. *)
Lemma processEmail_storable e (w : World Store) :
  writable (remote w) = true ->
  storable config e (remote w) = true ->
  exists n w',
    processEmail config e w =
      (Returned {| success := true; node := Some n |}, w').
Proof.
  intros Hw Hst. unfold storable in Hst.
  destruct (getEmailContent_bench (email_id e) w) as (w1 & Hc & Hr1 & _).
  destruct (contentOf (remote w) (email_id e)) as [c |] eqn:Hcontent;
    [| discriminate].
  destruct (usableHtml (Some c)) as [html |] eqn:Hhtml; [| discriminate].
  destruct (toPathFormat (Date_parse (createdAt e)))
    as [[year month] |] eqn:Hpath; [| discriminate].
  destruct (resolve (nodes (remote w)) (basePath config))
    as [root |] eqn:Hroot; [| discriminate].
  destruct (@ensureFolderPath_writable (folderPath year month e) w1 root)
    as (F & w2 & Hens); [rewrite Hr1; exact Hw | rewrite Hr1; exact Hroot |].
  assert (Hw2 : writable (remote w2) = true).
  { destruct (ensureFolderPath_ensures _ _ _ Hens) as (_ & Hlater).
    rewrite (later_writable Hlater), Hr1. exact Hw. }
  unfold processEmail.
  destruct (hd_error (filter (child_of (node_id F) (emailFileName e))
                             (nodes (remote w2)))) as [n |] eqn:Hhd.
  - eexists n, _. apply try_catch_returned.
    erewrite bind_returned by exact Hc.
    cbv beta iota. rewrite Hhtml, Hpath.
    erewrite bind_returned by exact Hens.
    erewrite bind_returned by apply nodeExists_bench.
    rewrite Hhd. reflexivity.
  - eexists _, _. apply try_catch_returned.
    erewrite bind_returned by exact Hc.
    cbv beta iota. rewrite Hhtml, Hpath.
    erewrite bind_returned by exact Hens.
    erewrite bind_returned by apply nodeExists_bench.
    rewrite Hhd.
    erewrite bind_returned by reflexivity.
    erewrite bind_returned
      by (apply uploadFile_bench;
          [exact Hw2 | cbn [opt_name]; apply fileName_truthy]).
    erewrite bind_returned
      by (apply uploadFile_bench;
          [exact Hw2 | cbn [opt_name]; apply fileName_truthy]).
    reflexivity.
Qed.

(** An email that is not storable fails, and nothing is sent that
    creates a node. *)
Lemma processEmail_unstorable e (w : World Store) :
  storable config e (remote w) = false ->
  exists w', processEmail config e w = (Returned failure, w') /\ Idle w w'.
Proof.
  intros Hst.
  destruct (resolve (nodes (remote w)) (basePath config)) as [root |] eqn:Hroot;
    [| apply processEmail_rootless; exact Hroot].
  unfold storable in Hst. rewrite Hroot in Hst.
  destruct (getEmailContent_bench (email_id e) w)
    as (w1 & Hc & Hr1 & Hc1 & d1 & Hs1 & Hd1).
  assert (Hidle1 : Idle w w1).
  { split; [exact Hr1 |]. split; [exact Hc1 |]. exists d1. auto. }
  unfold processEmail, try_catch. erewrite bind_returned by exact Hc.
  destruct (contentOf (remote w) (email_id e)) as [c |];
    [| exists w1; split; [reflexivity | exact Hidle1]].
  destruct (usableHtml (Some c)) as [html |];
    [| exists w1; split; [reflexivity | exact Hidle1]].
  destruct (toPathFormat (Date_parse (createdAt e))) as [[year month] |];
    [discriminate |].
  exists w1. split; [reflexivity | exact Hidle1].
Qed.

End StorableFacts.

Section SettledBatches.
Context {P : Platform}.
Variable config : Config.

(** A batch on a repository that accepts writes: the storable
    candidates are archived, the others fail, and what is storable
    does not change on the way. *)
Lemma processItems_storable batch : forall acc (w : World Store),
  writable (remote w) = true ->
  exists w',
    processItems config batch acc w
      = (Returned (settled config acc batch (remote w)), w') /\
    Later (remote w) (remote w') /\
    (forall e, storable config e (remote w') = storable config e (remote w)) /\
    Forall (fun e => storable config e (remote w) = true ->
                     Archived config e (remote w')) batch.
Proof.
  induction batch as [| email rest IH]; intros acc w Hw.
  - exists w. rewrite settled_nil.
    split; [reflexivity |]. split; [apply later_refl |].
    split; [reflexivity | constructor].
  - destruct (storable config email (remote w)) eqn:Hst.
    + destruct (processEmail_storable config email w Hw Hst)
        as (n & w1 & Hrun).
      destruct (processEmail_archives _ _ _ Hrun eq_refl) as (Harch & Hlater1).
      destruct (@idle_setTimeout 100 w1 ltac:(lia)) as (w2 & Ht & (Hr2 & _) & _).
      destruct (storable_resolves _ _ _ Hst) as (root & Hroot).
      assert (Hlater2 : Later (remote w) (remote w2))
        by (rewrite Hr2; exact Hlater1).
      assert (Hsame : forall e, storable config e (remote w2)
                                = storable config e (remote w))
        by (intros e; exact (storable_rooted _ e Hlater2 Hroot)).
      destruct (IH (classify acc email {| success := true; node := Some n |}) w2)
        as (w3 & Hrest & Hlater3 & Hsame3 & Hall).
      { rewrite (later_writable Hlater2). exact Hw. }
      exists w3. split; [| split; [| split]].
      * cbn [processItems].
        erewrite bind_returned by exact Hrun.
        erewrite bind_returned by exact Ht.
        rewrite Hrest. erewrite settled_ext by exact Hsame.
        rewrite settled_cons_stored by exact Hst. reflexivity.
      * eapply later_trans; [exact Hlater2 | exact Hlater3].
      * intros e. rewrite Hsame3. apply Hsame.
      * constructor.
        -- intros _. eapply archived_later; [exact Harch |].
           rewrite <- Hr2. exact Hlater3.
        -- eapply Forall_impl; [| exact Hall].
           intros e He Hse. apply He. rewrite Hsame. exact Hse.
    + destruct (processEmail_unstorable config email w Hst)
        as (w1 & Hrun & (Hr1 & _)).
      destruct (@idle_setTimeout 100 w1 ltac:(lia)) as (w2 & Ht & (Hr2 & _) & _).
      assert (Hr : remote w2 = remote w) by congruence.
      destruct (IH (classify acc email failure) w2)
        as (w3 & Hrest & Hlater3 & Hsame3 & Hall).
      { rewrite Hr. exact Hw. }
      rewrite Hr in Hrest, Hlater3, Hsame3, Hall.
      exists w3. split; [| split; [| split]].
      * cbn [processItems].
        erewrite bind_returned by exact Hrun.
        erewrite bind_returned by exact Ht.
        rewrite Hrest. rewrite settled_cons_failed by exact Hst. reflexivity.
      * exact Hlater3.
      * exact Hsame3.
      * constructor; [congruence | exact Hall].
Qed.

(** A batch whose storable candidates are all archived already: each
    of them is found, the others fail, and the repository is left as
    it is. *)
Lemma processItems_settled batch : forall acc (w : World Store),
  Forall (fun e => storable config e (remote w) = true ->
                   Archived config e (remote w)) batch ->
  exists results w',
    Visits config batch w results w' /\
    processItems config batch acc w
      = (Returned (settled config acc batch (remote w)), w') /\
    Idle w w' /\
    Forall2 (fun e result =>
               if storable config e (remote w)
               then AlreadyExists (nodes (remote w)) result
               else result = failure)
            batch results.
Proof.
  induction batch as [| email rest IH]; intros acc w Hall.
  - exists [], w. rewrite settled_nil.
    split; [constructor |]. split; [reflexivity |].
    split; [apply idle_refl | constructor].
  - inversion Hall as [| ? ? Hhead Hrest]; subst.
    assert (Hstep : exists result w1,
               processEmail config email w = (Returned result, w1) /\
               Idle w w1 /\
               settled config (classify acc email result) rest (remote w)
                 = settled config acc (email :: rest) (remote w) /\
               (if storable config email (remote w)
                then AlreadyExists (nodes (remote w)) result
                else result = failure)).
    { destruct (storable config email (remote w)) eqn:Hst.
      - destruct (processEmail_found _ (Hhead eq_refl))
          as (n & w1 & Hrun & Hin & Hidle).
        eexists _, w1. split; [exact Hrun |]. split; [exact Hidle |].
        split; [apply settled_cons_stored; exact Hst |].
        split; [reflexivity |]. exists n. split; [reflexivity | exact Hin].
      - destruct (processEmail_unstorable config email w Hst)
          as (w1 & Hrun & Hidle).
        eexists _, w1. split; [exact Hrun |]. split; [exact Hidle |].
        split; [apply settled_cons_failed; exact Hst | reflexivity]. }
    destruct Hstep as (result & w1 & Hrun & Hidle1 & Hclass & Hres).
    destruct (@idle_setTimeout 100 w1 ltac:(lia)) as (w2 & Ht & Hidle2 & _).
    assert (Hr : remote w2 = remote w)
      by (rewrite (proj1 Hidle2); exact (proj1 Hidle1)).
    destruct (IH (classify acc email result) w2)
      as (results & w3 & Hvisits & Hitems & Hidle3 & Hpairs).
    { rewrite Hr. exact Hrest. }
    rewrite Hr in Hitems, Hpairs.
    exists (result :: results), w3.
    split; [econstructor; eassumption |].
    split; [| split].
    + cbn [processItems].
      erewrite bind_returned by exact Hrun.
      erewrite bind_returned by exact Ht.
      rewrite Hitems, Hclass. reflexivity.
    + eapply idle_trans; [exact Hidle1 |].
      eapply idle_trans; [exact Hidle2 | exact Hidle3].
    + constructor; [exact Hres | exact Hpairs].
Qed.

Lemma length_filter_filter (A : Type) (f g : A -> bool) l :
  (List.length (filter g (filter f l)) <= List.length (filter g l))%nat.
Proof.
  induction l as [| a l IH]; simpl; [lia |].
  destruct (f a), (g a) eqn:Hg; simpl; rewrite ?Hg; simpl; lia.
Qed.

Lemma length_filter_split (A : Type) (f : A -> bool) l :
  (List.length (filter f l) + List.length (filter (fun x => negb (f x)) l)
   = List.length l)%nat.
Proof.
  induction l as [| a l IH]; simpl; [reflexivity |].
  destruct (f a); simpl; lia.
Qed.

Lemma Forall2_impl_in (A B : Type) (Q R : A -> B -> Prop) l l' :
  Forall2 Q l l' ->
  (forall a b, In a l -> Q a b -> R a b) ->
  Forall2 R l l'.
Proof.
  induction 1 as [| a b l l' Hab Hrest IH]; intros Himp; constructor.
  - apply Himp; [left; reflexivity | exact Hab].
  - apply IH. intros a' b' Hin. apply Himp. right. exact Hin.
Qed.

End SettledBatches.

Section RunningTwice.
Context {P : Platform} {L : PlatformLaws P}.
Variable config : Config.

Lemma loadedState_rootless s :
  resolve (nodes s) (basePath config) = None ->
  loadedState config s = noSyncState.
Proof. unfold loadedState. intros ->. reflexivity. Qed.

(** What the counters of a second batch over part of the candidates
    are to those of the first. *)
Lemma settled_again s s' (keep : MarketoEmail -> bool) emails :
  (forall e, storable config e s' = storable config e s) ->
  let first := settled config emptyBatch emails s in
  let second := settled config emptyBatch (filter keep emails) s' in
  failed second <= failed first /\
  incl (failedIds second) (failedIds first) /\
  (forall e, In e (filter keep emails) -> storable config e s' = false ->
             In (email_id e) (failedIds first)) /\
  (failed first = 0 ->
   failed second = 0 /\
   processed second = Z.of_nat (List.length (filter keep emails)) /\
   forall e, In e (filter keep emails) -> storable config e s' = true).
Proof.
  intros Hsame. cbv zeta.
  erewrite settled_ext by exact Hsame.
  unfold settled, emptyBatch. cbn [processed failed skipped failedIds List.app].
  pose proof (length_filter_filter keep (fun e => unstorable config e s) emails)
    as Hle.
  assert (Hin : forall e, In e (filter keep emails) ->
                          storable config e s' = false ->
                          In (email_id e)
                             (map email_id
                                  (filter (fun e => unstorable config e s) emails))).
  { intros e He Hst. apply in_map. apply filter_In.
    apply filter_In in He. split; [apply He |].
    unfold unstorable. rewrite <- Hsame, Hst. reflexivity. }
  split; [lia |]. split; [| split; [exact Hin |]].
  - intros id Hid. apply in_map_iff in Hid. destruct Hid as (e & <- & He).
    apply filter_In in He. destruct He as (He & Hun).
    apply Hin; [exact He |].
    unfold unstorable in Hun. rewrite Hsame.
    destruct (storable config e s); [discriminate | reflexivity].
  - intros Hzero.
    assert (Hnone : List.length (filter (fun e => unstorable config e s)
                                        (filter keep emails)) = 0%nat) by lia.
    split; [lia |]. split.
    + pose proof (length_filter_split (fun e => storable config e s)
                                      (filter keep emails)) as Hsplit.
      unfold unstorable in Hnone. lia.
    + intros e He. rewrite Hsame.
      destruct (storable config e s) eqn:Hst; [reflexivity |].
      assert (Hmem : In e (filter (fun e => unstorable config e s)
                                  (filter keep emails))).
      { apply filter_In. split; [exact He |].
        unfold unstorable. rewrite Hst. reflexivity. }
      destruct (filter (fun e => unstorable config e s) (filter keep emails));
        [destruct Hmem | discriminate].
Qed.

(** The second of two runs, from what the first one left. *)
Lemma second_run fuel (w1 : World Store) emails1 pgs since1 :
  drained fuel (remote w1) 0 = Some pgs ->
  emails1 = filter (modifiedSince (Some since1)) (List.concat pgs) ->
  Forall (fun e => storable config e (remote w1) = true ->
                   Archived config e (remote w1)) emails1 ->
  (forall wl,
      Idle w1 wl ->
      exists since2,
        lowerBound config (loadedState config (remote w1)) (clock wl)
          = Some since2 /\ since1 <= since2) ->
  (emails1 <> [] ->
   0 < batchSize config /\
   (resolve (nodes (remote w1)) (basePath config) = None \/
    writable (remote w1) = true /\
    exists timestamp, loadedState config (remote w1) = markerState timestamp)) ->
  exists since2 r2 w2 results wa wb,
    sync config fuel w1 = (Returned r2, w2) /\
    fetchCandidates config fuel w1
      = (Returned (filter (modifiedSince (Some since2)) emails1), wa) /\
    Visits config (filter (modifiedSince (Some since2)) emails1) wa results wb /\
    Forall2 (fun e result =>
               if storable config e (remote w1)
               then AlreadyExists (nodes (remote w1)) result
               else result = failure)
            (filter (modifiedSince (Some since2)) emails1) results /\
    totalEmails r2 =
      Z.of_nat (List.length (filter (modifiedSince (Some since2)) emails1)) /\
    (let second :=
       settled config emptyBatch
               (filter (modifiedSince (Some since2)) emails1) (remote w1) in
     processedEmails r2 = processed second /\
     failedEmails r2 = failed second /\
     skippedEmails r2 = 0 /\
     failedEmailIds r2 = failedIds second) /\
    Extends creates_nothing w1 w2 /\
    List.length (nodes (remote w2)) = List.length (nodes (remote w1)).
Proof.
  intros Hdr Hemails Harch Hbound Hside.
  destruct (fetchCandidates_bench_run config fuel w1 Hdr)
    as (wl & Hload & Hidle_l & Hfetch).
  destruct (Hbound wl Hidle_l) as (since2 & Hs2 & Hle).
  destruct (Hfetch since2 Hs2) as (wa & Hrun & Hidle_a).
  assert (Hsub : filter (modifiedSince (Some since2)) (List.concat pgs) =
                 filter (modifiedSince (Some since2)) emails1).
  { rewrite Hemails. symmetry. apply filter_filter_implied.
    intros e. apply modifiedSince_mono. exact Hle. }
  rewrite Hsub in Hrun.
  pose proof Hidle_a as (Hra & Hea).
  exists since2.
  destruct (filter (modifiedSince (Some since2)) emails1)
    as [| e rest] eqn:Hemails2.
  - destruct (sync_run_empty config fuel w1 Hrun)
      as (r & Hsync & Ht & Hp & Hf & Hs).
    pose proof (sync_returned_inv _ _ _ Hsync)
      as (emails' & w' & Hfetch' & _ & _ & _ & Hcase).
    rewrite Hrun in Hfetch'. injection Hfetch' as <- <-.
    destruct Hcase as [(_ & _ & _ & _ & _ & Hids) | (Hne & _)]; [| congruence].
    exists r, wa, [], wa, wa. rewrite Ht, Hp, Hf, Hs, Hids, Hra.
    split; [exact Hsync |]. split; [exact Hrun |].
    split; [constructor |]. split; [constructor |].
    split; [reflexivity |]. split; [repeat split; reflexivity |].
    split; [exact Hea | reflexivity].
  - assert (Hne : emails1 <> []) by (intros ->; discriminate).
    destruct (Hside Hne) as (Hb & Hroot).
    assert (Harch2 : Forall (fun x => storable config x (remote wa) = true ->
                                      Archived config x (remote wa))
                            (e :: rest)).
    { rewrite <- Hemails2, Hra. apply Forall_filter_keeps. exact Harch. }
    destruct (@processItems_settled P config _ emptyBatch wa Harch2)
      as (results & wb & Hvisits & Hitems & Hidle_b & Hpairs).
    rewrite Hra in Hitems, Hpairs.
    pose proof Hidle_b as (Hrb & Heb).
    assert (Hbatch : processBatch config (e :: rest) (batchSize config) wa =
                     (Returned (settled config emptyBatch (e :: rest) (remote w1)),
                      wb)).
    { rewrite processBatch_sequential by exact Hb. exact Hitems. }
    destruct (sync_run_nonempty config fuel w1 Hrun ltac:(discriminate) Hbatch)
      as (r & w3 & Hsync & Hsave & Ht & Hp & Hf & Hs & Hids).
    assert (Hsb : remote wb = remote w1) by congruence.
    assert (Hquiet : Extends creates_nothing wb w3 /\
                     List.length (nodes (remote w3))
                     = List.length (nodes (remote w1))).
    { destruct Hroot as [Hnone | (Hw & timestamp & Hmark)].
      - destruct (@saveSyncState_rootless config
                    (Date_toISOString (clock w1)) wb)
          as (w3' & Hsave' & (Hr3 & He3)); [rewrite Hsb; exact Hnone |].
        rewrite Hsave in Hsave'. injection Hsave' as <-.
        split; [exact He3 | rewrite Hr3, Hsb; reflexivity].
      - destruct (@loadedState_marker config _ _ Hmark) as ((root & Hrt) & Hnode).
        destruct (@saveSyncState_bench config
                    (Date_toISOString (clock w1)) wb root)
          as (w3' & Hsave' & _ & _ & Hstill).
        { rewrite Hsb. exact Hw. }
        { rewrite Hsb. exact Hrt. }
        { apply toISOString_truthy. }
        rewrite Hsave in Hsave'. injection Hsave' as <-.
        destruct Hstill as (Hlength & Hext); [rewrite Hsb; exact Hnode |].
        split; [exact Hext | rewrite Hlength, Hsb; reflexivity]. }
    destruct Hquiet as (Hext & Hlength).
    exists r, w3, results, wa, wb. rewrite Ht, Hp, Hf, Hs, Hids.
    split; [exact Hsync |]. split; [exact Hrun |].
    split; [exact Hvisits |]. split; [exact Hpairs |].
    split; [reflexivity |]. split; [repeat split; reflexivity |].
    split; [| exact Hlength].
    eapply extends_trans; [exact Hea |].
    eapply extends_trans; [exact Heb | exact Hext].
Qed.

(** What a run that returned on a repository that accepts writes has
    left behind, as the next run needs it. *)
Lemma first_run fuel (w0 : World Store) r1 w1 :
  sync config fuel w0 = (Returned r1, w1) ->
  writable (remote w0) = true ->
  (forall st wl since,
      loadSyncState config w0 = (Returned st, wl) ->
      lowerBound config st (clock wl) = Some since ->
      since <= clock w0) ->
  exists emails1 pgs since1,
    totalEmails r1 = Z.of_nat (List.length emails1) /\
    failedEmails r1 = failed (settled config emptyBatch emails1 (remote w0)) /\
    failedEmailIds r1
      = failedIds (settled config emptyBatch emails1 (remote w0)) /\
    (forall e, storable config e (remote w1) = storable config e (remote w0)) /\
    drained fuel (remote w1) 0 = Some pgs /\
    emails1 = filter (modifiedSince (Some since1)) (List.concat pgs) /\
    Forall (fun e => storable config e (remote w1) = true ->
                     Archived config e (remote w1)) emails1 /\
    (forall wl,
        Idle w1 wl ->
        exists since2,
          lowerBound config (loadedState config (remote w1)) (clock wl)
            = Some since2 /\ since1 <= since2) /\
    (emails1 <> [] ->
     0 < batchSize config /\
     (resolve (nodes (remote w1)) (basePath config) = None \/
      writable (remote w1) = true /\
      exists timestamp,
        loadedState config (remote w1) = markerState timestamp)).
Proof.
  intros Hrun1 Hw Hahead.
  apply sync_returned_inv in Hrun1.
  destruct Hrun1 as (emails1 & wa & Hfetch & Ht & Hstart & Hend & Hcase).
  apply fetchCandidates_bench in Hfetch.
  destruct Hfetch as (wl & since1 & pgs & Hload & Hidle_l & Hidle_a & Hs1 &
                      Hdr & Hemails).
  pose proof (Hahead _ _ _ Hload Hs1) as Hsince1.
  pose proof Hidle_l as (Hrl & Hcl & _).
  pose proof Hidle_a as (Hra & Hca & _).
  assert (Hra0 : remote wa = remote w0) by congruence.
  exists emails1, pgs, since1. split; [exact Ht |].
  destruct Hcase as [(Hnil & -> & _ & Hf & _ & Hids) |
                     (Hne & b & wb & Hb & Hsave & _ & Hf & _ & Hids)].
  - rewrite Hnil, settled_nil, Hf, Hids, Hra0.
    split; [reflexivity |]. split; [reflexivity |]. split; [reflexivity |].
    split; [exact Hdr |]. split; [rewrite <- Hnil; exact Hemails |].
    split; [constructor |]. split; [| congruence].
    intros wl2 (_ & Hc2 & _).
    unfold lowerBound in *.
    destruct (lastSyncTimestamp (loadedState config (remote w0))) as [v |].
    + exists since1. split; [exact Hs1 | lia].
    + injection Hs1 as <-. eexists. split; [reflexivity |].
      apply subDays_monotone. lia.
  - pose proof (processBatch_positive _ _ _ Hb Hne) as Hpos.
    apply processBatch_returned_inv in Hb.
    assert (Hwa : writable (remote wa) = true) by (rewrite Hra0; exact Hw).
    destruct (processItems_storable config emails1 emptyBatch wa Hwa)
      as (wb' & Hitems & Hlater_b & Hsame_b & Hall).
    rewrite Hb in Hitems. injection Hitems as -> <-.
    pose proof (quiet_processItems config emails1 emptyBatch wa) as (Hcb & _).
    rewrite Hb in Hcb. cbn [snd] in Hcb.
    rewrite Hra0 in Hlater_b, Hsame_b, Hall, Hf, Hids.
    split; [exact Hf |]. split; [exact Hids |].
    assert (Hwb : writable (remote wb) = true)
      by (rewrite (later_writable Hlater_b); exact Hw).
    destruct (resolve (nodes (remote wb)) (basePath config))
      as [root |] eqn:Hroot.
    + destruct (@saveSyncState_bench config (Date_toISOString (clock w0)) wb root
                  Hwb Hroot (toISOString_truthy _))
        as (w1' & Hsave' & Hlater & Hloaded & _).
      rewrite Hsave in Hsave'. injection Hsave' as <-.
      assert (Hsame1 : forall e, storable config e (remote w1)
                                 = storable config e (remote wb))
        by (intros e; exact (storable_rooted _ e Hlater Hroot)).
      assert (Hlater01 : Later (remote w0) (remote w1))
        by (eapply later_trans; eassumption).
      split; [intros e; rewrite Hsame1; apply Hsame_b |].
      split; [rewrite <- Hdr; apply drained_pages; apply Hlater01 |].
      split; [exact Hemails |].
      split; [| split].
      * eapply Forall_impl; [| exact Hall].
        intros e He Hst. eapply archived_later; [| exact Hlater].
        apply He. rewrite <- Hsame_b, <- Hsame1. exact Hst.
      * intros wl2 _. rewrite Hloaded. unfold lowerBound, markerState.
        cbn [lastSyncTimestamp Date_of_value].
        rewrite parse_toISOString. exists (clock w0).
        split; [reflexivity | lia].
      * intros _. split; [exact Hpos |]. right. split.
        -- rewrite (later_writable Hlater). exact Hwb.
        -- eexists. exact Hloaded.
    + destruct (@saveSyncState_rootless config (Date_toISOString (clock w0)) wb
                  Hroot) as (w1' & Hsave' & (Hr1 & Hc1 & _)).
      rewrite Hsave in Hsave'. injection Hsave' as <-.
      assert (Hroot0 : resolve (nodes (remote w0)) (basePath config) = None).
      { destruct (resolve (nodes (remote w0)) (basePath config))
          as [root |] eqn:Hroot0; [| reflexivity].
        destruct (later_resolves _ Hlater_b Hroot0) as (root' & Hroot' & _).
        congruence. }
      rewrite Hr1.
      split; [exact Hsame_b |].
      split; [rewrite <- Hdr; apply drained_pages; apply Hlater_b |].
      split; [exact Hemails |].
      split; [| split].
      * eapply Forall_impl; [| exact Hall].
        intros e He Hst. apply He. rewrite <- Hsame_b. exact Hst.
      * intros wl2 (_ & Hc2 & _).
        rewrite (loadedState_rootless _ Hroot).
        rewrite (loadedState_rootless _ Hroot0) in Hs1.
        unfold lowerBound, noSyncState in *. cbn [lastSyncTimestamp] in *.
        injection Hs1 as <-. eexists. split; [reflexivity |].
        apply subDays_monotone. lia.
      * intros _. split; [exact Hpos |]. left. exact Hroot.
Qed.


End RunningTwice.


(* ================================================================== *)
(** * File names and numerals *)
(* ================================================================== *)

Section NumeralFacts.

Lemma uint_digits d rest :
  Numeral.digits rest = EmptyString ->
  Numeral.digits (NilEmpty.string_of_uint d ++ rest) = NilEmpty.string_of_uint d.
Proof.
  intros Hrest. induction d; cbn [NilEmpty.string_of_uint String.append];
    [exact Hrest | ..]; cbn [Numeral.digits]; rewrite IHd; reflexivity.
Qed.

Lemma uint_first_digit d c s :
  NilEmpty.string_of_uint d = String c s -> Numeral.is_digit c = true.
Proof. destruct d; simpl; intros H; inversion H; reflexivity. Qed.

Lemma to_uint_string p :
  NilZero.string_of_uint (Pos.to_uint p) = NilEmpty.string_of_uint (Pos.to_uint p).
Proof.
  unfold NilZero.string_of_uint.
  destruct (Pos.to_uint p) eqn:Hp; try reflexivity.
  exfalso. revert Hp. apply Unsigned.to_uint_nonnil.
Qed.

(** The decimal form of an integer is the numeral at the head of any
    string that continues it with something else than a digit. *)
Lemma string_of_Z_prefix z rest :
  Numeral.digits rest = EmptyString ->
  Numeral.prefix (Js.string_of_Z z ++ rest) = Js.string_of_Z z.
Proof.
  intros Hrest. unfold Js.string_of_Z, NilZero.string_of_int.
  destruct z as [| p | p]; cbn [Z.to_int].
  - simpl. rewrite Hrest. reflexivity.
  - rewrite to_uint_string.
    destruct (NilEmpty.string_of_uint (Pos.to_uint p)) as [| c s] eqn:Hs.
    + exfalso. destruct (Pos.to_uint p) eqn:Hp; try discriminate.
      revert Hp. apply Unsigned.to_uint_nonnil.
    + pose proof (uint_first_digit _ Hs) as Hc.
      cbn [String.append Numeral.prefix].
      destruct (Ascii.eqb c Js.dash) eqn:Hdash.
      * apply Ascii.eqb_eq in Hdash. subst c. discriminate.
      * rewrite <- Hs.
        change (String c (s ++ rest)) with (String c s ++ rest)%string.
        rewrite <- Hs. apply uint_digits. exact Hrest.
  - rewrite to_uint_string. cbn [String.append Numeral.prefix].
    rewrite Ascii.eqb_refl. f_equal. apply uint_digits. exact Hrest.
Qed.

Lemma string_of_Z_parses z :
  NilZero.int_of_string (Js.string_of_Z z) = Some (Z.to_int z).
Proof.
  unfold Js.string_of_Z. apply NilZero.isi.
  - destruct z; simpl; try discriminate.
    intros H. injection H as H. revert H. apply Unsigned.to_uint_nonnil.
  - destruct z; simpl; try discriminate.
    intros H. injection H as H. revert H. apply Unsigned.to_uint_nonnil.
Qed.

Lemma string_of_Z_inj a b : Js.string_of_Z a = Js.string_of_Z b -> a = b.
Proof.
  intros H. pose proof (string_of_Z_parses a) as Ha.
  rewrite H, string_of_Z_parses in Ha. injection Ha as Ha.
  rewrite <- (DecimalZ.of_to a), <- (DecimalZ.of_to b), Ha. reflexivity.
Qed.

Lemma chars_inj a b : Js.chars a = Js.chars b -> a = b.
Proof.
  revert b. induction a as [| c a IH]; intros [| d b] H; simpl in H;
    try discriminate; [reflexivity |].
  injection H as -> H. f_equal. apply IH. exact H.
Qed.

Lemma append_assoc (a b c : string) : ((a ++ b) ++ c = a ++ (b ++ c))%string.
Proof. induction a as [| x a IH]; simpl; [reflexivity | rewrite IH; reflexivity]. Qed.

Lemma last_char a c d :
  last (Js.chars (a ++ String c EmptyString)) d = c.
Proof. rewrite chars_append. simpl. apply last_last. Qed.

End NumeralFacts.

Section FileNames.

Lemma fileName_id email1 email2 suffix1 suffix2 :
  (Js.string_of_Z (email_id email1) ++ "-" ++ suffix1
   = Js.string_of_Z (email_id email2) ++ "-" ++ suffix2)%string ->
  email_id email1 = email_id email2.
Proof.
  intros H. apply string_of_Z_inj.
  rewrite <- (@string_of_Z_prefix (email_id email1) ("-" ++ suffix1))
    by reflexivity.
  rewrite <- (@string_of_Z_prefix (email_id email2) ("-" ++ suffix2))
    by reflexivity.
  rewrite H. reflexivity.
Qed.

(** X11.  The file names tell the emails apart: two emails whose HTML
    files, or whose metadata files, have the same name have the same
    id, whatever their names are; and the HTML file of an email never
    has the name of a metadata file. *)
Theorem file_names_tell_ids_apart email1 email2 :
  (emailFileName email1 = emailFileName email2 ->
   email_id email1 = email_id email2) /\
  (metadataFileName email1 = metadataFileName email2 ->
   email_id email1 = email_id email2) /\
  emailFileName email1 <> metadataFileName email2.
Proof.
  unfold emailFileName, metadataFileName. split; [| split].
  - apply fileName_id.
  - apply fileName_id.
  - intros H.
    assert (Hl : forall a b : string,
               (a ++ ".html" = b ++ "-metadata.json")%string -> False).
    { intros a b Hab.
      pose proof (@last_char (a ++ ".htm") "l" "x") as H1.
      pose proof (@last_char (b ++ "-metadata.jso") "n" "x") as H2.
      rewrite !append_assoc in H1, H2. cbn [String.append] in H1, H2.
      rewrite Hab in H1. rewrite H2 in H1. discriminate. }
    apply (Hl (Js.string_of_Z (email_id email1) ++ "-"
                 ++ sanitize (email_name email1))%string
              (Js.string_of_Z (email_id email2) ++ "-"
                 ++ sanitize (email_name email2))%string).
    rewrite !append_assoc. exact H.
Qed.

Lemma sanitize_clean s : cleanb s = true -> sanitize s = s.
Proof.
  unfold sanitize. induction s as [| c s IH]; [reflexivity |].
  rewrite cleanb_cons. intros H. apply andb_true_iff in H.
  destruct H as [Hc Hs]. apply negb_true_iff in Hc.
  simpl. rewrite Hc, (IH Hs). reflexivity.
Qed.

(** X12.  Sanitizing keeps the length of a name, changes nothing in a
    name that has no reserved character, and only in such a name; so
    sanitizing twice is sanitizing once. *)
Theorem sanitize_is_a_projection s :
  String.length (sanitize s) = String.length s /\
  (sanitize s = s <-> clean s) /\
  sanitize (sanitize s) = sanitize s.
Proof.
  split; [| split].
  - unfold sanitize. induction s as [| c s IH]; simpl; congruence.
  - split.
    + intros H. apply cleanb_spec. rewrite <- H. apply replace_reserved_cleanb.
    + intros H. apply sanitize_clean. apply cleanb_spec. exact H.
  - apply sanitize_clean. apply replace_reserved_cleanb.
Qed.

End FileNames.

Section PathFormat.
Context {P : Platform}.

Lemma four_digit_years y :
  1 <= y <= 9999 -> String.length (addLeadingZeros y 4) = 4%nat.
Proof.
  intros Hy.
  assert (Hall : forallb (fun n => Nat.eqb
                    (String.length (addLeadingZeros (Z.of_nat n) 4)) 4)
                   (seq 1 (Z.to_nat 9999)) = true) by (vm_compute; reflexivity).
  rewrite forallb_forall in Hall.
  specialize (Hall (Z.to_nat y)). rewrite Z2Nat.id in Hall by lia.
  apply Nat.eqb_eq. apply Hall. apply in_seq. lia.
Qed.

Lemma two_digit_months m :
  1 <= m <= 12 ->
  In (addLeadingZeros m 2)
     ["01"; "02"; "03"; "04"; "05"; "06"; "07"; "08"; "09"; "10"; "11"; "12"].
Proof.
  intros Hm.
  assert (Hall : forallb (fun n =>
                    existsb (String.eqb (addLeadingZeros (Z.of_nat n) 2))
                      ["01"; "02"; "03"; "04"; "05"; "06"; "07"; "08"; "09";
                       "10"; "11"; "12"])
                   (seq 1 12) = true) by (vm_compute; reflexivity).
  rewrite forallb_forall in Hall.
  specialize (Hall (Z.to_nat m)). rewrite Z2Nat.id in Hall by lia.
  assert (Hin : In (Z.to_nat m) (seq 1 12)) by (apply in_seq; lia).
  apply Hall in Hin. apply existsb_exists in Hin.
  destruct Hin as (x & Hx & Heq). apply String.eqb_eq in Heq.
  rewrite Heq. exact Hx.
Qed.

(** X13.  For a date whose local year is between 1 and 9999 and whose
    month index is between 0 and 11, [toPathFormat] gives a year of
    exactly four characters and a month that is one of 01 to 12. *)
Theorem path_format_shape t year month :
  1 <= Date_getFullYear t <= 9999 ->
  0 <= Date_getMonth t <= 11 ->
  toPathFormat (Some t) = Some (year, month) ->
  String.length year = 4%nat /\
  In month
     ["01"; "02"; "03"; "04"; "05"; "06"; "07"; "08"; "09"; "10"; "11"; "12"].
Proof.
  intros Hy Hm H. unfold toPathFormat in H. injection H as <- <-.
  unfold format_yyyy, format_MM. split.
  - destruct (Date_getFullYear t >? 0) eqn:Hpos.
    + apply four_digit_years. exact Hy.
    + rewrite Z.gtb_ltb in Hpos. apply Z.ltb_ge in Hpos. lia.
  - apply two_digit_months. lia.
Qed.

End PathFormat.

(* ================================================================== *)
(** * Loading the configuration *)
(* ================================================================== *)

Section ConfigFacts.

Lemma getEnvVar_present env name :
  Settings.present env name = true ->
  exists value,
    env name = Some value /\ Settings.getEnvVar env name None = inr value.
Proof.
  unfold Settings.present, Settings.getEnvVar, Js.or_else.
  destruct (env name) as [value |]; [| discriminate].
  intros Ht. exists value. rewrite Ht, Ht. auto.
Qed.

Lemma getEnvVar_missing env name :
  Settings.present env name = false ->
  Settings.getEnvVar env name None =
  inl (Js.Error ("Missing required environment variable: " ++ name)).
Proof.
  unfold Settings.present, Settings.getEnvVar, Js.or_else.
  destruct (env name) as [value |]; [| reflexivity].
  intros Ht. rewrite Ht. reflexivity.
Qed.

Lemma getEnvVar_default env name fallback :
  Js.truthy fallback = true ->
  exists value,
    Settings.getEnvVar env name (Some fallback) = inr value /\
    (Settings.present env name = false -> value = fallback) /\
    (Settings.present env name = true -> env name = Some value).
Proof.
  intros Hf. unfold Settings.present, Settings.getEnvVar, Js.or_else.
  destruct (env name) as [value |].
  - destruct (Js.truthy value) eqn:Ht.
    + exists value. rewrite Ht. repeat split; auto. discriminate.
    + exists fallback. rewrite Hf. repeat split; auto. discriminate.
  - exists fallback. rewrite Hf. repeat split; auto. discriminate.
Qed.

Lemma getEnvVarNumber_numeric env name fallback :
  if Settings.numeric env name
  then exists n,
      Settings.getEnvVarNumber env name fallback = inr n /\
      (Settings.present env name = false -> n = fallback)
  else exists value,
      env name = Some value /\
      Settings.getEnvVarNumber env name fallback =
      inl (Js.Error ("Environment variable " ++ name
                       ++ " must be a number, got: " ++ value)).
Proof.
  unfold Settings.numeric, Settings.getEnvVarNumber, Settings.present.
  destruct (env name) as [value |]; [| exists fallback; auto].
  destruct (Js.truthy value); [| exists fallback; auto].
  destruct (Numeral.parseInt10 value) as [n |].
  - exists n. split; [reflexivity | discriminate].
  - exists value. auto.
Qed.

(** X18.  [loadConfig] reads the six variables that have no default
    in a fixed order, and a variable counts as missing when it is not
    set or set to the empty string: if one of them is missing the
    error names the first missing one; otherwise the configuration
    loads exactly when each of the two numeric variables, if present,
    starts with an integer, and then a variable with a default that is
    not present takes its default: the base path of the source text,
    90 days, 50 items. *)
Theorem loadConfig_names_the_first_missing_variable env :
  match find (fun name => negb (Settings.present env name)) Settings.required with
  | Some name =>
      Settings.loadConfig env =
      inl (Js.Error ("Missing required environment variable: " ++ name))
  | None =>
      ((exists c, Settings.loadConfig env = inr c) <->
       Settings.numeric env "SYNC_LOOKBACK_DAYS" = true /\
       Settings.numeric env "SYNC_BATCH_SIZE" = true) /\
      forall c,
        Settings.loadConfig env = inr c ->
        (Settings.present env "ALFRESCO_BASE_PATH" = false ->
         Settings.basePath (Settings.alfresco c)
         = "/Company Home/Marketo Emails") /\
        (Settings.present env "SYNC_LOOKBACK_DAYS" = false ->
         Settings.lookbackDays (Settings.sync c) = 90) /\
        (Settings.present env "SYNC_BATCH_SIZE" = false ->
         Settings.batchSize (Settings.sync c) = 50)
  end.
Proof.
  unfold Settings.required, Settings.loadConfig. cbn [find].
  repeat
    match goal with
    | |- context [negb (Settings.present env ?name)] =>
        let H := fresh "Hp" in
        destruct (Settings.present env name) eqn:H; cbn [negb];
        [ let v := fresh "v" in
          destruct (getEnvVar_present _ _ H) as (v & _ & ->);
          cbn [Settings.and_then]
        | rewrite (getEnvVar_missing _ _ H); reflexivity ]
    end.
  destruct (@getEnvVar_default env "ALFRESCO_BASE_PATH"
              "/Company Home/Marketo Emails" eq_refl)
    as (base & -> & Hbase & _).
  cbn [Settings.and_then].
  pose proof (getEnvVarNumber_numeric env "SYNC_LOOKBACK_DAYS" 90) as Hdays.
  pose proof (getEnvVarNumber_numeric env "SYNC_BATCH_SIZE" 50) as Hsize.
  destruct (Settings.numeric env "SYNC_LOOKBACK_DAYS").
  - destruct Hdays as (days & -> & Hdays). cbn [Settings.and_then].
    destruct (Settings.numeric env "SYNC_BATCH_SIZE").
    + destruct Hsize as (size & -> & Hsize). cbn [Settings.and_then].
      split.
      * split; [auto | intros _; eexists; reflexivity].
      * intros c Hc. injection Hc as <-. cbn. auto.
    + destruct Hsize as (value & _ & ->). cbn [Settings.and_then].
      split.
      * split; [intros (c & Hc); discriminate | intros (_ & H); discriminate].
      * intros c Hc. discriminate.
  - destruct Hdays as (value & _ & ->). cbn [Settings.and_then].
    split.
    + split; [intros (c & Hc); discriminate | intros (H & _); discriminate].
    + intros c Hc. discriminate.
Qed.

Lemma string_of_Z_no_space z rest :
  Numeral.trimStart (Js.string_of_Z z ++ rest) = (Js.string_of_Z z ++ rest)%string.
Proof.
  unfold Js.string_of_Z, NilZero.string_of_int.
  destruct z as [| p | p]; cbn [Z.to_int]; try reflexivity.
  rewrite to_uint_string.
  destruct (NilEmpty.string_of_uint (Pos.to_uint p)) as [| c s] eqn:Hs;
    [| destruct (Pos.to_uint p); simpl in Hs; inversion Hs; reflexivity ].
  exfalso. destruct (Pos.to_uint p) eqn:Hp; try discriminate.
  revert Hp. apply Unsigned.to_uint_nonnil.
Qed.

Lemma uint_of_digits p :
  NilZero.uint_of_string (NilEmpty.string_of_uint (Pos.to_uint p))
  = Some (Pos.to_uint p).
Proof.
  unfold NilZero.uint_of_string.
  destruct (NilEmpty.string_of_uint (Pos.to_uint p)) eqn:Hs.
  - exfalso. destruct (Pos.to_uint p) eqn:Hp; try discriminate.
    revert Hp. apply Unsigned.to_uint_nonnil.
  - rewrite <- Hs. apply NilEmpty.usu.
Qed.

Lemma of_to_uint p : Z.of_uint (Pos.to_uint p) = Z.pos p.
Proof.
  unfold Z.of_uint. rewrite DecimalPos.Unsigned.of_to. reflexivity.
Qed.

(** [parseInt] reads back the decimal form of an integer, whatever
    follows it, as long as that is not one more digit. *)
Lemma parseInt10_string_of_Z z rest :
  Numeral.digits rest = EmptyString ->
  Numeral.parseInt10 (Js.string_of_Z z ++ rest) = Some z.
Proof.
  intros Hrest. unfold Numeral.parseInt10. rewrite string_of_Z_no_space.
  unfold Js.string_of_Z, NilZero.string_of_int.
  destruct z as [| p | p]; cbn [Z.to_int].
  - simpl. rewrite Hrest. reflexivity.
  - rewrite to_uint_string.
    destruct (NilEmpty.string_of_uint (Pos.to_uint p)) as [| c s] eqn:Hs.
    + exfalso. destruct (Pos.to_uint p) eqn:Hp; try discriminate.
      revert Hp. apply Unsigned.to_uint_nonnil.
    + assert (Hdash : Ascii.eqb c Js.dash = false)
        by (destruct (Pos.to_uint p); simpl in Hs; inversion Hs; reflexivity).
      assert (Hplus : Ascii.eqb c (ascii_of_nat 43) = false)
        by (destruct (Pos.to_uint p); simpl in Hs; inversion Hs; reflexivity).
      cbn [String.append]. rewrite Hdash, Hplus.
      change (String c (s ++ rest)) with (String c s ++ rest)%string.
      rewrite <- Hs, uint_digits by exact Hrest.
      rewrite uint_of_digits, of_to_uint. reflexivity.
  - rewrite to_uint_string. cbn [String.append].
    rewrite Ascii.eqb_refl.
    rewrite uint_digits by exact Hrest.
    rewrite uint_of_digits, of_to_uint. reflexivity.
Qed.

Lemma loadConfig_batchSize env c :
  Settings.loadConfig env = inr c ->
  Settings.getEnvVarNumber env "SYNC_BATCH_SIZE" 50
  = inr (Settings.batchSize (Settings.sync c)).
Proof.
  unfold Settings.loadConfig.
  repeat
    match goal with
    | |- Settings.and_then ?r _ = _ -> _ =>
        destruct r; cbn [Settings.and_then]; [discriminate |]
    end.
  intros H. injection H as <-. reflexivity.
Qed.

End ConfigFacts.

Section ConfigRuns.
Context {P : Platform} {E : Type} {R : Remote E}.

(** X19.  A batch size is taken from [SYNC_BATCH_SIZE] as the integer
    the value starts with, sign included, whatever follows the digits,
    and is not checked further: a configuration that loads with a
    value that starts with zero or a negative integer has that batch
    size, and with it the batch loop over any non-empty list of
    candidates never ends. *)
Theorem batch_size_is_not_validated env c n rest emails :
  Settings.loadConfig env = inr c ->
  env "SYNC_BATCH_SIZE" = Some (Js.string_of_Z n ++ rest)%string ->
  Numeral.digits rest = EmptyString ->
  batchSize (engineConfig c) = n /\
  (n <= 0 -> emails <> [] ->
   forall turns acc (w : World E),
     fst (processBatch_loop (engineConfig c) turns emails
                            (batchSize (engineConfig c)) 0 acc w) = Diverged).
Proof.
  intros Hload Henv Hrest.
  assert (Hn : batchSize (engineConfig c) = n).
  { apply loadConfig_batchSize in Hload.
    unfold Settings.getEnvVarNumber in Hload. rewrite Henv in Hload.
    rewrite truthy_append, string_of_Z_truthy in Hload. cbn [orb] in Hload.
    rewrite parseInt10_string_of_Z in Hload by exact Hrest.
    injection Hload as Hload. cbn [engineConfig batchSize]. congruence. }
  split; [exact Hn |].
  intros Hneg Hne turns acc w. rewrite Hn.
  apply processBatch_loop_stuck; [exact Hneg | exact Hne | lia].
Qed.

End ConfigRuns.

(* ================================================================== *)
(** * The token and the bulk extract job *)
(* ================================================================== *)

Section SessionFacts.
Context {E : Type} {R : Remote E} {B : Bulk E}.

(** X20.  After an authentication that succeeded, the token is
    reused, without any exchange, at every instant before the instant
    of the answer plus the announced lifetime less 300 seconds, and a
    new token is asked for at every instant from then on; so a token
    announced to live 300 seconds or less is never reused, and neither
    is an empty token. *)
Theorem token_is_reused_until_300s_before_expiry
        session (w w1 : World E) session1 :
  authenticate session w = (Returned session1, w1) ->
  exists response,
    fst (fst (marketo_token (remote w))) = inr response /\
    accessToken session1 = Some (access_token response) /\
    forall w2 : World E,
      (Js.truthy (access_token response) = true ->
       clock w2 < clock w1 + (expires_in response - 300) * 1000 ->
       ensureAuthenticated session1 w2 = (Returned session1, w2)) /\
      (clock w1 + (expires_in response - 300) * 1000 <= clock w2 ->
       ensureAuthenticated session1 w2 = authenticate session1 w2) /\
      (expires_in response <= 300 -> clock w1 <= clock w2 ->
       ensureAuthenticated session1 w2 = authenticate session1 w2) /\
      (Js.truthy (access_token response) = false ->
       ensureAuthenticated session1 w2 = authenticate session1 w2).
Proof.
  unfold authenticate at 1.
  destruct (marketo_token (remote w)) as [[[error | response] e] dt];
    [discriminate |].
  intros H. injection H as Hs Hw. subst session1 w1.
  exists response. cbn [fst clock]. split; [reflexivity |].
  split; [reflexivity |].
  intros w2. unfold ensureAuthenticated, no_token.
  cbn [accessToken tokenExpiresAt clock].
  split; [| split; [| split]].
  - intros Ht Hlt. rewrite Ht. cbn [negb orb].
    destruct (_ <=? clock w2) eqn:Hle; [apply Z.leb_le in Hle; lia |].
    reflexivity.
  - intros Hle. apply Z.leb_le in Hle. rewrite Hle, orb_true_r. reflexivity.
  - intros Hshort Hlater.
    assert (Hle : clock w + Z.of_N dt + (expires_in response - 300) * 1000
                  <= clock w2) by lia.
    apply Z.leb_le in Hle. rewrite Hle, orb_true_r. reflexivity.
  - intros Ht. rewrite Ht. reflexivity.
Qed.

Lemma exchange_clock (A : Type) (p : E -> Reply E A) (w : World E) :
  clock w <= clock (snd (exchange p w)).
Proof.
  unfold exchange. destruct (p (remote w)) as [[r e] dt].
  cbn [snd clock]. pose proof (N2Z.is_nonneg dt). lia.
Qed.

Lemma getExtractJobStatus_clock exportId (w : World E) :
  clock w <= clock (snd (getExtractJobStatus exportId w)).
Proof.
  unfold getExtractJobStatus, bind.
  pose proof (exchange_clock (marketo_exportStatus exportId) w) as Hc.
  destruct (exchange (marketo_exportStatus exportId) w) as [[resp | e |] w1];
    cbn [snd] in *; try exact Hc.
  destruct (first_result resp); exact Hc.
Qed.

(** As long as what is left of the waiting time fits in the polls
    that are left, the loop ends, and a job it returns is completed. *)
Lemma waitForExtractJob_loop_ends exportId maxWaitSeconds startTime :
  forall fuel (w : World E),
    maxWaitSeconds * 1000 - (clock w - startTime) <= 5000 * Z.of_nat fuel ->
    match fst (waitForExtractJob_loop fuel exportId maxWaitSeconds startTime w) with
    | Returned job => job_status job = Completed
    | Thrown _ => True
    | Diverged => False
    end.
Proof.
  induction fuel as [| fuel IH]; intros w Hleft.
  - cbn [waitForExtractJob_loop]. unfold bind, now.
    destruct (clock w - startTime <? maxWaitSeconds * 1000) eqn:Hlt.
    + apply Z.ltb_lt in Hlt. simpl in Hleft. lia.
    + exact I.
  - cbn [waitForExtractJob_loop]. unfold bind at 1, now at 1.
    destruct (clock w - startTime <? maxWaitSeconds * 1000) eqn:Hlt;
      [| exact I].
    unfold bind at 1.
    pose proof (getExtractJobStatus_clock exportId w) as Hc1.
    destruct (getExtractJobStatus exportId w) as [[job | e |] w1] eqn:Hjob;
      cbn [snd] in Hc1.
    + destruct (job_status job) eqn:Hstatus; try exact I; try exact Hstatus.
      all: unfold bind at 1;
        destruct (setTimeout pollIntervalMs w1) as [o w2] eqn:Ht;
        pose proof (setTimeout_clock _ _ Ht) as (Hc2 & _);
        assert (Ho : o = Returned tt)
          by (unfold setTimeout in Ht;
              destruct (timer_lag (remote w1)); inversion Ht; reflexivity);
        subst o; apply IH; unfold pollIntervalMs in Hc2; lia.
    + exact I.
    + unfold getExtractJobStatus, bind, exchange in Hjob.
      destruct (marketo_exportStatus exportId (remote w)) as [[[err | resp] e] dt];
        [discriminate |].
      destruct (first_result resp); discriminate.
Qed.

(** X21.  [waitForExtractJob] always ends, whatever the answers and
    however long they take: given one poll for each started period of
    5 seconds of the waiting time, it returns or throws, and a job it
    returns is completed.  With a waiting time of zero or less it
    throws the timeout error at once, without a single poll. *)
Theorem waitForExtractJob_ends exportId maxWaitSeconds fuel (w : World E) :
  (Z.to_nat ((maxWaitSeconds * 1000 + 4999) / 5000) <= fuel)%nat ->
  match fst (waitForExtractJob fuel exportId maxWaitSeconds w) with
  | Returned job => job_status job = Completed
  | Thrown _ => True
  | Diverged => False
  end /\
  (maxWaitSeconds <= 0 ->
   waitForExtractJob fuel exportId maxWaitSeconds w =
   (Thrown (Js.Error ("Extract job " ++ exportId ++ " timed out after "
                        ++ Js.string_of_Z maxWaitSeconds ++ " seconds")), w)).
Proof.
  intros Hfuel. unfold waitForExtractJob. unfold bind at 1, now at 1. split.
  - apply waitForExtractJob_loop_ends.
    destruct (Z.le_gt_cases (maxWaitSeconds * 1000 + 4999) (-1)) as [Hneg | Hpos].
    + lia.
    + assert (Hq : maxWaitSeconds * 1000 + 4999
                   < 5000 * ((maxWaitSeconds * 1000 + 4999) / 5000) + 5000).
      { pose proof (Z.mul_succ_div_gt (maxWaitSeconds * 1000 + 4999) 5000
                      ltac:(lia)). lia. }
      assert (H0 : 0 <= (maxWaitSeconds * 1000 + 4999) / 5000)
        by (apply Z.div_pos; lia).
      lia.
  - intros Hmax. unfold bind at 1, now at 1.
    destruct fuel; cbn [waitForExtractJob_loop]; unfold bind, now;
      (destruct (clock w - clock w <? maxWaitSeconds * 1000) eqn:Hlt;
       [apply Z.ltb_lt in Hlt; lia | reflexivity]).
Qed.

End SessionFacts.

(* ================================================================== *)
(** * The request lines *)
(* ================================================================== *)

Section UriFacts.

(** What an encoded component is made of. *)
Lemma encode_unit_safe c :
  forallb (fun x => Uri.is_unreserved x || Ascii.eqb x (ascii_of_nat 37))
          (Js.chars (Uri.encode_unit c)) = true.
Proof. destruct c as [[] [] [] [] [] [] [] []]; vm_compute; reflexivity. Qed.

Lemma encode_unit_apostrophe c :
  Uri.occurrences Uri.apostrophe (Uri.encode_unit c) =
  if Ascii.eqb c Uri.apostrophe then 1%nat else 0%nat.
Proof. destruct c as [[] [] [] [] [] [] [] []]; vm_compute; reflexivity. Qed.

Lemma encodeURIComponent_safe s :
  forallb (fun x => Uri.is_unreserved x || Ascii.eqb x (ascii_of_nat 37))
          (Js.chars (Uri.encodeURIComponent s)) = true.
Proof.
  induction s as [| c s IH]; [reflexivity |].
  cbn [Uri.encodeURIComponent]. rewrite chars_append, forallb_app.
  rewrite encode_unit_safe, IH. reflexivity.
Qed.

Lemma safe_not_slash x :
  Uri.is_unreserved x || Ascii.eqb x (ascii_of_nat 37) = true ->
  negb (Ascii.eqb x Js.slash) = true.
Proof.
  destruct (Ascii.eqb x Js.slash) eqn:Hx; [| reflexivity].
  apply Ascii.eqb_eq in Hx. subst x. vm_compute. discriminate.
Qed.

Lemma encodeURIComponent_free s :
  free_of Js.slash (Uri.encodeURIComponent s) = true.
Proof.
  unfold free_of. apply forallb_forall. intros x Hx.
  pose proof (encodeURIComponent_safe s) as Hs.
  rewrite forallb_forall in Hs. apply safe_not_slash. apply Hs. exact Hx.
Qed.

Lemma split_concat sep pieces :
  pieces <> [] ->
  Forall (fun p => free_of sep p = true) pieces ->
  Js.split sep (String.concat (String sep EmptyString) pieces) = pieces.
Proof.
  induction pieces as [| x rest IH]; intros Hne Hfree; [congruence |].
  inversion Hfree as [| ? ? Hx Hrest]; subst.
  destruct rest as [| y rest].
  - simpl. apply split_free. exact Hx.
  - change (String.concat (String sep EmptyString) (x :: y :: rest))
      with (x ++ String sep (String.concat (String sep EmptyString) (y :: rest)))%string.
    rewrite split_append, (split_free _ _ Hx), IH by (congruence || assumption).
    reflexivity.
Qed.

Lemma chars_concat_in c sep pieces :
  In c (Js.chars (String.concat sep pieces)) ->
  In c (Js.chars sep) \/ exists p, In p pieces /\ In c (Js.chars p).
Proof.
  induction pieces as [| x rest IH]; [intros [] |].
  destruct rest as [| y rest].
  - simpl. intros H. right. exists x. split; [left; reflexivity | exact H].
  - change (String.concat sep (x :: y :: rest))
      with (x ++ sep ++ String.concat sep (y :: rest))%string.
    rewrite !chars_append, !in_app_iff. intros [H | [H | H]].
    + right. exists x. split; [left; reflexivity | exact H].
    + left. exact H.
    + destruct (IH H) as [Hs | (p & Hp & Hc)]; [left; exact Hs |].
      right. exists p. split; [right; exact Hp | exact Hc].
Qed.

Lemma occurrences_append c a b :
  Uri.occurrences c (a ++ b) = (Uri.occurrences c a + Uri.occurrences c b)%nat.
Proof. unfold Uri.occurrences. rewrite chars_append. apply count_occ_app. Qed.

Lemma encodeURIComponent_apostrophes s :
  Uri.occurrences Uri.apostrophe (Uri.encodeURIComponent s)
  = Uri.occurrences Uri.apostrophe s.
Proof.
  induction s as [| c s IH]; [reflexivity |].
  cbn [Uri.encodeURIComponent]. rewrite occurrences_append, IH.
  rewrite encode_unit_apostrophe.
  unfold Uri.occurrences. cbn [Js.chars count_occ].
  destruct (ascii_dec c Uri.apostrophe) as [-> | Hne].
  - rewrite Ascii.eqb_refl. reflexivity.
  - apply Ascii.eqb_neq in Hne. rewrite Hne. reflexivity.
Qed.

Lemma sanitize_apostrophes s :
  Uri.occurrences Uri.apostrophe (sanitize s) = Uri.occurrences Uri.apostrophe s.
Proof.
  unfold sanitize, Uri.occurrences.
  induction s as [| c s IH]; [reflexivity |].
  cbn [Js.replace_class Js.chars count_occ]. rewrite IH.
  destruct (Js.is_reserved c) eqn:Hr.
  - destruct (ascii_dec c Uri.apostrophe) as [-> | Hne]; [discriminate |].
    destruct (ascii_dec Js.dash Uri.apostrophe); [discriminate | reflexivity].
  - reflexivity.
Qed.

Lemma uint_apostrophes d :
  Uri.occurrences Uri.apostrophe (NilEmpty.string_of_uint d) = 0%nat.
Proof.
  unfold Uri.occurrences. induction d; simpl; try reflexivity; exact IHd.
Qed.

Lemma string_of_Z_apostrophes z :
  Uri.occurrences Uri.apostrophe (Js.string_of_Z z) = 0%nat.
Proof.
  unfold Js.string_of_Z, NilZero.string_of_int.
  destruct z as [| p | p]; cbn [Z.to_int]; [reflexivity | |];
    rewrite to_uint_string.
  - apply uint_apostrophes.
  - change (String "-" ?s) with ("-" ++ s)%string.
    pose proof (uint_apostrophes (Pos.to_uint p)) as H.
    unfold Uri.occurrences in *. cbn [Js.chars count_occ].
    destruct (ascii_dec "-" Uri.apostrophe); [discriminate | exact H].
Qed.

(** X22.  The relative path that [getNodeByPath] puts in its URL has
    the segments of the path it was given, each one encoded, with the
    slashes between them kept and none added: splitting it at the
    slashes gives back the encoded pieces.  Apart from those slashes it
    consists of letters, digits, the marks that [encodeURIComponent]
    leaves alone and percent signs. *)
Theorem encoded_path_keeps_the_segments path :
  Js.split Js.slash (encodedPath path)
  = map Uri.encodeURIComponent (Js.split Js.slash path) /\
  forallb (fun x => Uri.is_unreserved x || Ascii.eqb x (ascii_of_nat 37)
                    || Ascii.eqb x Js.slash)
          (Js.chars (encodedPath path)) = true.
Proof.
  unfold encodedPath. split.
  - apply split_concat.
    + pose proof (split_nonempty Js.slash path).
      destruct (Js.split Js.slash path); [congruence | discriminate].
    + apply Forall_map. apply Forall_forall. intros p _.
      apply encodeURIComponent_free.
  - apply forallb_forall. intros c Hc.
    apply chars_concat_in in Hc. destruct Hc as [Hc | (p & Hp & Hc)].
    + simpl in Hc. destruct Hc as [<- | []]. reflexivity.
    + apply in_map_iff in Hp. destruct Hp as (x & <- & _).
      pose proof (encodeURIComponent_safe x) as Hs.
      rewrite forallb_forall in Hs. rewrite (Hs c Hc). reflexivity.
Qed.

(** X23.  The where clause of [nodeExists] puts the encoded name
    between two apostrophes, and encoding leaves an apostrophe as it
    is: the URL has the two delimiters plus one apostrophe for each
    apostrophe of the name.  Sanitizing does not remove apostrophes
    either, so the existence check of an email has as many apostrophes
    inside the delimiters as the name of the email. *)
Theorem existence_check_keeps_apostrophes parentId name email :
  Uri.occurrences Uri.apostrophe parentId = 0%nat ->
  Uri.occurrences Uri.apostrophe (childrenUrl parentId name)
  = (2 + Uri.occurrences Uri.apostrophe name)%nat /\
  Uri.occurrences Uri.apostrophe (childrenUrl parentId (emailFileName email))
  = (2 + Uri.occurrences Uri.apostrophe (email_name email))%nat.
Proof.
  intros Hp.
  assert (Hurl : forall n,
             Uri.occurrences Uri.apostrophe (childrenUrl parentId n)
             = (2 + Uri.occurrences Uri.apostrophe n)%nat).
  { intros n. unfold childrenUrl.
    rewrite !occurrences_append, Hp, encodeURIComponent_apostrophes.
    change (Uri.occurrences Uri.apostrophe "/nodes/") with 0%nat.
    change (Uri.occurrences Uri.apostrophe "/children?where=(name='") with 1%nat.
    change (Uri.occurrences Uri.apostrophe "')") with 1%nat. lia. }
  split; [apply Hurl |].
  rewrite Hurl. f_equal. unfold emailFileName.
  rewrite !occurrences_append, string_of_Z_apostrophes, sanitize_apostrophes.
  change (Uri.occurrences Uri.apostrophe "-") with 0%nat.
  change (Uri.occurrences Uri.apostrophe ".html") with 0%nat. lia.
Qed.

End UriFacts.

(* ================================================================== *)
(** * The further properties at work *)
(* ================================================================== *)

(** X1 at work: one candidate, batch sizes 1 and 50. *)
Lemma batch_size_is_immaterial_witness :
  processBatch (P := Bench.epoch) Examples.config [Examples.campaign] 1
               (Bench.world Examples.newYear Examples.store)
  = processBatch (P := Bench.epoch) Examples.config [Examples.campaign] 50
                 (Bench.world Examples.newYear Examples.store).
Proof.
  apply (batch_size_is_immaterial (P := Bench.epoch) Examples.config
           [Examples.campaign]
           (Bench.world Examples.newYear Examples.store)); lia.
Defined.

(** X2 at work: the three candidates of [Examples.store] and a batch
    size of zero. *)
Lemma nonpositive_batch_size_never_ends_witness :
  fst (sync (P := Bench.epoch) Samples.stuckConfig 5
            (Bench.world Examples.newYear Examples.store)) = Diverged.
Proof.
  refine (proj2 (nonpositive_batch_size_never_ends (P := Bench.epoch)
                   Samples.stuckConfig 5
                   (Bench.world Examples.newYear Examples.store)
                   (emails := [Examples.campaign; Examples.bodiless;
                               Examples.loose])
                   (w1 := snd (fetchCandidates (P := Bench.epoch)
                                 Samples.stuckConfig 5
                                 (Bench.world Examples.newYear Examples.store)))
                   _ _ _)).
  - simpl. lia.
  - vm_compute. reflexivity.
  - discriminate.
Defined.

(** X3 at work: the first run over [Examples.store], three
    candidates. *)
Lemma run_takes_100ms_per_candidate_witness :
  exists r w',
    sync (P := Bench.epoch) Examples.config 5
         (Bench.world Examples.newYear Examples.store) = (Returned r, w') /\
    totalEmails r = 3 /\
    100 * totalEmails r <= duration r.
Proof.
  pose proof firstRun_eq as H. unfold Examples.firstRun in H.
  eexists _, _. split; [exact H |]. split; [reflexivity |].
  exact (proj2 (run_takes_100ms_per_candidate (P := Bench.epoch)
                  Examples.config 5 _ H)).
Defined.

(** X4 at work: a source that lists nothing. *)
Lemma run_without_candidates_only_reads_witness :
  Extends reads (Bench.world Examples.newYear Samples.quietStore)
          (snd (sync (P := Bench.epoch) Examples.config 5
                     (Bench.world Examples.newYear Samples.quietStore))).
Proof.
  refine (proj1 (run_without_candidates_only_reads (P := Bench.epoch)
                   Examples.config 5
                   (Bench.world Examples.newYear Samples.quietStore) _)).
  intros email rest. vm_compute. discriminate.
Defined.

(** X5 at work: the marker file holds the word yesterday. *)
Lemma unparseable_marker_fails_the_run_witness :
  exists w1,
    sync (P := Bench.epoch) Examples.config 5
         (Bench.world Examples.newYear Samples.corruptStore)
      = (Thrown (Js.RangeError "Invalid time value"), w1) /\
    sent w1 = [GetRelativePath "/Company Home/Marketo Emails";
               GetChildren "archive" ".sync-state.json"].
Proof.
  eexists. split.
  - apply (unparseable_marker_fails_the_run (P := Bench.epoch) Examples.config 5
             (Bench.world Examples.newYear Samples.corruptStore)
             (st := {| lastSyncTimestamp := Some (Js.VString "yesterday") |})
             (v := Js.VString "yesterday")).
    + vm_compute. reflexivity.
    + reflexivity.
    + vm_compute. reflexivity.
  - reflexivity.
Defined.

(** X8 at work: three folders are created, and the second call finds
    them. *)
Lemma ensureFolderPath_settles_witness :
  exists F w' w'',
    ensureFolderPath Examples.config "2024/01/Test-Campaign-2024"
                     (Bench.world Examples.newYear Examples.store)
      = (Returned F, w') /\
    ensureFolderPath Examples.config "2024/01/Test-Campaign-2024" w'
      = (Returned F, w'') /\
    remote w'' = remote w'.
Proof.
  pose proof (fun F w' => @ensureFolderPath_settles Examples.config
                "2024/01/Test-Campaign-2024"
                (Bench.world Examples.newYear Examples.store) F w') as H.
  eexists _, _.
  assert (Hrun : ensureFolderPath Examples.config "2024/01/Test-Campaign-2024"
                   (Bench.world Examples.newYear Examples.store)
                 = (Returned _, _)) by (vm_compute; reflexivity).
  destruct (H _ _ Hrun) as (_ & w'' & Hagain & Hsame & _).
  exists w''. split; [exact Hrun |]. split; [exact Hagain | exact Hsame].
Defined.

(** X9 at work: two candidates and a repository without the base
    path. *)
Lemma missing_base_path_fails_every_item_witness :
  exists r w',
    sync (P := Bench.epoch) Examples.config 5
         (Bench.world Examples.newYear Samples.rootlessStore) = (Returned r, w') /\
    totalEmails r = 2 /\
    processedEmails r = 0 /\
    failedEmails r = totalEmails r /\
    remote w' = Samples.rootlessStore.
Proof.
  assert (Hrun : sync (P := Bench.epoch) Examples.config 5
                   (Bench.world Examples.newYear Samples.rootlessStore)
                 = (Returned _, _)) by (vm_compute; reflexivity).
  eexists _, _. split; [exact Hrun |]. split; [reflexivity |].
  destruct (missing_base_path_fails_every_item (P := Bench.epoch)
              Examples.config 5
              (Bench.world Examples.newYear Samples.rootlessStore)
              ltac:(vm_compute; reflexivity) Hrun)
    as (Hp & Hf & _ & Hr).
  split; [exact Hp |]. split; [exact Hf | exact Hr].
Defined.


(** X13 at work: the first instant of 2024. *)
Lemma path_format_shape_witness :
  toPathFormat (P := Bench.epoch) (Some Examples.newYear) = Some ("2024", "01") /\
  String.length "2024" = 4%nat.
Proof.
  split; [vm_compute; reflexivity |].
  refine (proj1 (path_format_shape (P := Bench.epoch) (t := Examples.newYear)
                   (year := "2024") (month := "01") _ _ _)).
  - vm_compute. split; discriminate.
  - vm_compute. split; discriminate.
  - vm_compute. reflexivity.
Defined.

(** X15 at work: the first run over [Examples.store] counts one failed
    item, and the script exits with code 1. *)
Lemma exit_code_tells_failures_witness :
  fst (main (P := Bench.epoch) Examples.config 5
            (Bench.world Examples.newYear Examples.store)) = Returned 1.
Proof.
  pose proof firstRun_eq as H. unfold Examples.firstRun in H.
  destruct (exit_code_tells_failures (P := Bench.epoch) Examples.config 5
              (Bench.world Examples.newYear Examples.store))
    as (code & Hcode & _ & Hone).
  - rewrite H. discriminate.
  - rewrite Hcode. f_equal. apply Hone. right.
    eexists. rewrite H. split; [reflexivity |]. reflexivity.
Defined.



(** X19 at work: the batch size is written as minus five items. *)
Lemma batch_size_is_not_validated_witness :
  exists c,
    Settings.loadConfig Samples.env = inr c /\
    batchSize (engineConfig c) = -5 /\
    basePath (engineConfig c) = "/Company Home/Marketo Emails" /\
    forall turns,
      fst (processBatch_loop (P := Bench.epoch) (engineConfig c) turns
             [Examples.campaign] (batchSize (engineConfig c)) 0 emptyBatch
             (Bench.world Examples.newYear Examples.store)) = Diverged.
Proof.
  assert (Hload : Settings.loadConfig Samples.env = inr _)
    by (vm_compute; reflexivity).
  eexists. split; [exact Hload |].
  destruct (batch_size_is_not_validated (P := Bench.epoch) (E := Bench.Store)
              Samples.env (-5) " items" [Examples.campaign]
              Hload ltac:(reflexivity) ltac:(reflexivity))
    as (Hsize & Hloop).
  split; [exact Hsize |]. split; [reflexivity |].
  intros turns. apply Hloop; [lia | discriminate].
Defined.

(** X20 at work: a token announced for 600 seconds, asked at
    [newYear] and answered 7 ms later, is reused 299 seconds after the
    answer. *)
Lemma token_is_reused_until_300s_before_expiry_witness :
  exists session1 w1,
    authenticate (B := Samples.slowJob) Samples.noSession
                 (Bench.world Examples.newYear Examples.store)
      = (Returned session1, w1) /\
    ensureAuthenticated (B := Samples.slowJob) session1
      (Bench.world (Examples.newYear + 7 + 299000) Examples.store)
    = (Returned session1,
       Bench.world (Examples.newYear + 7 + 299000) Examples.store).
Proof.
  assert (Hrun : authenticate (B := Samples.slowJob) Samples.noSession
                   (Bench.world Examples.newYear Examples.store)
                 = (Returned _, _)) by (vm_compute; reflexivity).
  eexists _, _. split; [exact Hrun |].
  destruct (token_is_reused_until_300s_before_expiry (B := Samples.slowJob)
              _ _ Hrun) as (response & Hresp & _ & Hlater).
  vm_compute in Hresp. injection Hresp as <-.
  apply (proj1 (Hlater _)); [reflexivity | vm_compute; reflexivity].
Defined.

(** X21 at work: a job that stays in processing, waited for during
    12 seconds, is given up after at most three polls. *)
Lemma waitForExtractJob_ends_witness :
  fst (waitForExtractJob (B := Samples.slowJob) 3 "job" 12
         (Bench.world Examples.newYear Examples.store)) <> Diverged.
Proof.
  destruct (waitForExtractJob_ends (R := Bench.store_remote)
              (B := Samples.slowJob) "job" 12 (fuel := 3)
              (Bench.world Examples.newYear Examples.store)
              ltac:(vm_compute; lia)) as (Hends & _).
  intros Heq. rewrite Heq in Hends. exact Hends.
Defined.

(** X23 at work: an email named after its sender. *)
Lemma existence_check_keeps_apostrophes_witness :
  childrenUrl "node-7" "7-Bob's.html"
  = "/nodes/node-7/children?where=(name='7-Bob's.html')" /\
  Uri.occurrences Uri.apostrophe (childrenUrl "node-7" "7-Bob's.html") = 3%nat.
Proof.
  split; [reflexivity |].
  exact (proj1 (existence_check_keeps_apostrophes "node-7" "7-Bob's.html"
                  Examples.campaign ltac:(reflexivity))).
Defined.
